(** * edgar-cli research core: chunking, lexical ranking, manifest store, sync

    A shallow embedding of [src/commands/research.ts] (with the error
    taxonomy of [src/core/errors.ts]) and the properties of its natural-language
    specification.

    Conventions of the embedding.
    - A JavaScript string is a [string]: a sequence of code units in the
      Latin-1 range [0..255].  Case mapping, white space and the character
      classes of the regular expressions are those of ECMAScript restricted
      to that range.
    - A JavaScript number holding a count, an index or a line number is a
      [nat].  A score is a real number ([R]): [bm25Score] and
      [adjustedChunkScore] give the exact value of the expressions of the
      source.  The engine computes in IEEE doubles; a double is a real
      number and doubles are ordered as real numbers are, so what is said
      of the ranking is said for any scores ([runLexicalSearch_computed]),
      and [Doubles] has [bm25Score] in double precision.
    - [Map<string, number>] is a [gmap string nat]; [m.get(k) ?? 0] is
      [default 0 (m !! k)].
    - [JSON_parse] reads the JSON texts whose strings stay in the Latin-1
      range; a text with a [\u] escape above [\u00FF] is outside the
      model ([wide_escape] tells them).
    - A function that can throw returns [result A]: [Ok a] or [Err e]. *)

From Stdlib Require Import Reals Lra Lia ZArith List String Ascii Bool.
From Stdlib Require Import DecimalString DecimalZ.
From Stdlib Require Floats.
From Stdlib Require Import Sorting.Sorted Sorting.Permutation OrderedTypeEx.
From Equations Require Import Equations.
From stdpp Require Import base option list gmap strings.

Set Default Goal Selector "!".
Local Open Scope string_scope.
Local Open Scope list_scope.
Local Open Scope nat_scope.

(* ===================================================================== *)
(** ** Errors ([src/core/errors.ts]) *)
(* ===================================================================== *)

Module Errors.

Inductive ErrorCode :=
| VALIDATION_ERROR
| DOCS_REQUIRED
| IDENTITY_REQUIRED
| RATE_LIMITED
| NOT_FOUND
| NETWORK_ERROR
| PARSE_ERROR
| INTERNAL_ERROR.

#[global] Instance ErrorCode_eq_dec : EqDecision ErrorCode.
Proof. solve_decision. Defined.

(** What a [throw] can carry: a [CLIError] with its code and message, or
    an error of the host runtime (a Node.js [ErrnoException]) with its
    [code] property and message. *)
Inductive exn :=
| CLIError (code : ErrorCode) (message : string)
| NodeError (errno : string) (message : string).

#[global] Instance exn_eq_dec : EqDecision exn.
Proof. solve_decision. Defined.

Definition EXIT_CODE_MAP (c : ErrorCode) : nat :=
  match c with
  | VALIDATION_ERROR => 2
  | DOCS_REQUIRED => 2
  | IDENTITY_REQUIRED => 3
  | RATE_LIMITED => 4
  | NOT_FOUND => 5
  | NETWORK_ERROR => 6
  | PARSE_ERROR => 7
  | INTERNAL_ERROR => 10
  end.

(** [error instanceof CLIError && error.code === c] *)
Definition isCLIErrorWith (c : ErrorCode) (e : exn) : bool :=
  match e with
  | CLIError c' _ => bool_decide (c' = c)
  | NodeError _ _ => false
  end.

Definition exn_message (e : exn) : string :=
  match e with
  | CLIError _ m => m
  | NodeError _ m => m
  end.

Inductive result (A : Type) :=
| Ok (a : A)
| Err (e : exn).
Arguments Ok {A} a.
Arguments Err {A} e.

(** Sequencing: an exception thrown by [r] propagates. *)
#[global] Instance result_ret : MRet result := fun A a => Ok a.
#[global] Instance result_bind : MBind result := fun A B k r =>
  match r with
  | Ok a => k a
  | Err e => Err e
  end.

Definition is_ok {A} (r : result A) : bool :=
  match r with Ok _ => true | Err _ => false end.

End Errors.
Export Errors.

(* ===================================================================== *)
(** ** JavaScript string primitives used by the module *)
(* ===================================================================== *)

Module JsString.

Definition code (c : ascii) : nat := nat_of_ascii c.

Definition between (lo hi : nat) (c : ascii) : bool :=
  (lo <=? code c) && (code c <=? hi).

(** [String.prototype.toLowerCase], per code unit: [A-Z] and the Latin-1
    capitals U+00C0..U+00DE (without U+00D7) move up by 32. *)
Definition lower_char (c : ascii) : ascii :=
  if between 65 90 c then ascii_of_nat (code c + 32)
  else if between 192 222 c && negb (code c =? 215) then ascii_of_nat (code c + 32)
  else c.

Fixpoint toLowerCase (s : string) : string :=
  match s with
  | EmptyString => EmptyString
  | String c s' => String (lower_char c) (toLowerCase s')
  end.

(** The class [[a-z0-9]]. *)
Definition is_alnum (c : ascii) : bool :=
  between 97 122 c || between 48 57 c.

Definition is_digit (c : ascii) : bool := between 48 57 c.

(** White space and line terminators stripped by [trim]:
    TAB, LF, VT, FF, CR, SP, NBSP. *)
Definition is_space (c : ascii) : bool :=
  between 9 13 c || (code c =? 32) || (code c =? 160).

Fixpoint trimStart (s : string) : string :=
  match s with
  | EmptyString => EmptyString
  | String c s' => if is_space c then trimStart s' else s
  end.

(** [trimEnd s]: drop the white space that is followed by nothing but
    white space. *)
Fixpoint trimEnd (s : string) : string :=
  match s with
  | EmptyString => EmptyString
  | String c s' =>
      match trimEnd s' with
      | EmptyString => if is_space c then EmptyString else String c EmptyString
      | t => String c t
      end
  end.

Definition trim (s : string) : string := trimEnd (trimStart s).

(** A blank string: nothing but white space. *)
Fixpoint all_space (s : string) : bool :=
  match s with
  | EmptyString => true
  | String c s' => is_space c && all_space s'
  end.

(** [lines.join(sep)] *)
Fixpoint join (sep : string) (l : list string) : string :=
  match l with
  | [] => EmptyString
  | [x] => x
  | x :: rest => x +:+ sep +:+ join sep rest
  end.

(** [s.split(/\r?\n/)], with [cur] the characters of the current piece. *)
Fixpoint split_lines_from (cur : string) (s : string) : list string :=
  match s with
  | EmptyString => [cur]
  | String c s' =>
      if Ascii.eqb c "010"%char then cur :: split_lines_from EmptyString s'
      else
        match s' with
        | String c' s'' =>
            if Ascii.eqb c "013"%char && Ascii.eqb c' "010"%char
            then cur :: split_lines_from EmptyString s''
            else split_lines_from (cur +:+ String c EmptyString) s'
        | EmptyString => split_lines_from (cur +:+ String c EmptyString) s'
        end
  end.

Definition split_lines (s : string) : list string :=
  split_lines_from EmptyString s.

(** [text.includes(needle)] *)
Fixpoint includes (needle : string) (text : string) : bool :=
  String.prefix needle text ||
  match text with
  | EmptyString => false
  | String _ text' => includes needle text'
  end.

(** [lines.slice(start, endExclusive)] for [0 <= start], [0 <= endExclusive]. *)
Definition slice {A} (start endExclusive : nat) (l : list A) : list A :=
  take (endExclusive - start) (drop start l).

End JsString.
Import JsString.

(* ===================================================================== *)
(** ** Chunking engine *)
(* ===================================================================== *)

Module Chunking.

(** The maximal runs of [[a-z0-9]] of [s], left to right: what
    [s.match(/[a-z0-9]+/g) ?? []] returns.  [cur] is the run being read. *)
Fixpoint alnum_runs_from (cur : string) (s : string) : list string :=
  match s with
  | EmptyString => if String.length cur =? 0 then [] else [cur]
  | String c s' =>
      if is_alnum c then alnum_runs_from (cur +:+ String c EmptyString) s'
      else if String.length cur =? 0 then alnum_runs_from EmptyString s'
      else cur :: alnum_runs_from EmptyString s'
  end.

Definition tokenize (value : string) : list string :=
  filter (fun token => 2 <= String.length token)
         (alnum_runs_from EmptyString (toLowerCase value)).

Definition get (frequency : gmap string nat) (token : string) : nat :=
  default 0 (frequency !! token).

(** The [for (const token of tokens)] loop over a map that starts empty. *)
Definition buildTermFrequency (tokens : list string) : gmap string nat :=
  foldl (fun frequency token => <[token := get frequency token + 1]> frequency)
        ∅ tokens.

(** [/\d{10}-\d{2}-\d{6}/]: does the pattern match at the start of [s]? *)
Fixpoint digits_then (n : nat) (k : string -> bool) (s : string) : bool :=
  match n with
  | 0 => k s
  | S n' =>
      match s with
      | String c s' => is_digit c && digits_then n' k s'
      | EmptyString => false
      end
  end.

Definition dash_then (k : string -> bool) (s : string) : bool :=
  match s with
  | String c s' => Ascii.eqb c "-"%char && k s'
  | EmptyString => false
  end.

Definition accession_at (s : string) : bool :=
  digits_then 10 (dash_then (digits_then 2 (dash_then (digits_then 6 (fun _ => true))))) s.

(** [docPath.match(...)?.[0] ?? null]: the leftmost match, 20 characters. *)
Fixpoint extractAccession (docPath : string) : option string :=
  if accession_at docPath then Some (String.substring 0 20 docPath)
  else
    match docPath with
    | EmptyString => None
    | String _ rest => extractAccession rest
    end.

Record Chunk := mkChunk {
  docPath : string;
  accession : option string;
  lineStart : nat;
  lineEnd : nat;
  text : string;
  tokenCount : nat;
  termFrequency : gmap string nat
}.

Record ChunkParams := mkChunkParams {
  p_docPath : string;
  p_content : string;
  p_chunkLines : nat;
  p_chunkOverlap : nat
}.

Section Loop.
Variable path : string.
Variable acc : option string.
Variable lines : list string.
Variable chunkLines : nat.
Variable chunkOverlap : nat.

(** [Math.max(1, params.chunkLines - params.chunkOverlap)] *)
Definition step : nat := Nat.max 1 (chunkLines - chunkOverlap).

Definition window_end (start : nat) : nat :=
  Nat.min (length lines) (start + chunkLines).

Definition window_text (start : nat) : string :=
  trim (join (String "010"%char EmptyString) (slice start (window_end start) lines)).

Definition chunk_at (start : nat) : Chunk :=
  let tokens := tokenize (window_text start) in
  {| docPath := path;
     accession := acc;
     lineStart := start + 1;
     lineEnd := window_end start;
     text := window_text start;
     tokenCount := length tokens;
     termFrequency := buildTermFrequency tokens |}.

(** The [for (let lineIdx = ...; lineIdx < lines.length; lineIdx += step)]
    loop, from [lineIdx] on; the chunks pushed from there, in order. *)
Equations? chunk_loop (lineIdx : nat) : list Chunk
  by wf (length lines - lineIdx) lt :=
  chunk_loop lineIdx with decide (lineIdx < length lines) := {
    | right _ => []
    | left Hlt =>
        if String.length (window_text lineIdx) =? 0 then
          if length lines <=? window_end lineIdx then []
          else chunk_loop (lineIdx + step)
        else
          chunk_at lineIdx ::
            (if length lines <=? window_end lineIdx then []
             else chunk_loop (lineIdx + step))
  }.
Proof.
  all: unfold step; lia.
Defined.

End Loop.

Definition chunkDocument (params : ChunkParams) : list Chunk :=
  let lines := split_lines (p_content params) in
  let accession := extractAccession (p_docPath params) in
  chunk_loop (p_docPath params) accession lines
             (p_chunkLines params) (p_chunkOverlap params) 0.

End Chunking.
Import Chunking.

(* ===================================================================== *)
(** ** Real-number comparisons as decidable propositions *)
(* ===================================================================== *)

#[global] Instance Rlt_decision (x y : R) : Decision (x < y)%R := Rlt_dec x y.
#[global] Instance Rle_decision (x y : R) : Decision (x <= y)%R := Rle_dec x y.
#[global] Instance Req_decision : EqDecision R := Req_dec_T.

(* ===================================================================== *)
(** ** [Array.prototype.sort] *)
(* ===================================================================== *)

Module JsArray.

Section Sort.
Context {A : Type}.

(** [keeps a b] says that the comparator does not ask for [b] before
    [a]: [comparator(a, b) <= 0]. *)
Variable keeps : A -> A -> bool.

(** The sort is stable (ECMAScript 2019), and a stable sort by a
    consistent comparator has one result, so it is given as the stable
    insertion sort: an element goes before the first element of the
    sorted rest that the comparator does not put before it. *)
Fixpoint insert_sorted (x : A) (l : list A) : list A :=
  match l with
  | [] => [x]
  | y :: l' => if keeps x y then x :: y :: l' else y :: insert_sorted x l'
  end.

Definition sort (l : list A) : list A := foldr insert_sorted [] l.

End Sort.

End JsArray.

(* ===================================================================== *)
(** ** A view of the file system *)
(* ===================================================================== *)

Module Fs.

(** What a path names.  [NoAccess] stands for an entry on which [stat]
    and every other call fail with an error other than [ENOENT]. *)
Inductive node :=
| File (content : string)
| Directory
| NoAccess.

(** A path that is not in the map does not exist ([ENOENT]). *)
Abbreviation fs := (gmap string node).

Definition ENOENT (p : string) : exn :=
  NodeError "ENOENT" ("ENOENT: no such file or directory, " +:+ p).
Definition EACCES (p : string) : exn :=
  NodeError "EACCES" ("EACCES: permission denied, " +:+ p).
Definition EISDIR (p : string) : exn :=
  NodeError "EISDIR" ("EISDIR: illegal operation on a directory, " +:+ p).
Definition EEXIST (p : string) : exn :=
  NodeError "EEXIST" ("EEXIST: file already exists, " +:+ p).

Definition errno (e : exn) : string :=
  match e with
  | NodeError c _ => c
  | CLIError _ _ => EmptyString
  end.

(** [stat(p)], reduced to [isFile()]. *)
Definition stat_isFile (σ : fs) (p : string) : result bool :=
  match σ !! p with
  | None => Err (ENOENT p)
  | Some (File _) => Ok true
  | Some Directory => Ok false
  | Some NoAccess => Err (EACCES p)
  end.

(** [readFile(p, 'utf8')] *)
Definition readFile (σ : fs) (p : string) : result string :=
  match σ !! p with
  | None => Err (ENOENT p)
  | Some (File c) => Ok c
  | Some Directory => Err (EISDIR p)
  | Some NoAccess => Err (EACCES p)
  end.

(** [writeFile(p, content, 'utf8')]: creates or replaces a regular file. *)
Definition writeFile (σ : fs) (p : string) (content : string) : result fs :=
  match σ !! p with
  | Some Directory => Err (EISDIR p)
  | Some NoAccess => Err (EACCES p)
  | _ => Ok (<[p := File content]> σ)
  end.

(** [mkdir(d, { recursive: true })]: succeeds on an existing directory. *)
Definition mkdir_recursive (σ : fs) (d : string) : result fs :=
  match σ !! d with
  | Some (File _) => Err (EEXIST d)
  | Some NoAccess => Err (EACCES d)
  | Some Directory => Ok σ
  | None => Ok (<[d := Directory]> σ)
  end.

End Fs.
Import Fs.

(* ===================================================================== *)
(** ** Lexical ranking engine *)
(* ===================================================================== *)

Module Ranking.

Definition QUERY_STOPWORDS : gset string :=
  list_to_set
    ["a"; "an"; "and"; "are"; "as"; "at"; "be"; "by"; "for"; "from"; "how";
     "in"; "into"; "is"; "it"; "its"; "of"; "on"; "or"; "that"; "the";
     "their"; "there"; "these"; "they"; "this"; "to"; "was"; "were"; "what";
     "when"; "where"; "which"; "who"; "why"; "with"].

(** The five case-insensitive patterns; each is a literal, given here in
    lower case. *)
Definition COVER_BOILERPLATE_PATTERNS : list string :=
  ["securities registered pursuant to section 12(b)";
   "indicate by check mark";
   "commission file number";
   "for the quarterly period ended";
   "for the fiscal year ended"].

(** [[...new Set(tokens)]]: first occurrences, in order. *)
Fixpoint uniqueTokens_from (seen : gset string) (tokens : list string) : list string :=
  match tokens with
  | [] => []
  | t :: rest =>
      if decide (t ∈ seen) then uniqueTokens_from seen rest
      else t :: uniqueTokens_from ({[t]} ∪ seen) rest
  end.

Definition uniqueTokens (tokens : list string) : list string :=
  uniqueTokens_from ∅ tokens.

Definition buildQueryTerms (query : string) : list string :=
  let rawTokens := tokenize query in
  let filtered := filter (fun token => token ∉ QUERY_STOPWORDS) rawTokens in
  let terms := if 0 <? length filtered then filtered else rawTokens in
  uniqueTokens terms.

Fixpoint adjacent_pairs (queryTerms : list string) : list string :=
  match queryTerms with
  | a :: ((b :: _) as rest) => (a +:+ " " +:+ b) :: adjacent_pairs rest
  | _ => []
  end.

Definition buildQueryBigrams (queryTerms : list string) : list string :=
  uniqueTokens (adjacent_pairs queryTerms).

Definition countTermHits (queryTerms : list string) (termFrequency : gmap string nat) : nat :=
  foldl (fun hits term => hits + (if 0 <? get termFrequency term then 1 else 0))
        0 queryTerms.

Definition countBigramHits (chunkText : string) (queryBigrams : list string) : nat :=
  if length queryBigrams =? 0 then 0
  else
    let text := toLowerCase chunkText in
    foldl (fun hits bigram => hits + (if includes bigram text then 1 else 0))
          0 queryBigrams.

Definition looksLikeCoverBoilerplate (chunk : Chunk) : bool :=
  if 140 <? lineStart chunk then false
  else existsb (fun pattern => includes pattern (toLowerCase (text chunk)))
               COVER_BOILERPLATE_PATTERNS.

Local Open Scope R_scope.

Record Bm25Params := mkBm25Params {
  bm_queryTerms : list string;
  bm_chunk : Chunk;
  bm_docFrequencyByTerm : gmap string nat;
  bm_totalChunkCount : nat;
  bm_averageChunkLength : R
}.

Definition k1 : R := 1.2.
Definition b : R := 0.75.

(** The callback of the [reduce] in [bm25Score]. *)
Definition bm25_step (params : Bm25Params) (score : R) (term : string) : R :=
  let tf := get (termFrequency (bm_chunk params)) term in
  if (tf =? 0)%nat then score
  else
    let df := get (bm_docFrequencyByTerm params) term in
    let idf := ln (1 + (INR (bm_totalChunkCount params) - INR df + 0.5) / (INR df + 0.5)) in
    let normalizedLength :=
      if decide (0 < bm_averageChunkLength params)
      then INR (tokenCount (bm_chunk params)) / bm_averageChunkLength params
      else 1 in
    let denominator := INR tf + k1 * (1 - b + b * normalizedLength) in
    let termScore := idf * ((INR tf * (k1 + 1)) / denominator) in
    score + termScore.

Definition bm25Score (params : Bm25Params) : R :=
  foldl (bm25_step params) 0 (bm_queryTerms params).

Record AdjustParams := mkAdjustParams {
  adj_chunk : Chunk;
  adj_baseScore : R;
  adj_queryTerms : list string;
  adj_queryBigrams : list string
}.

Definition adjustedChunkScore (params : AdjustParams) : R :=
  if decide (adj_baseScore params <= 0) then 0
  else
    let termHits := countTermHits (adj_queryTerms params) (termFrequency (adj_chunk params)) in
    let nTerms := length (adj_queryTerms params) in
    if (3 <=? nTerms)%nat && (termHits <? 2)%nat then 0
    else
      let coverage := INR termHits / INR (Nat.max 1 nTerms) in
      let bigramHits := countBigramHits (text (adj_chunk params)) (adj_queryBigrams params) in
      let m1 :=
        if decide (1 <= coverage) then 1 * 1.25
        else if decide (0.7 <= coverage) then 1 * 1.15
        else if decide (0.5 <= coverage) then 1 * 1.08
        else if (3 <=? nTerms)%nat && bool_decide (coverage <= 0.25) then 1 * 0.8
        else 1 in
      let m2 :=
        if (0 <? bigramHits)%nat then m1 * (1 + Rmin 0.24 (INR bigramHits * 0.08))
        else m1 in
      let multiplier :=
        if looksLikeCoverBoilerplate (adj_chunk params) then m2 * 0.45 else m2 in
      adj_baseScore params * multiplier.

Record Scored := mkScored {
  sc_chunk : Chunk;
  sc_score : R
}.

(** The comparator [(a, b) => b.score - a.score], as [comparator(a, b) <= 0]. *)
Definition by_score_desc (a b : Scored) : bool :=
  bool_decide (sc_score b - sc_score a <= 0).

(** The document-frequency loop: one entry per query term. *)
Definition docFrequency (queryTerms : list string) (allChunks : list Chunk) : gmap string nat :=
  foldl (fun m term =>
           <[term := foldl (fun count chunk =>
                              if (0 <? get (termFrequency chunk) term)%nat
                              then (count + 1)%nat else count)
                           0%nat allChunks]> m)
        ∅ queryTerms.

Definition averageLength (allChunks : list Chunk) : R :=
  INR (foldl (fun sum chunk => (sum + tokenCount chunk)%nat) 0%nat allChunks)
  / INR (Nat.max (length allChunks) 1).

(** [allChunks.map(...)]: every chunk with its adjusted score. *)
Definition scoreChunks (queryTerms queryBigrams : list string)
           (allChunks : list Chunk) : list Scored :=
  let docFrequencyByTerm := docFrequency queryTerms allChunks in
  let averageChunkLength := averageLength allChunks in
  map (fun chunk =>
         let baseScore :=
           bm25Score {| bm_queryTerms := queryTerms;
                        bm_chunk := chunk;
                        bm_docFrequencyByTerm := docFrequencyByTerm;
                        bm_totalChunkCount := length allChunks;
                        bm_averageChunkLength := averageChunkLength |} in
         {| sc_chunk := chunk;
            sc_score := adjustedChunkScore
                          {| adj_chunk := chunk;
                             adj_baseScore := baseScore;
                             adj_queryTerms := queryTerms;
                             adj_queryBigrams := queryBigrams |} |})
      allChunks.

(** [.filter((item) => item.score > 0).sort(...).slice(0, params.topK)] *)
Definition rankScored (topK : nat) (scored : list Scored) : list Scored :=
  take topK (JsArray.sort by_score_desc (filter (fun item => 0 < sc_score item) scored)).

(** [Number(x.toFixed(6))]: the multiple of one millionth that is nearest
    to [x], the one of greater magnitude where two are equally near; from
    [10^21] on [toFixed] prints the number itself. *)
Definition toFixed6 (x : R) : R :=
  if decide (10 ^ 21 <= Rabs x) then x
  else if decide (x < 0) then - (IZR (Int_part (- x * 1000000 + / 2)) / 1000000)
  else IZR (Int_part (x * 1000000 + / 2)) / 1000000.

Local Close Scope R_scope.

Definition ensureReadableTextFile (σ : fs) (filePath : string) : result string :=
  match stat_isFile σ filePath with
  | Err e =>
      if String.eqb (errno e) "ENOENT"
      then Err (CLIError NOT_FOUND ("Document not found: " +:+ filePath))
      else Err (CLIError VALIDATION_ERROR
                  ("Unable to stat document " +:+ filePath +:+ ": " +:+ exn_message e))
  | Ok false => Err (CLIError VALIDATION_ERROR ("Path is not a file: " +:+ filePath))
  | Ok true =>
      match readFile σ filePath with
      | Err e =>
          Err (CLIError VALIDATION_ERROR
                 ("Unable to read document " +:+ filePath +:+ ": " +:+ exn_message e))
      | Ok content =>
          if includes (String "000"%char EmptyString) content
          then Err (CLIError VALIDATION_ERROR ("File appears to be binary: " +:+ filePath))
          else Ok content
      end
  end.

(** [Buffer.byteLength(content, 'utf8')]: two bytes from U+0080 on. *)
Fixpoint byteLength (s : string) : nat :=
  match s with
  | EmptyString => 0
  | String c s' => (if code c <? 128 then 1 else 2) + byteLength s'
  end.

Record Doc := mkDoc {
  d_path : string;
  d_bytes : nat;
  d_lineCount : nat;
  d_chunks : list Chunk
}.

Record SearchParams := mkSearchParams {
  s_query : string;
  s_docPaths : list string;
  s_topK : nat;
  s_chunkLines : nat;
  s_chunkOverlap : nat
}.

(** One entry of [results]; [excerpt] is left out. *)
Record ResultRow := mkResultRow {
  r_rank : nat;
  r_score : R;
  r_path : string;
  r_accession : option string;
  r_line_start : nat;
  r_line_end : nat
}.

(** The [data] of the result; [query_terms] and [chunk_count] are absent
    from the payload returned for an empty candidate set. *)
Record SearchData := mkSearchData {
  sd_query : string;
  sd_query_terms : option (list string);
  sd_docs : list (string * nat * nat);
  sd_chunk_count : option nat;
  sd_result_count : nat;
  sd_results : list ResultRow
}.

Definition doc_summary (doc : Doc) : string * nat * nat :=
  (d_path doc, d_bytes doc, d_lineCount doc).

(** The documents of [Promise.all(params.docPaths.map(...))]; they are read
    in list order here, and the first failure is the one reported. *)
Definition loadDocs (σ : fs) (params : SearchParams) : result (list Doc) :=
  mapM (fun docPath =>
          content ← ensureReadableTextFile σ docPath;
          mret {| d_path := docPath;
                  d_bytes := byteLength content;
                  d_lineCount := length (split_lines content);
                  d_chunks := chunkDocument
                                {| p_docPath := docPath;
                                   p_content := content;
                                   p_chunkLines := s_chunkLines params;
                                   p_chunkOverlap := s_chunkOverlap params |} |})
       (s_docPaths params).

Definition toRow (idx : nat) (item : Scored) : ResultRow :=
  {| r_rank := idx + 1;
     r_score := toFixed6 (sc_score item);
     r_path := docPath (sc_chunk item);
     r_accession := accession (sc_chunk item);
     r_line_start := lineStart (sc_chunk item);
     r_line_end := lineEnd (sc_chunk item) |}.

Definition runLexicalSearch (σ : fs) (params : SearchParams) : result SearchData :=
  let query := trim (s_query params) in
  if String.length query =? 0
  then Err (CLIError VALIDATION_ERROR "Query must not be empty")
  else if s_chunkLines params <=? s_chunkOverlap params
  then Err (CLIError VALIDATION_ERROR "--chunk-overlap must be less than --chunk-lines")
  else
    docs ← loadDocs σ params;
    let allChunks := flat_map d_chunks docs in
    if length allChunks =? 0
    then Ok {| sd_query := query;
               sd_query_terms := None;
               sd_docs := map doc_summary docs;
               sd_chunk_count := None;
               sd_result_count := 0;
               sd_results := [] |}
    else
      let queryTerms := buildQueryTerms query in
      if length queryTerms =? 0
      then Err (CLIError VALIDATION_ERROR
                  "Query must contain at least one alphanumeric token")
      else
        let queryBigrams := buildQueryBigrams queryTerms in
        let scored :=
          rankScored (s_topK params) (scoreChunks queryTerms queryBigrams allChunks) in
        Ok {| sd_query := query;
              sd_query_terms := Some queryTerms;
              sd_docs := map doc_summary docs;
              sd_chunk_count := Some (length allChunks);
              sd_result_count := length scored;
              sd_results := imap toRow scored |}.

(** *** The scores as the engine computes them

    [bm25Score] and [adjustedChunkScore] give the exact value of the
    expressions of the source.  The engine evaluates them in IEEE doubles,
    every operation rounded, and what it filters, sorts and prints is the
    rounded score: two chunks of equal exact score can get doubles that
    differ, and then the sort orders them by these.  A double is a real
    number, and doubles are compared as real numbers are, so the search is
    given here for any score that the arithmetic may have produced:
    [computed queryTerms queryBigrams allChunks chunk] stands for the
    adjusted score of [chunk] in a query evaluation. *)

Section Computed.
Variable computed : list string -> list string -> list Chunk -> Chunk -> R.

Definition scoreChunks_computed (queryTerms queryBigrams : list string)
           (allChunks : list Chunk) : list Scored :=
  map (fun chunk =>
         {| sc_chunk := chunk;
            sc_score := computed queryTerms queryBigrams allChunks chunk |})
      allChunks.

Definition runLexicalSearch_computed (σ : fs) (params : SearchParams) : result SearchData :=
  let query := trim (s_query params) in
  if String.length query =? 0
  then Err (CLIError VALIDATION_ERROR "Query must not be empty")
  else if s_chunkLines params <=? s_chunkOverlap params
  then Err (CLIError VALIDATION_ERROR "--chunk-overlap must be less than --chunk-lines")
  else
    docs ← loadDocs σ params;
    let allChunks := flat_map d_chunks docs in
    if length allChunks =? 0
    then Ok {| sd_query := query;
               sd_query_terms := None;
               sd_docs := map doc_summary docs;
               sd_chunk_count := None;
               sd_result_count := 0;
               sd_results := [] |}
    else
      let queryTerms := buildQueryTerms query in
      if length queryTerms =? 0
      then Err (CLIError VALIDATION_ERROR
                  "Query must contain at least one alphanumeric token")
      else
        let queryBigrams := buildQueryBigrams queryTerms in
        let scored :=
          rankScored (s_topK params)
                     (scoreChunks_computed queryTerms queryBigrams allChunks) in
        Ok {| sd_query := query;
              sd_query_terms := Some queryTerms;
              sd_docs := map doc_summary docs;
              sd_chunk_count := Some (length allChunks);
              sd_result_count := length scored;
              sd_results := imap toRow scored |}.

End Computed.

(** The exact value of the adjusted score of a chunk in a query
    evaluation: with it, [runLexicalSearch_computed] is [runLexicalSearch]. *)
Definition exact_score (queryTerms queryBigrams : list string) (allChunks : list Chunk)
           (chunk : Chunk) : R :=
  adjustedChunkScore
    {| adj_chunk := chunk;
       adj_baseScore :=
         bm25Score {| bm_queryTerms := queryTerms;
                      bm_chunk := chunk;
                      bm_docFrequencyByTerm := docFrequency queryTerms allChunks;
                      bm_totalChunkCount := length allChunks;
                      bm_averageChunkLength := averageLength allChunks |};
       adj_queryTerms := queryTerms;
       adj_queryBigrams := queryBigrams |}.

End Ranking.
Import Ranking.

(* ===================================================================== *)
(** ** The BM25 score in double precision *)
(* ===================================================================== *)

(** [bm25Score] as the engine evaluates it: every JavaScript number is an
    IEEE 754 double ([float], the binary64 numbers of the kernel, with
    round-to-nearest-even operations), the counts too.  [Math.log] is not
    fixed by the language to the last bit; it is a parameter. *)
Module Doubles.
Import Floats.
#[local] Set Warnings "-inexact-float".
Local Open Scope float_scope.

(** What [bm25Score] reads of a chunk. *)
Record Chunk64 := mkChunk64 {
  termFrequency64 : gmap string float;
  tokenCount64 : float
}.

Record Bm25Params64 := mkBm25Params64 {
  bm64_queryTerms : list string;
  bm64_chunk : Chunk64;
  bm64_docFrequencyByTerm : gmap string float;
  bm64_totalChunkCount : float;
  bm64_averageChunkLength : float
}.

(** [frequency.get(token) ?? 0] *)
Definition get64 (frequency : gmap string float) (token : string) : float :=
  default 0 (frequency !! token).

Definition k1 : float := 1.2.
Definition b : float := 0.75.

Section Log.
Variable Math_log : float -> float.

Definition bm25_step (params : Bm25Params64) (score : float) (term : string) : float :=
  let tf := get64 (termFrequency64 (bm64_chunk params)) term in
  if tf =? 0 then score
  else
    let df := get64 (bm64_docFrequencyByTerm params) term in
    let idf := Math_log (1 + (bm64_totalChunkCount params - df + 0.5) / (df + 0.5)) in
    let normalizedLength :=
      if 0 <? bm64_averageChunkLength params
      then tokenCount64 (bm64_chunk params) / bm64_averageChunkLength params
      else 1 in
    let denominator := tf + k1 * (1 - b + b * normalizedLength) in
    let termScore := idf * ((tf * (k1 + 1)) / denominator) in
    score + termScore.

Definition bm25Score (params : Bm25Params64) : float :=
  foldl (bm25_step params) 0 (bm64_queryTerms params).

End Log.

End Doubles.

(* ===================================================================== *)
(** ** JSON values, [JSON.stringify(value, null, 2)] and [JSON.parse] *)
(* ===================================================================== *)

Module Json.

(** A JSON value.  [JNum n] is the number that an integer literal denotes
    (the version tag of a manifest is one); [JDec m e] is the number that a
    literal with a fraction or an exponent denotes, [m * 10^e], before it is
    rounded to a double.  The members of an object are listed in
    enumeration order. *)
Local Unset Elimination Schemes.
Inductive json :=
| JNull
| JBool (b : bool)
| JNum (n : Z)
| JDec (m e : Z)
| JStr (s : string)
| JArr (items : list json)
| JObj (members : list (string * json)).
Local Set Elimination Schemes.

(** Whether the double nearest to [m * 10^e] is zero: the numbers up to
    [2^-1075], half of the least positive double, are rounded to zero. *)
Definition rounds_to_zero (m e : Z) : bool :=
  ((m =? 0) || ((e <? 0) && (Z.abs m * 2 ^ 1075 <=? 10 ^ (- e))))%Z.

(** Whether the double nearest to [m * 10^e] is 1: the numbers from
    [1 - 2^-54] to [1 + 2^-53] are rounded to 1. *)
Definition rounds_to_one (m e : Z) : bool :=
  (if e <? 0
   then ((2 ^ 54 - 1) * 10 ^ (- e) <=? m * 2 ^ 54)
        && (m * 2 ^ 53 <=? (2 ^ 53 + 1) * 10 ^ (- e))
   else m * 10 ^ e =? 1)%Z.

(** Own property [key] of a parsed object; where the text repeats a key the
    later member is the one kept. *)
Fixpoint lookup_last (key : string) (members : list (string * json)) : option json :=
  match members with
  | [] => None
  | (k, v) :: rest =>
      match lookup_last key rest with
      | Some v' => Some v'
      | None => if String.eqb k key then Some v else None
      end
  end.

(** [value.key] for one of the keys read by this module ([version], [cik],
    [docs], [path], [accession], ...): [None] is [undefined]. *)
Definition prop (value : json) (key : string) : option json :=
  match value with
  | JObj members => lookup_last key members
  | _ => None
  end.

(** [!value] is [negb (truthy value)]. *)
Definition truthy (value : json) : bool :=
  match value with
  | JNull => false
  | JBool b => b
  | JNum n => negb (n =? 0)%Z
  | JDec m e => negb (rounds_to_zero m e)
  | JStr s => negb (String.length s =? 0)
  | JArr _ | JObj _ => true
  end.

(** [typeof value === 'object'] *)
Definition typeof_object (value : json) : bool :=
  match value with
  | JNull | JArr _ | JObj _ => true
  | _ => false
  end.

(** [typeof x === 'string'] for a property that may be [undefined]. *)
Definition typeof_string (x : option json) : bool :=
  match x with
  | Some (JStr _) => true
  | _ => false
  end.

(** [x === 1] for a property that may be [undefined]. *)
Definition is_one (x : option json) : bool :=
  match x with
  | Some (JNum n) => (n =? 1)%Z
  | Some (JDec m e) => rounds_to_one m e
  | _ => false
  end.

(** The values whose numbers are all given by integer literals. *)
Fixpoint integers_only (value : json) : bool :=
  match value with
  | JDec _ _ => false
  | JArr items => forallb integers_only items
  | JObj members => forallb (fun member => integers_only (snd member)) members
  | _ => true
  end.

Definition DQ : string := String "034"%char EmptyString.
Definition NL : string := String "010"%char EmptyString.

(** *** Printing *)

Definition hex_digit (n : nat) : ascii :=
  if n <? 10 then ascii_of_nat (48 + n) else ascii_of_nat (87 + n).

Definition quote_char (c : ascii) : string :=
  let n := code c in
  if n =? 34 then "\" +:+ DQ
  else if n =? 92 then "\\"
  else if n =? 8 then "\b"
  else if n =? 9 then "\t"
  else if n =? 10 then "\n"
  else if n =? 12 then "\f"
  else if n =? 13 then "\r"
  else if n <? 32
       then "\u00" +:+ String (hex_digit (n / 16)) (String (hex_digit (n mod 16)) EmptyString)
  else String c EmptyString.

Fixpoint quote_body (s : string) : string :=
  match s with
  | EmptyString => EmptyString
  | String c s' => quote_char c +:+ quote_body s'
  end.

Definition quote (s : string) : string := DQ +:+ quote_body s +:+ DQ.

Definition number_to_string (n : Z) : string :=
  NilZero.string_of_int (Z.to_int n).

(** [indent] is the indentation of the line on which the value starts.
    The numbers that this module prints are integers (the version tag); a
    number with a fraction or an exponent is given in the form [<m>e<e>],
    which [JSON.parse] reads as the same number, not in the shortest form
    that [JSON.stringify] would choose for its double. *)
Fixpoint stringify_at (indent : string) (value : json) : string :=
  match value with
  | JNull => "null"
  | JBool true => "true"
  | JBool false => "false"
  | JNum n => number_to_string n
  | JDec m e => number_to_string m +:+ "e" +:+ number_to_string e
  | JStr s => quote s
  | JArr [] => "[]"
  | JArr items =>
      let inner := indent +:+ "  " in
      "[" +:+ NL +:+ inner
      +:+ join ("," +:+ NL +:+ inner) (map (stringify_at inner) items)
      +:+ NL +:+ indent +:+ "]"
  | JObj [] => "{}"
  | JObj members =>
      let inner := indent +:+ "  " in
      "{" +:+ NL +:+ inner
      +:+ join ("," +:+ NL +:+ inner)
               (map (fun member => quote (fst member) +:+ ": "
                                   +:+ stringify_at inner (snd member))
                    members)
      +:+ NL +:+ indent +:+ "}"
  end.

(** [JSON.stringify(value, null, 2)] *)
Definition JSON_stringify (value : json) : string := stringify_at EmptyString value.

(** *** Parsing *)

Definition is_ws (c : ascii) : bool :=
  (code c =? 32) || (code c =? 9) || (code c =? 10) || (code c =? 13).

Fixpoint skip_ws (s : string) : string :=
  match s with
  | EmptyString => EmptyString
  | String c s' => if is_ws c then skip_ws s' else s
  end.

Definition hex_value (c : ascii) : option nat :=
  if between 48 57 c then Some (code c - 48)
  else if between 97 102 c then Some (code c - 87)
  else if between 65 70 c then Some (code c - 55)
  else None.

(** The characters of a string literal after its opening quote, and the
    text after its closing quote.  A [\u] escape beyond U+00FF has no code
    unit in this model and is refused: see [wide_escape]. *)
Fixpoint parse_string_body (s : string) : option (string * string) :=
  match s with
  | EmptyString => None
  | String c s' =>
      if code c =? 34 then Some (EmptyString, s')
      else if code c =? 92 then
        match s' with
        | EmptyString => None
        | String e s'' =>
            let plain (c' : ascii) :=
              '(str, rest) ← parse_string_body s''; Some (String c' str, rest) in
            if code e =? 34 then plain "034"%char
            else if code e =? 92 then plain "\"%char
            else if code e =? 47 then plain "/"%char
            else if code e =? 98 then plain "008"%char
            else if code e =? 102 then plain "012"%char
            else if code e =? 110 then plain "010"%char
            else if code e =? 114 then plain "013"%char
            else if code e =? 116 then plain "009"%char
            else if code e =? 117 then
              match s'' with
              | String h1 (String h2 (String h3 (String h4 s5))) =>
                  a ← hex_value h1; b ← hex_value h2;
                  c ← hex_value h3; d ← hex_value h4;
                  if (a =? 0) && (b =? 0) then
                    '(str, rest) ← parse_string_body s5;
                    Some (String (ascii_of_nat (16 * c + d)) str, rest)
                  else None
              | _ => None
              end
            else None
        end
      else if code c <? 32 then None
      else '(str, rest) ← parse_string_body s'; Some (String c str, rest)
  end.

Definition is_number_char (c : ascii) : bool := is_digit c || (code c =? 45).

Fixpoint span_number (s : string) : string * string :=
  match s with
  | EmptyString => (EmptyString, EmptyString)
  | String c s' =>
      if is_number_char c
      then let '(tok, rest) := span_number s' in (String c tok, rest)
      else (EmptyString, s)
  end.

(** The digits at the start of a text, and what follows them. *)
Fixpoint span_digits (s : string) : string * string :=
  match s with
  | EmptyString => (EmptyString, EmptyString)
  | String c s' =>
      if is_digit c
      then let '(digits, rest) := span_digits s' in (String c digits, rest)
      else (EmptyString, s)
  end.

(** The number that a string of decimal digits denotes. *)
Fixpoint digits_value (acc : Z) (digits : string) : Z :=
  match digits with
  | EmptyString => acc
  | String c rest => digits_value (10 * acc + Z.of_nat (code c - 48)) rest
  end.

(** The fraction of a number, if the text starts with one: a point and at
    least one digit. *)
Definition parse_fraction (s : string) : option (string * string) :=
  match s with
  | String c s' =>
      if code c =? 46 then
        let '(digits, rest) := span_digits s' in
        if String.length digits =? 0 then None else Some (digits, rest)
      else Some (EmptyString, s)
  | EmptyString => Some (EmptyString, s)
  end.

(** The exponent of a number, if the text starts with one: [e] or [E], a
    sign or none, and at least one digit. *)
Definition parse_exponent (s : string) : option (option Z * string) :=
  match s with
  | String c s' =>
      if (code c =? 101) || (code c =? 69) then
        let '(negative, s'') :=
          match s' with
          | String sign r =>
              if code sign =? 45 then (true, r)
              else if code sign =? 43 then (false, r)
              else (false, s')
          | EmptyString => (false, s')
          end in
        let '(digits, rest) := span_digits s'' in
        if String.length digits =? 0 then None
        else Some (Some (if negative then - digits_value 0 digits
                         else digits_value 0 digits)%Z, rest)
      else Some (None, s)
  | EmptyString => Some (None, s)
  end.

(** A number: an integer part in canonical form (no leading zero), then a
    fraction and an exponent if there are any.  With neither, the value is
    the integer; otherwise it is [m * 10^e], with the digits of the
    fraction taken into [m]. *)
Definition parse_number (s : string) : option (json * string) :=
  let '(tok, rest) := span_number s in
  d ← NilZero.int_of_string tok;
  let n := Z.of_int d in
  if String.eqb (number_to_string n) tok || String.eqb tok "-0" then
    '(fraction, rest1) ← parse_fraction rest;
    '(exponent, rest2) ← parse_exponent rest1;
    match fraction, exponent with
    | EmptyString, None => Some (JNum n, rest2)
    | _, _ =>
        let magnitude := digits_value (Z.abs n) fraction in
        let negative := match tok with
                        | String c _ => code c =? 45
                        | EmptyString => false
                        end in
        Some (JDec (if negative then - magnitude else magnitude)%Z
                   (default 0%Z exponent - Z.of_nat (String.length fraction))%Z,
              rest2)
    end
  else None.

Fixpoint strip_prefix (p s : string) : option string :=
  match p with
  | EmptyString => Some s
  | String a p' =>
      match s with
      | String c s' => if Ascii.eqb a c then strip_prefix p' s' else None
      | EmptyString => None
      end
  end.

Definition parse_literal (s : string) : option (json * string) :=
  match strip_prefix "null" s with
  | Some rest => Some (JNull, rest)
  | None =>
      match strip_prefix "true" s with
      | Some rest => Some (JBool true, rest)
      | None =>
          match strip_prefix "false" s with
          | Some rest => Some (JBool false, rest)
          | None => parse_number s
          end
      end
  end.

(** Recursive descent; every call starts at the first character of what it
    reads.  [fuel] bounds the nesting of the calls. *)
Fixpoint parse_value (fuel : nat) (s : string) : option (json * string) :=
  match fuel with
  | 0 => None
  | S fuel' =>
      match s with
      | EmptyString => None
      | String c r =>
          if code c =? 34 then
            '(str, rest) ← parse_string_body r; Some (JStr str, rest)
          else if code c =? 91 then
            match skip_ws r with
            | EmptyString => None
            | String c' r' =>
                if code c' =? 93 then Some (JArr [], r')
                else '(items, rest) ← parse_elements fuel' (skip_ws r);
                     Some (JArr items, rest)
            end
          else if code c =? 123 then
            match skip_ws r with
            | EmptyString => None
            | String c' r' =>
                if code c' =? 125 then Some (JObj [], r')
                else '(members, rest) ← parse_members fuel' (skip_ws r);
                     Some (JObj members, rest)
            end
          else parse_literal s
      end
  end
with parse_elements (fuel : nat) (s : string) : option (list json * string) :=
  match fuel with
  | 0 => None
  | S fuel' =>
      '(v, r) ← parse_value fuel' s;
      match skip_ws r with
      | EmptyString => None
      | String c r' =>
          if code c =? 44 then
            '(items, rest) ← parse_elements fuel' (skip_ws r');
            Some (v :: items, rest)
          else if code c =? 93 then Some ([v], r')
          else None
      end
  end
with parse_members (fuel : nat) (s : string) : option (list (string * json) * string) :=
  match fuel with
  | 0 => None
  | S fuel' =>
      match s with
      | EmptyString => None
      | String c r =>
          if code c =? 34 then
            '(key, r1) ← parse_string_body r;
            match skip_ws r1 with
            | EmptyString => None
            | String c1 r2 =>
                if code c1 =? 58 then
                  '(v, r3) ← parse_value fuel' (skip_ws r2);
                  match skip_ws r3 with
                  | EmptyString => None
                  | String c3 r4 =>
                      if code c3 =? 44 then
                        '(members, rest) ← parse_members fuel' (skip_ws r4);
                        Some ((key, v) :: members, rest)
                      else if code c3 =? 125 then Some ([(key, v)], r4)
                      else None
                  end
                else None
            end
          else None
      end
  end.

(** [JSON.parse(text)]; [None] is the [SyntaxError], for a text without
    [wide_escape]. *)
Definition JSON_parse (text : string) : option json :=
  '(value, rest) ← parse_value (S (String.length text)) (skip_ws text);
  match skip_ws rest with
  | EmptyString => Some value
  | String _ _ => None
  end.

(** Whether a backslash, [u] and two characters other than [00] occur in
    the text: a [\u] escape of a code unit above U+00FF is written so.  A
    string with such a code unit is no [string] of this model, so what
    [JSON.parse] does with the text is not given by [JSON_parse]. *)
Fixpoint wide_escape (text : string) : bool :=
  match text with
  | EmptyString => false
  | String c rest =>
      ((code c =? 92)
       && match rest with
          | String u (String h1 (String h2 _)) =>
              (code u =? 117) && negb ((code h1 =? 48) && (code h2 =? 48))
          | _ => false
          end)
      || wide_escape rest
  end.

End Json.
Import Json.

(* ===================================================================== *)
(** ** Cache and manifest store *)
(* ===================================================================== *)

Module Store.

Inductive ResearchProfile := core | events | financials.

#[global] Instance ResearchProfile_eq_dec : EqDecision ResearchProfile.
Proof. solve_decision. Defined.

(** The string that a [ResearchProfile] is at run time. *)
Definition profile_name (profile : ResearchProfile) : string :=
  match profile with
  | core => "core"
  | events => "events"
  | financials => "financials"
  end.

Record CachedDoc := mkCachedDoc {
  cd_accession : string;
  cd_form : option string;
  cd_filing_date : option string;
  cd_report_date : option string;
  cd_filing_url : option string;
  cd_path : string
}.

(** [version] is the constant 1 and is not a field of the record. *)
Record CachedManifest := mkCachedManifest {
  m_id_input : string;
  m_cik : string;
  m_ticker : option string;
  m_title : option string;
  m_profile : ResearchProfile;
  m_synced_at : string;
  m_docs : list CachedDoc
}.

(** [path.join(...segments)] for segments that are already normal: no
    empty, [.] or [..] segment is resolved here. *)
Definition path_join (segments : list string) : string := join "/" segments.

(** [path.dirname(p)]: what precedes the last [/] of [p]. *)
Fixpoint dirname_aux (p : string) : option string :=
  match p with
  | EmptyString => None
  | String c p' =>
      match dirname_aux p' with
      | Some d => Some (String c d)
      | None => if Ascii.eqb c "/"%char then Some EmptyString else None
      end
  end.

Definition dirname (p : string) : string :=
  match dirname_aux p with
  | Some EmptyString => "/"
  | Some d => d
  | None => "."
  end.

Definition companyCacheDir (cacheRoot cik : string) : string :=
  path_join [cacheRoot; "research"; "companies"; cik].

Definition profileManifestPath (cacheRoot cik : string) (profile : ResearchProfile) : string :=
  path_join [companyCacheDir cacheRoot cik; "profiles"; profile_name profile +:+ ".json"].

Definition filingDocPath (cacheRoot cik accession : string) : string :=
  path_join [companyCacheDir cacheRoot cik; "filings"; accession +:+ ".md"].

(** The values that [JSON.stringify] sees. *)
Definition nullable (x : option string) : json :=
  match x with
  | Some s => JStr s
  | None => JNull
  end.

Definition doc_value (doc : CachedDoc) : json :=
  JObj [("accession", JStr (cd_accession doc));
        ("form", nullable (cd_form doc));
        ("filing_date", nullable (cd_filing_date doc));
        ("report_date", nullable (cd_report_date doc));
        ("filing_url", nullable (cd_filing_url doc));
        ("path", JStr (cd_path doc))].

Definition manifest_value (manifest : CachedManifest) : json :=
  JObj [("version", JNum 1);
        ("id_input", JStr (m_id_input manifest));
        ("cik", JStr (m_cik manifest));
        ("ticker", nullable (m_ticker manifest));
        ("title", nullable (m_title manifest));
        ("profile", JStr (profile_name (m_profile manifest)));
        ("synced_at", JStr (m_synced_at manifest));
        ("docs", JArr (map doc_value (m_docs manifest)))].

Definition malformed : exn := CLIError PARSE_ERROR "Cached manifest is malformed".

(** [manifest.docs.every((doc) => doc && typeof doc.path === 'string' &&
    typeof doc.accession === 'string')] *)
Definition docs_well_shaped (docs : list json) : bool :=
  forallb (fun doc => truthy doc
                      && typeof_string (prop doc "path")
                      && typeof_string (prop doc "accession"))
          docs.

(** The value is returned as it is, typed as a [CachedManifest].  Every
    test fails with the same error, so the order of the tests does not show
    in the result. *)
Definition parseCachedManifest (value : json) : result json :=
  if negb (truthy value) || negb (typeof_object value) then Err malformed
  else
    match prop value "docs" with
    | Some (JArr docs) =>
        if negb (is_one (prop value "version"))
           || negb (typeof_string (prop value "cik"))
           || negb (docs_well_shaped docs)
        then Err malformed
        else Ok value
    | _ => Err malformed
    end.

Definition readCachedManifest (σ : fs) (cacheRoot cik : string)
           (profile : ResearchProfile) : result (option json) :=
  let manifestPath := profileManifestPath cacheRoot cik profile in
  match readFile σ manifestPath with
  | Err e =>
      if String.eqb (errno e) "ENOENT" then Ok None
      else Err (CLIError VALIDATION_ERROR
                  ("Unable to read cached manifest " +:+ manifestPath +:+ ": "
                   +:+ exn_message e))
  | Ok raw =>
      match JSON_parse raw with
      | None =>
          Err (CLIError PARSE_ERROR
                 ("Cached manifest is not valid JSON: " +:+ manifestPath))
      | Some parsed =>
          manifest ← parseCachedManifest parsed; mret (Some manifest)
      end
  end.

(** The file system after the call, and the manifest path or the error. *)
Definition writeCachedManifest (σ : fs) (cacheRoot : string)
           (manifest : CachedManifest) : fs * result string :=
  let manifestPath :=
    profileManifestPath cacheRoot (m_cik manifest) (m_profile manifest) in
  match mkdir_recursive σ (dirname manifestPath) with
  | Err e => (σ, Err e)
  | Ok σ1 =>
      match writeFile σ1 manifestPath (JSON_stringify (manifest_value manifest) +:+ NL) with
      | Err e => (σ1, Err e)
      | Ok σ2 => (σ2, Ok manifestPath)
      end
  end.

(** What a reader takes from a manifest it has read. *)
Definition string_of (x : option json) : option string :=
  match x with
  | Some (JStr s) => Some s
  | _ => None
  end.

Definition docs_of (manifest : json) : list json :=
  match prop manifest "docs" with
  | Some (JArr docs) => docs
  | _ => []
  end.

End Store.
Import Store.

(* ===================================================================== *)
(** ** Corpus sync orchestrator *)
(* ===================================================================== *)

Module Sync.

Record SyncRule := mkSyncRule {
  rule_form : string;
  rule_queryLimit : nat;
  rule_recentDays : option nat
}.

Definition PROFILE_RULES (profile : ResearchProfile) : list SyncRule :=
  match profile with
  | core =>
      [ {| rule_form := "10-K"; rule_queryLimit := 1; rule_recentDays := None |};
        {| rule_form := "10-Q"; rule_queryLimit := 3; rule_recentDays := None |};
        {| rule_form := "8-K"; rule_queryLimit := 12; rule_recentDays := Some 180 |} ]
  | events =>
      [ {| rule_form := "8-K"; rule_queryLimit := 24; rule_recentDays := Some 365 |} ]
  | financials =>
      [ {| rule_form := "10-K"; rule_queryLimit := 2; rule_recentDays := None |};
        {| rule_form := "10-Q"; rule_queryLimit := 6; rule_recentDays := None |} ]
  end.

Record FilingRow := mkFilingRow {
  row_accession : string;
  row_form : option string;
  row_filingDate : option string;
  row_reportDate : option string;
  row_filingUrl : option string
}.

Record Entity := mkEntity {
  e_cik : string;
  e_ticker : option string;
  e_title : option string
}.

(** What the orchestrator calls and does not define: the identity
    resolver, the filing catalog, the content provider, the clock and the
    resolution of the cache root. *)
Record Collaborators := mkCollaborators {
  resolveEntity : string -> result Entity;
  (** [runFilingsList({ id, form, from, queryLimit })], its [data] *)
  runFilingsList : string -> string -> option string -> nat -> result (list FilingRow);
  (** [runFilingsGet({ id, accession, format: 'markdown' })], its
      [data.content] when that is a string *)
  runFilingsGet : string -> string -> result (option string);
  dateDaysAgo : nat -> string;
  nowIso : string;
  resolveCacheRoot : option string -> string
}.

(** [String.prototype.localeCompare] is the collation of the host's
    locale, which is not the order of the code units on all strings
    (["a"] comes before ["B"]).  It is given here for the strings that the
    catalog of the SEC holds as filing dates: on dates written
    [YYYY-MM-DD], and on the empty string against them, the collation is
    the comparison by code units.  What is said of the order of the
    selected rows is said of rows that are [dated]. *)
Definition localeCompare (s t : string) : Z :=
  match String.compare s t with
  | Lt => (-1)%Z
  | Eq => 0%Z
  | Gt => 1%Z
  end.

Definition date_or_empty (row : FilingRow) : string :=
  default EmptyString (row_filingDate row).

(** A date written [YYYY-MM-DD]. *)
Definition iso_date (s : string) : bool :=
  digits_then 4
    (dash_then (digits_then 2 (dash_then (digits_then 2
       (fun rest => String.length rest =? 0)))))
    s.

(** A row whose filing date is missing, empty or written [YYYY-MM-DD]. *)
Definition dated (row : FilingRow) : bool :=
  (String.length (date_or_empty row) =? 0) || iso_date (date_or_empty row).

(** The comparator [(a, b) => (b.filingDate ?? '').localeCompare(a.filingDate ?? '')],
    as [comparator(a, b) <= 0]. *)
Definition by_filing_date_desc (a b : FilingRow) : bool :=
  (localeCompare (date_or_empty b) (date_or_empty a) <=? 0)%Z.

(** [selectedByAccession]: a [Map] in insertion order. *)
Definition has (selected : list (string * FilingRow)) (accession : string) : bool :=
  existsb (fun entry => String.eqb (fst entry) accession) selected.

Definition select_rows (selected : list (string * FilingRow)) (rows : list FilingRow)
  : list (string * FilingRow) :=
  foldl (fun selected row =>
           if has selected (row_accession row) then selected
           else selected ++ [(row_accession row, row)])
        selected rows.

Definition truthy_days (recentDays : option nat) : option nat :=
  match recentDays with
  | Some (S n) => Some (S n)
  | _ => None
  end.

Section Orchestrator.
Variable W : Collaborators.

(** The [for (const rule of rules)] loop. *)
Fixpoint select_rules (cik : string) (rules : list SyncRule)
         (selected : list (string * FilingRow)) : result (list (string * FilingRow)) :=
  match rules with
  | [] => Ok selected
  | rule :: rest =>
      rows ← runFilingsList W cik (rule_form rule)
               (dateDaysAgo W <$> truthy_days (rule_recentDays rule))
               (rule_queryLimit rule);
      select_rules cik rest (select_rows selected rows)
  end.

Definition selectedRows (cik : string) (profile : ResearchProfile)
  : result (list FilingRow) :=
  selected ← select_rules cik (PROFILE_RULES profile) [];
  mret (JsArray.sort by_filing_date_desc (map snd selected)).

Definition fileExists (σ : fs) (filePath : string) : result bool :=
  match stat_isFile σ filePath with
  | Ok isFile => Ok isFile
  | Err e =>
      if String.eqb (errno e) "ENOENT" then Ok false
      else Err (CLIError VALIDATION_ERROR
                  ("Unable to stat " +:+ filePath +:+ ": " +:+ exn_message e))
  end.

Definition endsWith_newline (content : string) : bool :=
  match String.length content with
  | 0 => false
  | S n => String.eqb (String.substring n 1 content) NL
  end.

(** The body of the [try]: fetch, check, [mkdir], [writeFile]. *)
Definition fetch_into_cache (σ : fs) (cik : string) (row : FilingRow)
           (docPath : string) : fs * result unit :=
  match runFilingsGet W cik (row_accession row) with
  | Err e => (σ, Err e)
  | Ok None =>
      (σ, Err (CLIError PARSE_ERROR
                 ("Unable to parse markdown content for accession "
                  +:+ row_accession row)))
  | Ok (Some fetched) =>
      match mkdir_recursive σ (dirname docPath) with
      | Err e => (σ, Err e)
      | Ok σ1 =>
          let content :=
            if endsWith_newline fetched then fetched else fetched +:+ NL in
          match writeFile σ1 docPath content with
          | Err e => (σ1, Err e)
          | Ok σ2 => (σ2, Ok tt)
          end
      end
  end.

Record Skipped := mkSkipped {
  sk_accession : string;
  sk_reason : string
}.

(** The variables of the fetch loop. *)
Record LoopState := mkLoopState {
  ls_fs : fs;
  ls_docs : list CachedDoc;
  ls_skipped : list Skipped;
  ls_fetchedCount : nat;
  ls_reusedCount : nat
}.

Definition cached_doc (row : FilingRow) (docPath : string) : CachedDoc :=
  {| cd_accession := row_accession row;
     cd_form := row_form row;
     cd_filing_date := row_filingDate row;
     cd_report_date := row_reportDate row;
     cd_filing_url := row_filingUrl row;
     cd_path := docPath |}.

(** The [for (const row of selectedRows)] loop: the state when it ends,
    and the exception if it ends by one. *)
Fixpoint fetch_loop (cacheRoot cik : string) (refresh : bool)
         (rows : list FilingRow) (st : LoopState) : LoopState * option exn :=
  match rows with
  | [] => (st, None)
  | row :: rest =>
      let docPath := filingDocPath cacheRoot cik (row_accession row) in
      match (if refresh then Ok false else fileExists (ls_fs st) docPath) with
      | Err e => (st, Some e)
      | Ok shouldUseCache =>
          if negb shouldUseCache then
            match fetch_into_cache (ls_fs st) cik row docPath with
            | (σ', Ok _) =>
                fetch_loop cacheRoot cik refresh rest
                  {| ls_fs := σ';
                     ls_docs := ls_docs st ++ [cached_doc row docPath];
                     ls_skipped := ls_skipped st;
                     ls_fetchedCount := ls_fetchedCount st + 1;
                     ls_reusedCount := ls_reusedCount st |}
            | (σ', Err e) =>
                if isCLIErrorWith NOT_FOUND e then
                  fetch_loop cacheRoot cik refresh rest
                    {| ls_fs := σ';
                       ls_docs := ls_docs st;
                       ls_skipped := ls_skipped st
                                     ++ [{| sk_accession := row_accession row;
                                            sk_reason := exn_message e |}];
                       ls_fetchedCount := ls_fetchedCount st;
                       ls_reusedCount := ls_reusedCount st |}
                else
                  ({| ls_fs := σ';
                      ls_docs := ls_docs st;
                      ls_skipped := ls_skipped st;
                      ls_fetchedCount := ls_fetchedCount st;
                      ls_reusedCount := ls_reusedCount st |}, Some e)
            end
          else
            fetch_loop cacheRoot cik refresh rest
              {| ls_fs := ls_fs st;
                 ls_docs := ls_docs st ++ [cached_doc row docPath];
                 ls_skipped := ls_skipped st;
                 ls_fetchedCount := ls_fetchedCount st;
                 ls_reusedCount := ls_reusedCount st + 1 |}
      end
  end.

Record SyncParams := mkSyncParams {
  sy_id : string;
  sy_profile : ResearchProfile;
  sy_cacheDir : option string;
  sy_refresh : bool
}.

Record SyncData := mkSyncData {
  out_id : string;
  out_cik : string;
  out_ticker : option string;
  out_title : option string;
  out_profile : ResearchProfile;
  out_cache_root : string;
  out_manifest_path : string;
  out_docs_count : nat;
  out_fetched_count : nat;
  out_reused_count : nat;
  out_skipped_count : nat;
  out_skipped : list Skipped;
  out_docs : list CachedDoc
}.

Definition initial_state (σ : fs) : LoopState :=
  {| ls_fs := σ; ls_docs := []; ls_skipped := [];
     ls_fetchedCount := 0; ls_reusedCount := 0 |}.

Definition sync_manifest (params : SyncParams) (entity : Entity)
           (docs : list CachedDoc) : CachedManifest :=
  {| m_id_input := sy_id params;
     m_cik := e_cik entity;
     m_ticker := e_ticker entity;
     m_title := e_title entity;
     m_profile := sy_profile params;
     m_synced_at := nowIso W;
     m_docs := docs |}.

(** The file system after the call, and the report or the exception. *)
Definition runResearchSync (σ : fs) (params : SyncParams) : fs * result SyncData :=
  match resolveEntity W (sy_id params) with
  | Err e => (σ, Err e)
  | Ok entity =>
      let cacheRoot := resolveCacheRoot W (sy_cacheDir params) in
      match selectedRows (e_cik entity) (sy_profile params) with
      | Err e => (σ, Err e)
      | Ok rows =>
          match fetch_loop cacheRoot (e_cik entity) (sy_refresh params) rows
                           (initial_state σ) with
          | (st, Some e) => (ls_fs st, Err e)
          | (st, None) =>
              let manifest := sync_manifest params entity (ls_docs st) in
              match writeCachedManifest (ls_fs st) cacheRoot manifest with
              | (σ', Err e) => (σ', Err e)
              | (σ', Ok manifestPath) =>
                  (σ', Ok {| out_id := sy_id params;
                             out_cik := e_cik entity;
                             out_ticker := e_ticker entity;
                             out_title := e_title entity;
                             out_profile := sy_profile params;
                             out_cache_root := cacheRoot;
                             out_manifest_path := manifestPath;
                             out_docs_count := length (ls_docs st);
                             out_fetched_count := ls_fetchedCount st;
                             out_reused_count := ls_reusedCount st;
                             out_skipped_count := length (ls_skipped st);
                             out_skipped := ls_skipped st;
                             out_docs := ls_docs st |})
              end
          end
      end
  end.

End Orchestrator.

End Sync.
Import Sync.

(* ===================================================================== *)
(** ** The scoring formula in the words of the specification *)
(* ===================================================================== *)

Module Spec.

Local Open Scope R_scope.

(** [idf = ln(1 + (N - df + 0.5)/(df + 0.5))] *)
Definition idf (N df : nat) : R :=
  ln (1 + (INR N - INR df + 0.5) / (INR df + 0.5)).

(** [idf * (tf*(k1+1)) / (tf + k1*(1 - b + b*(chunk_tokens/avg_tokens)))] *)
Definition term_contribution (k1 b idf : R) (tf chunk_tokens : nat) (avg_tokens : R) : R :=
  idf * (INR tf * (k1 + 1))
  / (INR tf + k1 * (1 - b + b * (INR chunk_tokens / avg_tokens))).

(** The number of candidate chunks that contain the term at least once. *)
Definition document_frequency (term : string) (chunks : list Chunk) : nat :=
  length (filter (fun c => (0 < get (termFrequency c) term)%nat) chunks).

(** The average token count over the candidate chunks. *)
Definition average_tokens (chunks : list Chunk) : R :=
  INR (list_sum (map tokenCount chunks)) / INR (length chunks).

(** The sum over the query terms; a term absent from the chunk adds 0. *)
Definition bm25 (queryTerms : list string) (chunk : Chunk) (chunks : list Chunk) : R :=
  fold_right Rplus 0
    (map (fun term =>
            let tf := get (termFrequency chunk) term in
            if (tf =? 0)%nat then 0
            else term_contribution 1.2 0.75
                   (idf (length chunks) (document_frequency term chunks))
                   tf (tokenCount chunk) (average_tokens chunks))
         queryTerms).

End Spec.

(* ===================================================================== *)
(** * Properties *)
(* ===================================================================== *)

(** *** Facts about [trim], [join] and [slice] *)

Module TrimFacts.

Lemma length_zero_iff (s : string) : String.length s = 0 <-> s = EmptyString.
Proof. destruct s; simpl; split; intros H; congruence. Qed.

Lemma all_space_trimStart (s : string) : all_space (trimStart s) = all_space s.
Proof.
  induction s as [|c s IH]; simpl; [reflexivity|].
  destruct (is_space c) eqn:Hc; simpl; [exact IH | now rewrite Hc].
Qed.

Lemma trimEnd_empty (s : string) : trimEnd s = EmptyString <-> all_space s = true.
Proof.
  induction s as [|c s IH]; simpl; [tauto|].
  destruct (trimEnd s) eqn:Ht.
  - destruct (is_space c); simpl; split; intros H; try discriminate; tauto.
  - split; [discriminate|].
    intros [_ H]%andb_true_iff. apply IH in H. discriminate.
Qed.

Lemma trim_empty (s : string) : trim s = EmptyString <-> all_space s = true.
Proof. unfold trim. now rewrite trimEnd_empty, all_space_trimStart. Qed.

Lemma all_space_app (a b : string) :
  all_space (a +:+ b) = all_space a && all_space b.
Proof.
  induction a as [|c a IH]; simpl; [reflexivity|].
  now rewrite IH, andb_assoc.
Qed.

Lemma all_space_join (sep : string) (l : list string) :
  all_space (join sep l) = true -> Forall (fun x => all_space x = true) l.
Proof.
  induction l as [|x l IH]; [constructor|].
  destruct l as [|y l].
  - simpl. intros H. now repeat constructor.
  - change (join sep (x :: y :: l)) with (x +:+ sep +:+ join sep (y :: l)).
    rewrite !all_space_app.
    intros [Hx [_ Hr]%andb_true_iff]%andb_true_iff.
    constructor; [exact Hx | exact (IH Hr)].
Qed.

Lemma slice_lookup {A} (l : list A) (start stop : nat) (x : A) :
  l !! start = Some x -> start < stop -> x ∈ slice start stop l.
Proof.
  intros Hx Hlt. unfold slice.
  apply list_elem_of_lookup. exists 0.
  rewrite lookup_take_lt by lia.
  rewrite lookup_drop. now rewrite Nat.add_0_r.
Qed.

End TrimFacts.
Import TrimFacts.

(** *** The chunk loop on a document without blank lines *)

Section NonBlankDocument.
Variable path : string.
Variable acc : option string.
Variable lines : list string.
Variable chunkLines chunkOverlap : nat.

Hypothesis chunkLines_pos : 0 < chunkLines.
Hypothesis overlap_lt : chunkOverlap < chunkLines.
Hypothesis non_blank : Forall (fun l => all_space l = false) lines.

Local Abbreviation loop := (chunk_loop path acc lines chunkLines chunkOverlap).
Local Abbreviation at_ := (chunk_at path acc lines chunkLines).
Local Abbreviation wend := (window_end lines chunkLines).

Lemma step_exact : step chunkLines chunkOverlap = chunkLines - chunkOverlap.
Proof. unfold step. lia. Qed.

Lemma window_text_nonempty (i : nat) :
  i < length lines ->
  (String.length (window_text lines chunkLines i) =? 0) = false.
Proof.
  clear overlap_lt. intros Hi. apply Nat.eqb_neq. rewrite length_zero_iff.
  unfold window_text. rewrite trim_empty. intros Hblank.
  apply all_space_join in Hblank.
  destruct (lookup_lt_is_Some_2 lines i Hi) as [x Hx].
  assert (Hin : x ∈ slice i (window_end lines chunkLines i) lines).
  { apply slice_lookup; [exact Hx|]. unfold window_end. lia. }
  rewrite Forall_forall in Hblank. specialize (Hblank x Hin).
  pose proof (proj1 (Forall_forall _ _) non_blank x
                    (list_elem_of_lookup_2 _ _ _ Hx)) as Hx'.
  simpl in Hx'. congruence.
Qed.

Lemma chunk_loop_step (i : nat) :
  i < length lines ->
  loop i =
    at_ i :: (if length lines <=? wend i then []
              else loop (i + step chunkLines chunkOverlap)).
Proof.
  intros Hi. rewrite chunk_loop_unfold_eq at 1. unfold chunk_loop_unfold.
  destruct (decide (i < length lines)) as [Hlt|Hn]; [|contradiction].
  simpl. now rewrite window_text_nonempty.
Qed.

(** From any line index inside the document the loop pushes the window at
    that index first, consecutive chunks start [step] lines apart, and the
    last chunk ends at the last line. *)
Lemma chunk_loop_shape (k i : nat) :
  length lines - i <= k -> i < length lines ->
  head (loop i) = Some (at_ i) /\
  (forall j c c', loop i !! j = Some c -> loop i !! S j = Some c' ->
                  lineStart c' = lineStart c + (chunkLines - chunkOverlap)) /\
  (exists c, last (loop i) = Some c /\ lineEnd c = length lines).
Proof.
  revert i. induction k as [|k IH]; intros i Hk Hi; [lia|].
  rewrite (chunk_loop_step i Hi).
  destruct (length lines <=? wend i) eqn:Hend.
  - apply Nat.leb_le in Hend. split; [reflexivity|]. split.
    + intros j c c' _ H. destruct j; discriminate.
    + exists (at_ i). split; [reflexivity|].
      simpl. unfold window_end in *. lia.
  - apply Nat.leb_gt in Hend.
    assert (Hnext : i + step chunkLines chunkOverlap < length lines).
    { unfold window_end in Hend. rewrite step_exact. lia. }
    destruct (IH (i + step chunkLines chunkOverlap)) as (Hh & Hadv & c & Hl & He);
      [rewrite step_exact in *; lia | exact Hnext |].
    split; [reflexivity|]. split.
    + intros [|j] c0 c1 H0 H1.
      * simpl in H0. injection H0 as <-.
        simpl in H1. rewrite <- head_lookup in H1. rewrite Hh in H1.
        injection H1 as <-. simpl. rewrite step_exact. lia.
      * simpl in H0, H1. exact (Hadv j c0 c1 H0 H1).
    + exists c. split; [|exact He].
      destruct (loop (i + step chunkLines chunkOverlap)) as [|d ds] eqn:Hd;
        [discriminate|].
      rewrite last_cons. now rewrite Hl.
Qed.

End NonBlankDocument.

Lemma split_lines_from_nonempty (cur s : string) : 0 < length (split_lines_from cur s).
Proof.
  remember (String.length s) as n eqn:Hn.
  assert (Hle : String.length s <= n) by lia. clear Hn.
  revert s cur Hle. induction n as [|n IH]; intros s cur Hle.
  - destruct s; simpl in *; lia.
  - destruct s as [|c s]; simpl; [lia|].
    destruct (Ascii.eqb c "010"); simpl; [lia|].
    destruct s as [|c' s']; [simpl; lia|].
    destruct (Ascii.eqb c "013" && Ascii.eqb c' "010"); simpl; [lia|].
    assert (Hs : String.length (String c' s') <= n) by (simpl in *; lia).
    exact (IH (String c' s') (cur +:+ String c EmptyString) Hs).
Qed.

(** A line is blank when it holds nothing but white space. *)
Definition no_blank_line (lines : list string) : bool :=
  forallb (fun l => negb (all_space l)) lines.

Lemma no_blank_line_Forall (lines : list string) :
  no_blank_line lines = true -> Forall (fun l => all_space l = false) lines.
Proof.
  unfold no_blank_line. rewrite forallb_forall, Forall_forall.
  intros H x Hx. apply negb_true_iff, H. now apply list_elem_of_In.
Qed.

(** C3. For [chunk_lines > 0] and [0 <= chunk_overlap < chunk_lines], the
    chunks of a document of [N] lines, none of them blank, start at line 1,
    each next chunk starts exactly [chunk_lines - chunk_overlap] lines after
    the one before, and the last chunk ends at line [N]. *)
Theorem chunkDocument_line_ranges (params : ChunkParams) :
  0 < p_chunkLines params ->
  p_chunkOverlap params < p_chunkLines params ->
  no_blank_line (split_lines (p_content params)) = true ->
  let N := length (split_lines (p_content params)) in
  let chunks := chunkDocument params in
  (exists c, head chunks = Some c /\ lineStart c = 1) /\
  (forall j c c',
      chunks !! j = Some c -> chunks !! S j = Some c' ->
      lineStart c' = lineStart c + (p_chunkLines params - p_chunkOverlap params)) /\
  (exists c, last chunks = Some c /\ lineEnd c = N).
Proof.
  intros Hpos Hov Hnb N chunks.
  apply no_blank_line_Forall in Hnb.
  assert (HN : 0 < N) by apply split_lines_from_nonempty.
  destruct (chunk_loop_shape (p_docPath params) (extractAccession (p_docPath params))
              (split_lines (p_content params)) (p_chunkLines params)
              (p_chunkOverlap params) Hpos Hov Hnb N 0)
    as (Hh & Hadv & Hlast); [lia | exact HN |].
  split; [|split].
  - eexists. split; [exact Hh | reflexivity].
  - exact Hadv.
  - exact Hlast.
Qed.

Definition sample_document : string :=
  "# Item 5.02" +:+ String "010" "Persis Drell resigned from the Board." +:+
  String "010" "No disagreement with company operations." +:+
  String "013" (String "010" "Signature page").

Lemma chunkDocument_line_ranges_witness :
  let params := {| p_docPath := "filings/0000320193-26-000111.md";
                   p_content := sample_document;
                   p_chunkLines := 2;
                   p_chunkOverlap := 1 |} in
  map (fun c => (lineStart c, lineEnd c)) (chunkDocument params) = [(1, 2); (2, 3); (3, 4)] /\
  (exists c, last (chunkDocument params) = Some c /\ lineEnd c = 4).
Proof.
  intros params. split; [vm_compute; reflexivity|].
  apply (chunkDocument_line_ranges params); [simpl; lia | simpl; lia | vm_compute; reflexivity].
Defined.

(** *** Corpus statistics *)

Lemma count_fold_filter (term : string) (chunks : list Chunk) (n : nat) :
  foldl (fun count chunk =>
           if 0 <? get (termFrequency chunk) term then count + 1 else count)
        n chunks
  = n + Spec.document_frequency term chunks.
Proof.
  unfold Spec.document_frequency. revert n.
  induction chunks as [|c chunks IH]; intros n; simpl; [lia|].
  rewrite IH, filter_cons.
  destruct (decide (0 < get (termFrequency c) term)) as [H|H].
  - apply Nat.ltb_lt in H as ->. simpl. lia.
  - apply Nat.ltb_nlt in H as ->. lia.
Qed.

Lemma docFrequency_fold (chunks : list Chunk) (terms : list string)
      (m : gmap string nat) (t : string) :
  foldl (fun m term =>
           <[term := foldl (fun count chunk =>
                              if 0 <? get (termFrequency chunk) term
                              then count + 1 else count) 0 chunks]> m)
        m terms !! t
  = if decide (t ∈ terms) then Some (Spec.document_frequency t chunks) else m !! t.
Proof.
  revert m. induction terms as [|x terms IH]; intros m; simpl.
  - destruct (decide (t ∈ [])) as [H|_]; [inversion H | reflexivity].
  - rewrite IH.
    destruct (decide (t ∈ terms)) as [Hin|Hnin].
    + rewrite decide_True by (right; exact Hin). reflexivity.
    + destruct (decide (x = t)) as [->|Hne].
      * rewrite decide_True by left. rewrite lookup_insert_eq.
        now rewrite count_fold_filter.
      * rewrite lookup_insert_ne by exact Hne.
        rewrite decide_False; [reflexivity|].
        intros [Heq|H]%elem_of_cons; [congruence | contradiction].
Qed.

Lemma docFrequency_get (queryTerms : list string) (chunks : list Chunk) (t : string) :
  t ∈ queryTerms ->
  get (docFrequency queryTerms chunks) t = Spec.document_frequency t chunks.
Proof.
  intros Hin. unfold get, docFrequency.
  rewrite docFrequency_fold, decide_True by exact Hin. reflexivity.
Qed.

Lemma document_frequency_le (t : string) (chunks : list Chunk) :
  Spec.document_frequency t chunks <= length chunks.
Proof. unfold Spec.document_frequency. apply length_filter. Qed.

Lemma tokenCount_fold (chunks : list Chunk) (n : nat) :
  foldl (fun sum chunk => sum + tokenCount chunk) n chunks
  = n + list_sum (map tokenCount chunks).
Proof.
  revert n. induction chunks as [|c chunks IH]; intros n; simpl; [lia|].
  rewrite IH. lia.
Qed.

Lemma averageLength_spec (chunks : list Chunk) :
  chunks <> [] -> averageLength chunks = Spec.average_tokens chunks.
Proof.
  intros Hne. unfold averageLength, Spec.average_tokens.
  rewrite tokenCount_fold. simpl.
  destruct chunks as [|c chunks]; [contradiction|].
  replace (Nat.max (length (c :: chunks)) 1) with (length (c :: chunks))
    by (simpl; lia).
  reflexivity.
Qed.

(** *** Chunks are built from their tokens *)

(** No term occurs more often in a chunk than the chunk has tokens. *)
Definition chunk_wf (c : Chunk) : Prop :=
  forall t, get (termFrequency c) t <= tokenCount c.

Lemma buildTermFrequency_fold_le (tokens : list string) (m : gmap string nat) (n : nat) :
  (forall t, get m t <= n) ->
  forall t,
    get (foldl (fun frequency token => <[token := get frequency token + 1]> frequency)
               m tokens) t
    <= n + length tokens.
Proof.
  revert m n. induction tokens as [|x tokens IH]; intros m n Hm t; simpl.
  - specialize (Hm t). lia.
  - replace (n + S (length tokens)) with (S n + length tokens) by lia.
    apply IH. intros u. unfold get at 1.
    destruct (decide (x = u)) as [->|Hne].
    + rewrite lookup_insert_eq. simpl. specialize (Hm u). lia.
    + rewrite lookup_insert_ne by exact Hne. specialize (Hm u). unfold get in Hm. lia.
Qed.

Lemma chunk_at_wf path acc lines chunkLines i :
  chunk_wf (chunk_at path acc lines chunkLines i).
Proof.
  intros t. simpl. unfold buildTermFrequency.
  apply (buildTermFrequency_fold_le _ ∅ 0).
  intros u. unfold get. rewrite lookup_empty. simpl. lia.
Qed.

Lemma chunk_loop_wf path acc lines chunkLines chunkOverlap i :
  Forall chunk_wf (chunk_loop path acc lines chunkLines chunkOverlap i).
Proof.
  funelim (chunk_loop path acc lines chunkLines chunkOverlap i).
  - clear Heqcall. repeat case_match; repeat constructor; auto using chunk_at_wf.
  - constructor.
Qed.

Lemma chunkDocument_wf (params : ChunkParams) : Forall chunk_wf (chunkDocument params).
Proof. apply chunk_loop_wf. Qed.

Lemma mapM_result_Forall2 {A B} (f : A -> result B) (l : list A) (k : list B) :
  mapM f l = Ok k -> Forall2 (fun x y => f x = Ok y) l k.
Proof.
  revert k. induction l as [|x l IH]; intros k; simpl.
  - intros [= <-]. constructor.
  - unfold mbind, result_bind at 1. destruct (f x) as [y|e] eqn:Hfx; [|discriminate].
    unfold mbind, result_bind at 1. destruct (mapM f l) as [k'|e]; [|discriminate].
    intros [= <-]. constructor; [exact Hfx | now apply IH].
Qed.

Lemma loadDocs_chunks_wf (σ : fs) (params : SearchParams) (docs : list Doc) :
  loadDocs σ params = Ok docs -> Forall chunk_wf (flat_map d_chunks docs).
Proof.
  intros H%mapM_result_Forall2.
  induction H as [|p d ps ds Hd _ IH]; simpl; [constructor|].
  apply Forall_app. split; [|exact IH].
  unfold mbind, result_bind in Hd.
  destruct (ensureReadableTextFile σ p); [|discriminate].
  injection Hd as <-. simpl. apply chunkDocument_wf.
Qed.

(** *** The BM25 fold *)

Section Bm25.
Local Open Scope R_scope.

Lemma list_sum_elem (c : Chunk) (chunks : list Chunk) :
  c ∈ chunks -> (tokenCount c <= list_sum (map tokenCount chunks))%nat.
Proof.
  induction 1 as [c l|c d l _ IH]; simpl; lia.
Qed.

(** A chunk of the candidate set that contains a term makes the average
    token count positive. *)
Lemma averageLength_pos (chunks : list Chunk) (c : Chunk) (t : string) :
  c ∈ chunks -> chunk_wf c -> (0 < get (termFrequency c) t)%nat ->
  0 < averageLength chunks.
Proof.
  intros Hin Hwf Htf. rewrite averageLength_spec by (intros ->; inversion Hin).
  unfold Spec.average_tokens.
  pose proof (list_sum_elem c chunks Hin) as Hsum. specialize (Hwf t).
  apply Rdiv_lt_0_compat; apply lt_0_INR.
  - lia.
  - destruct chunks; [inversion Hin | simpl; lia].
Qed.

Lemma bm25_fold (P : Bm25Params) (contribution : string -> R) (terms : list string) :
  (forall t, t ∈ terms -> forall s, bm25_step P s t = s + contribution t) ->
  forall s, foldl (bm25_step P) s terms = s + fold_right Rplus 0 (map contribution terms).
Proof.
  induction terms as [|t terms IH]; intros Hstep s; simpl; [ring|].
  rewrite Hstep by left. rewrite IH by (intros u Hu; apply Hstep; now right).
  ring.
Qed.

End Bm25.

(** C1. In a query evaluation over the chunks of the loaded documents, the
    BM25 base score of a candidate chunk is the sum over the query terms of
    [idf * (tf*(k1+1)) / (tf + k1*(1 - b + b*(chunk_tokens/avg_tokens)))]
    with [k1 = 1.2], [b = 0.75] and
    [idf = ln(1 + (N - df + 0.5)/(df + 0.5))], where [N] is the number of
    candidate chunks, [df] the number of candidate chunks that contain the
    term and [avg_tokens] their average token count; a term with [tf = 0]
    adds nothing. *)
Theorem bm25Score_formula (σ : fs) (params : SearchParams) (docs : list Doc)
        (queryTerms : list string) (chunk : Chunk) :
  loadDocs σ params = Ok docs ->
  chunk ∈ flat_map d_chunks docs ->
  bm25Score {| bm_queryTerms := queryTerms;
               bm_chunk := chunk;
               bm_docFrequencyByTerm := docFrequency queryTerms (flat_map d_chunks docs);
               bm_totalChunkCount := length (flat_map d_chunks docs);
               bm_averageChunkLength := averageLength (flat_map d_chunks docs) |}
  = Spec.bm25 queryTerms chunk (flat_map d_chunks docs).
Proof.
  intros Hload Hin.
  set (allChunks := flat_map d_chunks docs) in *.
  assert (Hwf : chunk_wf chunk).
  { pose proof (loadDocs_chunks_wf σ params docs Hload) as Hall.
    rewrite Forall_forall in Hall. now apply Hall. }
  unfold bm25Score, Spec.bm25. cbn [bm_queryTerms].
  rewrite (bm25_fold _ (fun term =>
             let tf := get (termFrequency chunk) term in
             if (tf =? 0)%nat then 0%R
             else Spec.term_contribution 1.2 0.75
                    (Spec.idf (length allChunks) (Spec.document_frequency term allChunks))
                    tf (tokenCount chunk) (Spec.average_tokens allChunks))).
  - rewrite Rplus_0_l. reflexivity.
  - intros t Ht s. unfold bm25_step. cbn [bm_chunk bm_docFrequencyByTerm
      bm_totalChunkCount bm_averageChunkLength].
    destruct (get (termFrequency chunk) t =? 0) eqn:Htf; [simpl; ring|].
    apply Nat.eqb_neq in Htf.
    assert (Havg : (0 < averageLength allChunks)%R).
    { apply (averageLength_pos allChunks chunk t); [exact Hin | exact Hwf | lia]. }
    rewrite decide_True by exact Havg.
    rewrite docFrequency_get by exact Ht.
    rewrite averageLength_spec by (intros E; rewrite E in Hin; inversion Hin).
    unfold Spec.term_contribution, Spec.idf, k1, b, Rdiv. ring.
Qed.

Definition sample_fs : fs := <["/corpus/a.md" := File sample_document]> ∅.

Definition sample_search : SearchParams :=
  {| s_query := "board resigned";
     s_docPaths := ["/corpus/a.md"];
     s_topK := 8;
     s_chunkLines := 2;
     s_chunkOverlap := 1 |}.

Definition sample_docs : list Doc :=
  match loadDocs sample_fs sample_search with
  | Ok docs => docs
  | Err _ => []
  end.

Definition sample_chunk : Chunk :=
  chunk_at "/corpus/a.md" None (split_lines sample_document) 2 1.

Lemma bm25Score_formula_witness :
  bm25Score {| bm_queryTerms := ["board"; "resigned"];
               bm_chunk := sample_chunk;
               bm_docFrequencyByTerm :=
                 docFrequency ["board"; "resigned"] (flat_map d_chunks sample_docs);
               bm_totalChunkCount := length (flat_map d_chunks sample_docs);
               bm_averageChunkLength := averageLength (flat_map d_chunks sample_docs) |}
  = Spec.bm25 ["board"; "resigned"] sample_chunk (flat_map d_chunks sample_docs).
Proof.
  apply (bm25Score_formula sample_fs sample_search sample_docs).
  - vm_compute. reflexivity.
  - vm_compute. right. left.
Defined.

(** *** Monotonicity of the term score *)

Section Monotone.
Local Open Scope R_scope.

Lemma idf_nonneg (N df : nat) :
  (df <= N)%nat -> 0 <= ln (1 + (INR N - INR df + 0.5) / (INR df + 0.5)).
Proof.
  intros Hle. apply le_INR in Hle. pose proof (pos_INR df) as Hdf.
  rewrite <- ln_1. left. apply ln_increasing; [lra|].
  assert (0 < (INR N - INR df + 0.5) / (INR df + 0.5)); [|lra].
  apply Rdiv_lt_0_compat; lra.
Qed.

Lemma saturation_mono (c x y : R) :
  0 < c -> 0 < x -> x <= y ->
  x * (k1 + 1) / (x + c) <= y * (k1 + 1) / (y + c).
Proof.
  intros Hc Hx Hxy. unfold k1.
  apply Rmult_le_reg_r with (r := (x + c) * (y + c)); [nra|].
  replace (x * (1.2 + 1) / (x + c) * ((x + c) * (y + c)))
    with (x * (1.2 + 1) * (y + c)) by (field; lra).
  replace (y * (1.2 + 1) / (y + c) * ((x + c) * (y + c)))
    with (y * (1.2 + 1) * (x + c)) by (field; lra).
  nra.
Qed.

(** The length normalisation term of the denominator is positive. *)
Lemma length_norm_pos (tokens : nat) (avg : R) :
  0 < k1 * (1 - b + b * (if decide (0 < avg) then INR tokens / avg else 1)).
Proof.
  unfold k1, b. destruct (decide (0 < avg)) as [Havg|_]; [|lra].
  assert (0 <= INR tokens / avg); [|lra].
  apply Rmult_le_pos; [apply pos_INR | left; now apply Rinv_0_lt_compat].
Qed.

Lemma foldl_bm25_le (P P' : Bm25Params) (terms : list string) :
  (forall t s s', t ∈ terms -> s <= s' -> bm25_step P s t <= bm25_step P' s' t) ->
  forall s s', s <= s' -> foldl (bm25_step P) s terms <= foldl (bm25_step P') s' terms.
Proof.
  induction terms as [|t terms IH]; intros Hstep s s' Hs; simpl; [exact Hs|].
  apply IH; [intros u a a' Hu; apply Hstep; now right|].
  apply Hstep; [left | exact Hs].
Qed.

(** Raising the frequency of one term, all other inputs of [bm25Score]
    unchanged, when no queried term has a document frequency above the
    chunk count. *)
Lemma bm25Score_mono (P : Bm25Params) (chunk' : Chunk) (term : string) :
  (forall t, t ∈ bm_queryTerms P ->
             (get (bm_docFrequencyByTerm P) t <= bm_totalChunkCount P)%nat) ->
  tokenCount chunk' = tokenCount (bm_chunk P) ->
  (forall t, t <> term ->
             get (termFrequency chunk') t = get (termFrequency (bm_chunk P)) t) ->
  (1 <= get (termFrequency (bm_chunk P)) term)%nat ->
  (get (termFrequency (bm_chunk P)) term <= get (termFrequency chunk') term)%nat ->
  bm25Score P
  <= bm25Score {| bm_queryTerms := bm_queryTerms P;
                  bm_chunk := chunk';
                  bm_docFrequencyByTerm := bm_docFrequencyByTerm P;
                  bm_totalChunkCount := bm_totalChunkCount P;
                  bm_averageChunkLength := bm_averageChunkLength P |}.
Proof.
  intros Hdf Htok Hother Hone Hup. unfold bm25Score. cbn [bm_queryTerms].
  apply foldl_bm25_le; [|lra].
  intros t s s' Ht Hs. unfold bm25_step.
  cbn [bm_chunk bm_docFrequencyByTerm bm_totalChunkCount bm_averageChunkLength].
  rewrite Htok.
  destruct (decide (t = term)) as [->|Hne].
  - rewrite (proj2 (Nat.eqb_neq _ 0)) by lia.
    rewrite (proj2 (Nat.eqb_neq (get (termFrequency chunk') term) 0)) by lia.
    pose proof (idf_nonneg _ _ (Hdf term Ht)) as Hidf.
    pose proof (length_norm_pos (tokenCount (bm_chunk P)) (bm_averageChunkLength P)) as Hc.
    pose proof (saturation_mono _ (INR (get (termFrequency (bm_chunk P)) term))
                  (INR (get (termFrequency chunk') term)) Hc) as Hsat.
    apply Rplus_le_compat; [exact Hs|].
    apply Rmult_le_compat_l; [exact Hidf|].
    apply Hsat; [apply lt_0_INR; lia | apply le_INR; exact Hup].
  - rewrite (Hother t Hne).
    destruct (get (termFrequency (bm_chunk P)) t =? 0)%nat; [exact Hs | lra].
Qed.

End Monotone.

(** The chunk with the frequency of one term replaced. *)
Definition with_frequency (chunk : Chunk) (term : string) (tf : nat) : Chunk :=
  {| docPath := docPath chunk;
     accession := accession chunk;
     lineStart := lineStart chunk;
     lineEnd := lineEnd chunk;
     text := text chunk;
     tokenCount := tokenCount chunk;
     termFrequency := <[term := tf]> (termFrequency chunk) |}.

(** C5, amended. The exact value of the BM25 base score, the sum of the
    formula over the real numbers, never goes down when the frequency of a
    query term that occurs in the chunk ([tf >= 1]) is raised while the
    document frequencies, the chunk's token count, the average token count,
    the chunk count and the other term frequencies stay as they are.  (The
    doubles that the engine computes follow the exact value up to rounding
    only: see [bm25Score_tf_counterexample].) *)
Theorem bm25Score_monotone_in_tf (queryTerms : list string) (allChunks : list Chunk)
        (averageChunkLength : R) (chunk : Chunk) (term : string) (tf' : nat) :
  1 <= get (termFrequency chunk) term ->
  get (termFrequency chunk) term <= tf' ->
  (bm25Score {| bm_queryTerms := queryTerms;
                bm_chunk := chunk;
                bm_docFrequencyByTerm := docFrequency queryTerms allChunks;
                bm_totalChunkCount := length allChunks;
                bm_averageChunkLength := averageChunkLength |}
   <= bm25Score {| bm_queryTerms := queryTerms;
                   bm_chunk := with_frequency chunk term tf';
                   bm_docFrequencyByTerm := docFrequency queryTerms allChunks;
                   bm_totalChunkCount := length allChunks;
                   bm_averageChunkLength := averageChunkLength |})%R.
Proof.
  intros Hone Hup.
  apply (bm25Score_mono
           {| bm_queryTerms := queryTerms;
              bm_chunk := chunk;
              bm_docFrequencyByTerm := docFrequency queryTerms allChunks;
              bm_totalChunkCount := length allChunks;
              bm_averageChunkLength := averageChunkLength |}
           (with_frequency chunk term tf') term); cbn.
  - intros t Ht. rewrite docFrequency_get by exact Ht. apply document_frequency_le.
  - reflexivity.
  - intros t Hne. unfold get. now rewrite lookup_insert_ne.
  - exact Hone.
  - unfold get at 2. rewrite lookup_insert_eq. exact Hup.
Qed.

Lemma bm25Score_monotone_in_tf_witness :
  (bm25Score {| bm_queryTerms := ["board"; "resigned"];
                bm_chunk := sample_chunk;
                bm_docFrequencyByTerm :=
                  docFrequency ["board"; "resigned"] (flat_map d_chunks sample_docs);
                bm_totalChunkCount := length (flat_map d_chunks sample_docs);
                bm_averageChunkLength := 5 |}
   <= bm25Score {| bm_queryTerms := ["board"; "resigned"];
                   bm_chunk := with_frequency sample_chunk "board" 3;
                   bm_docFrequencyByTerm :=
                     docFrequency ["board"; "resigned"] (flat_map d_chunks sample_docs);
                   bm_totalChunkCount := length (flat_map d_chunks sample_docs);
                   bm_averageChunkLength := 5 |})%R.
Proof.
  apply bm25Score_monotone_in_tf; vm_compute; lia.
Defined.

(** **** In double precision *)

Section DoublePrecision.
Import Floats.
#[local] Set Warnings "-inexact-float".
Local Open Scope float_scope.

(** A corpus of two chunks, of 134217727 and 134217726 tokens, and one query
    term, which occurs [tf] times in the first chunk and not in the second:
    [N = 2], [df = 1], the average token count is 134217726.5, and
    [Math.log] is called on [1 + 1.5 / 1.5], which is 2. *)
Definition heavy_params (tf : float) : Doubles.Bm25Params64 :=
  {| Doubles.bm64_queryTerms := ["risk"%string];
     Doubles.bm64_chunk :=
       {| Doubles.termFrequency64 := {["risk"%string := tf]};
          Doubles.tokenCount64 := 134217727 |};
     Doubles.bm64_docFrequencyByTerm := {["risk"%string := 1]};
     Doubles.bm64_totalChunkCount := 2;
     Doubles.bm64_averageChunkLength := 134217726.5 |}.

(** A logarithm that is [ln2] at 2, and not a number elsewhere. *)
Definition log_with (ln2 x : float) : float := if x =? 2 then ln2 else nan.

(** The double nearest to the natural logarithm of 2, which is what
    [Math.log(2)] is in V8, and the four doubles next to it on either
    side. *)
Definition ln2_candidates : list float :=
  let ln2 := 0.6931471805599453 in
  [next_down (next_down (next_down (next_down ln2)));
   next_down (next_down (next_down ln2));
   next_down (next_down ln2);
   next_down ln2;
   ln2;
   next_up ln2;
   next_up (next_up ln2);
   next_up (next_up (next_up ln2));
   next_up (next_up (next_up (next_up ln2)))].

(** C5, as stated, fails of the score that the engine computes: with the
    term 134217727 times in the first chunk instead of 134217726 times, all
    other inputs the same, [bm25Score] returns a smaller double
    (1.5249237835979983 instead of 1.5249237835979987 when [Math.log(2)] is
    0.6931471805599453), whichever of the nine doubles around the logarithm
    of 2 [Math.log] returns. *)
Lemma bm25Score_tf_counterexample :
  Forall (fun ln2 =>
            (Doubles.bm25Score (log_with ln2) (heavy_params 134217727)
             <? Doubles.bm25Score (log_with ln2) (heavy_params 134217726)) = true)
         ln2_candidates /\
  Doubles.bm25Score (log_with 0.6931471805599453) (heavy_params 134217726)
  = 1.5249237835979987 /\
  Doubles.bm25Score (log_with 0.6931471805599453) (heavy_params 134217727)
  = 1.5249237835979983.
Proof.
  split; [|split]; [|vm_compute; reflexivity ..].
  repeat constructor; vm_compute; reflexivity.
Qed.

End DoublePrecision.

(** *** Queries without terms *)

Definition empty_result (query : string) (docs : list Doc) : SearchData :=
  {| sd_query := query;
     sd_query_terms := None;
     sd_docs := map doc_summary docs;
     sd_chunk_count := None;
     sd_result_count := 0;
     sd_results := [] |}.

Definition blank_fs : fs :=
  <["/corpus/blank.md" := File (String "010" "  ")]>
    (<["/corpus/a.md" := File sample_document]> ∅).

Definition punctuation_query (docPaths : list string) : SearchParams :=
  {| s_query := "?!";
     s_docPaths := docPaths;
     s_topK := 8;
     s_chunkLines := 40;
     s_chunkOverlap := 10 |}.

(** C2, as stated, fails: the query ["?!"] has no query terms, and over a
    document without text the ranking returns the empty result set instead
    of a validation error. *)
Lemma empty_terms_empty_corpus_counterexample :
  ~ (forall (σ : fs) (params : SearchParams),
        buildQueryTerms (trim (s_query params)) = [] ->
        exists message,
          runLexicalSearch σ params = Err (CLIError VALIDATION_ERROR message)).
Proof.
  intros H.
  destruct (H blank_fs (punctuation_query ["/corpus/blank.md"])) as [m Hm].
  - vm_compute. reflexivity.
  - vm_compute in Hm. discriminate Hm.
Qed.

(** C2, amended. For a query whose query terms are empty and documents that
    load: the ranking fails with a validation error whenever the candidate
    chunk set is not empty, and also whenever the query is blank or the
    overlap is not below the window size; otherwise (candidate chunk set
    empty) it returns the empty result set, because the check of the
    candidate set comes before the check of the query terms. *)
Theorem empty_query_terms_outcome (σ : fs) (params : SearchParams) (docs : list Doc) :
  buildQueryTerms (trim (s_query params)) = [] ->
  loadDocs σ params = Ok docs ->
  (flat_map d_chunks docs <> [] \/ trim (s_query params) = EmptyString
   \/ s_chunkLines params <= s_chunkOverlap params ->
   exists message, runLexicalSearch σ params = Err (CLIError VALIDATION_ERROR message)) /\
  (flat_map d_chunks docs = [] -> trim (s_query params) <> EmptyString ->
   s_chunkOverlap params < s_chunkLines params ->
   runLexicalSearch σ params = Ok (empty_result (trim (s_query params)) docs)).
Proof.
  intros Hterms Hload. unfold runLexicalSearch. rewrite Hload, Hterms. cbn.
  destruct (String.length (trim (s_query params)) =? 0) eqn:Hq.
  { split; [eauto|]. intros _ Hne. apply Nat.eqb_eq, length_zero_iff in Hq. contradiction. }
  destruct (s_chunkLines params <=? s_chunkOverlap params) eqn:Hov.
  { split; [eauto|]. intros _ _ Hlt. apply Nat.leb_le in Hov. lia. }
  apply Nat.eqb_neq in Hq. apply Nat.leb_gt in Hov.
  destruct (flat_map d_chunks docs) as [|c cs] eqn:Hchunks; cbn.
  - split; [|reflexivity].
    intros [Hne|[Hblank|Hle]]; [contradiction | | lia].
    rewrite Hblank in Hq. contradiction.
  - split; [eauto|]. discriminate.
Qed.

Lemma empty_query_terms_outcome_witness :
  (exists message,
      runLexicalSearch blank_fs (punctuation_query ["/corpus/a.md"])
      = Err (CLIError VALIDATION_ERROR message)) /\
  (exists docs,
      runLexicalSearch blank_fs (punctuation_query ["/corpus/blank.md"])
      = Ok (empty_result "?!" docs)).
Proof.
  split.
  - refine (proj1 (empty_query_terms_outcome blank_fs (punctuation_query ["/corpus/a.md"])
                     (match loadDocs blank_fs (punctuation_query ["/corpus/a.md"]) with
                      | Ok docs => docs
                      | Err _ => []
                      end) _ _) _).
    + vm_compute. reflexivity.
    + vm_compute. reflexivity.
    + left. vm_compute. discriminate.
  - eexists.
    refine (proj2 (empty_query_terms_outcome blank_fs (punctuation_query ["/corpus/blank.md"])
                     _ _ _) _ _ _).
    + vm_compute. reflexivity.
    + vm_compute. reflexivity.
    + vm_compute. reflexivity.
    + vm_compute. discriminate.
    + vm_compute. lia.
Defined.

(** *** The stable sort *)

Lemma StronglySorted_weaken {A} (R R' : A -> A -> Prop) (l : list A) :
  (forall a b, R a b -> R' a b) -> StronglySorted R l -> StronglySorted R' l.
Proof.
  intros Himp. induction 1 as [|x l _ IH Hx]; constructor; [exact IH|].
  eapply Forall_impl; [exact Hx | auto].
Qed.

Lemma StronglySorted_lookup {A} (R : A -> A -> Prop) (l : list A) (i j : nat) (a b : A) :
  StronglySorted R l -> l !! i = Some a -> l !! j = Some b -> i < j -> R a b.
Proof.
  intros Hs. revert i j. induction Hs as [|x l _ IH Hx]; intros i j Hi Hj Hlt.
  - discriminate.
  - destruct j as [|j]; [lia|]. destruct i as [|i]; simpl in *.
    + injection Hi as <-. rewrite Forall_forall in Hx. apply Hx.
      eapply list_elem_of_lookup_2; eauto.
    + apply (IH i j); [assumption | assumption | lia].
Qed.

Section SortFacts.
Context {A : Type} (keeps : A -> A -> bool).

Lemma insert_sorted_perm (x : A) (l : list A) :
  JsArray.insert_sorted keeps x l ≡ₚ x :: l.
Proof.
  induction l as [|y l IH]; simpl; [reflexivity|].
  destruct (keeps x y); [reflexivity|].
  rewrite IH. apply Permutation_swap.
Qed.

Lemma sort_perm (l : list A) : JsArray.sort keeps l ≡ₚ l.
Proof.
  induction l as [|x l IH]; simpl; [reflexivity|].
  rewrite insert_sorted_perm. now rewrite IH.
Qed.

(** Stability: elements that the comparator ties pairwise keep their
    relative order. *)
Lemma insert_sorted_stable (P : A -> Prop) `{!forall x, Decision (P x)}
      (x : A) (l : list A) :
  (forall a b, P a -> P b -> keeps a b = true) ->
  filter P (JsArray.insert_sorted keeps x l) = filter P (x :: l).
Proof.
  intros Htie. induction l as [|y l IH]; simpl; [reflexivity|].
  destruct (keeps x y) eqn:Hxy; [reflexivity|].
  rewrite filter_cons, IH, !filter_cons.
  destruct (decide (P x)) as [Hx|Hx]; destruct (decide (P y)) as [Hy|Hy];
    try reflexivity.
  rewrite (Htie x y Hx Hy) in Hxy. discriminate.
Qed.

Lemma sort_stable (P : A -> Prop) `{!forall x, Decision (P x)} (l : list A) :
  (forall a b, P a -> P b -> keeps a b = true) ->
  filter P (JsArray.sort keeps l) = filter P l.
Proof.
  intros Htie. induction l as [|x l IH]; simpl; [reflexivity|].
  rewrite insert_sorted_stable by exact Htie.
  now rewrite !filter_cons, IH.
Qed.

Hypothesis keeps_total : forall a b, keeps a b = false -> keeps b a = true.
Hypothesis keeps_trans : forall a b c, keeps a b = true -> keeps b c = true -> keeps a c = true.

Lemma insert_sorted_sorted (x : A) (l : list A) :
  StronglySorted (fun a b => keeps a b = true) l ->
  StronglySorted (fun a b => keeps a b = true) (JsArray.insert_sorted keeps x l).
Proof.
  induction 1 as [|y l Hs IH Hy]; simpl; [repeat constructor|].
  destruct (keeps x y) eqn:Hxy.
  - constructor; [now constructor|].
    constructor; [exact Hxy|].
    rewrite Forall_forall in Hy |- *. intros z Hz. eauto.
  - constructor; [exact IH|].
    rewrite insert_sorted_perm. constructor; [now apply keeps_total | exact Hy].
Qed.

Lemma sort_sorted (l : list A) :
  StronglySorted (fun a b => keeps a b = true) (JsArray.sort keeps l).
Proof.
  induction l as [|x l IH]; simpl; [constructor | now apply insert_sorted_sorted].
Qed.

End SortFacts.

Lemma by_score_desc_spec (a b : Scored) :
  by_score_desc a b = true <-> (sc_score b <= sc_score a)%R.
Proof.
  unfold by_score_desc. rewrite bool_decide_eq_true. split; intros H; lra.
Qed.

(** The pipeline [.filter(...).sort(...).slice(0, topK)] over scored
    chunks, whatever their scores. *)
Lemma rankScored_spec (topK : nat) (scored : list Scored) :
  let survivors := filter (fun item => (0 < sc_score item)%R) scored in
  (forall item, item ∈ survivors <-> item ∈ scored /\ (0 < sc_score item)%R) /\
  exists ranked,
    ranked ≡ₚ survivors /\
    StronglySorted (fun x y => (sc_score y <= sc_score x)%R) ranked /\
    (forall s, filter (fun it => sc_score it = s) ranked
               = filter (fun it => sc_score it = s) survivors) /\
    rankScored topK scored = take topK ranked /\
    length (rankScored topK scored) <= topK.
Proof.
  intros survivors.
  split; [intros item; subst survivors; rewrite list_elem_of_filter; tauto|].
  exists (JsArray.sort by_score_desc survivors).
  split; [apply sort_perm|].
  split.
  { eapply StronglySorted_weaken; [|apply sort_sorted].
    - intros a b. apply by_score_desc_spec.
    - intros a b Hab. apply by_score_desc_spec.
      destruct (by_score_desc a b) eqn:E; [discriminate|].
      apply not_true_iff_false in E. rewrite by_score_desc_spec in E. lra.
    - intros a b c. rewrite !by_score_desc_spec. lra. }
  split.
  { intros s. apply sort_stable. intros a b Ha Hb.
    apply by_score_desc_spec. rewrite Ha, Hb. lra. }
  split; [reflexivity|].
  unfold rankScored. rewrite length_take. lia.
Qed.

Lemma scoreChunks_computed_chunks
      (computed : list string -> list string -> list Chunk -> Chunk -> R)
      (queryTerms queryBigrams : list string) (allChunks : list Chunk) :
  map sc_chunk (scoreChunks_computed computed queryTerms queryBigrams allChunks) = allChunks.
Proof.
  unfold scoreChunks_computed. rewrite map_map. simpl. apply map_id.
Qed.

(** With the exact scores the search is [runLexicalSearch]. *)
Lemma runLexicalSearch_exact (σ : fs) (params : SearchParams) :
  runLexicalSearch_computed exact_score σ params = runLexicalSearch σ params.
Proof. reflexivity. Qed.

(** *** Scores rounded to six decimals *)

Section Rounding.
Local Open Scope R_scope.

Lemma Int_part_mono (x y : R) : x <= y -> (Int_part x <= Int_part y)%Z.
Proof.
  intros Hxy.
  destruct (base_Int_part x) as [Hx _]. destruct (base_Int_part y) as [_ Hy].
  apply Z.lt_succ_r, lt_IZR. rewrite succ_IZR. lra.
Qed.


Lemma pow_10_21 : 10 ^ 21 * 1000000 = IZR (10 ^ 27).
Proof.
  change (10 ^ 27)%Z with (10 ^ Z.of_nat 27)%Z. rewrite <- pow_IZR. simpl. lra.
Qed.

(** Rounding keeps the order of scores that are not negative. *)
Lemma toFixed6_mono (x y : R) : 0 <= x -> x <= y -> toFixed6 x <= toFixed6 y.
Proof.
  intros Hx Hxy. unfold toFixed6.
  rewrite !Rabs_pos_eq by lra.
  destruct (decide (10 ^ 21 <= x)) as [Hbx|Hbx];
    destruct (decide (10 ^ 21 <= y)) as [Hby|Hby]; try lra.
  - rewrite decide_False by lra.
    destruct (base_Int_part (x * 1000000 + / 2)) as [Hle _].
    assert (Hn : (Int_part (x * 1000000 + / 2) <= 10 ^ 27)%Z).
    { apply Z.lt_succ_r, lt_IZR. rewrite succ_IZR, <- pow_10_21. lra. }
    apply IZR_le in Hn. rewrite <- pow_10_21 in Hn. lra.
  - rewrite !decide_False by lra.
    pose proof (Int_part_mono (x * 1000000 + / 2) (y * 1000000 + / 2) ltac:(lra)) as H.
    apply IZR_le in H. lra.
Qed.



(** A rounded score is within half a millionth of the score. *)
Lemma toFixed6_near (x : R) : 0 <= x -> Rabs (toFixed6 x - x) <= / 2000000.
Proof.
  intros Hx. unfold toFixed6. rewrite (Rabs_pos_eq x) by lra.
  destruct (decide (10 ^ 21 <= x)).
  - replace (x - x) with 0 by lra. rewrite Rabs_R0. lra.
  - rewrite decide_False by lra.
    destruct (base_Int_part (x * 1000000 + / 2)) as [Hle Hgt].
    apply Rabs_le. lra.
Qed.

End Rounding.

(** *** The discovery order of the chunks *)

Lemma chunk_loop_starts path acc lines chunkLines chunkOverlap i :
  Forall (fun c => i < lineStart c) (chunk_loop path acc lines chunkLines chunkOverlap i) /\
  StronglySorted (fun a b => lineStart a < lineStart b)
                 (chunk_loop path acc lines chunkLines chunkOverlap i).
Proof.
  funelim (chunk_loop path acc lines chunkLines chunkOverlap i).
  - clear Heqcall. destruct H as [Hall Hsorted].
    assert (Hnext : Forall (fun c => lineIdx < lineStart c)
                           (chunk_loop path acc lines chunkLines chunkOverlap
                                       (lineIdx + step chunkLines chunkOverlap))).
    { eapply Forall_impl; [exact Hall|]. intros c Hc. cbv beta in Hc. lia. }
    assert (Hafter : Forall (fun c => lineStart (chunk_at path acc lines chunkLines lineIdx)
                                      < lineStart c)
                            (chunk_loop path acc lines chunkLines chunkOverlap
                                        (lineIdx + step chunkLines chunkOverlap))).
    { eapply Forall_impl; [exact Hall|]. intros c Hc. cbv beta in Hc.
      cbn [lineStart chunk_at]. unfold step in *. lia. }
    repeat case_match; split; repeat constructor; try assumption;
      cbn [lineStart chunk_at]; lia.
  - split; constructor.
Qed.

Lemma chunkDocument_lineStart_increasing (params : ChunkParams) :
  StronglySorted (fun a b => lineStart a < lineStart b) (chunkDocument params).
Proof. apply chunk_loop_starts. Qed.

Lemma loadDocs_provenance (σ : fs) (params : SearchParams) (docs : list Doc) :
  loadDocs σ params = Ok docs ->
  map d_path docs = s_docPaths params /\
  Forall (fun doc => StronglySorted (fun a b => lineStart a < lineStart b) (d_chunks doc))
         docs.
Proof.
  intros H%mapM_result_Forall2.
  induction H as [|p d ps ds Hd _ [IHp IHs]]; simpl; [split; constructor|].
  unfold mbind, result_bind in Hd.
  destruct (ensureReadableTextFile σ p); [|discriminate].
  injection Hd as <-. simpl. split; [now f_equal|].
  constructor; [apply chunkDocument_lineStart_increasing | exact IHs].
Qed.

Section ComputedSearch.
Variable computed : list string -> list string -> list Chunk -> Chunk -> R.

Lemma runLexicalSearch_results (σ : fs) (params : SearchParams) (data : SearchData) :
  runLexicalSearch_computed computed σ params = Ok data ->
  exists docs,
    loadDocs σ params = Ok docs /\
    sd_results data
    = imap toRow
        (rankScored (s_topK params)
           (scoreChunks_computed computed
              (buildQueryTerms (trim (s_query params)))
              (buildQueryBigrams (buildQueryTerms (trim (s_query params))))
              (flat_map d_chunks docs))).
Proof.
  unfold runLexicalSearch_computed.
  destruct (String.length (trim (s_query params)) =? 0); cbv iota; [discriminate|].
  destruct (s_chunkLines params <=? s_chunkOverlap params); cbv iota; [discriminate|].
  destruct (loadDocs σ params) as [docs|e]; cbn [mbind result_bind]; [|discriminate].
  cbv zeta.
  destruct (flat_map d_chunks docs) as [|c cs] eqn:Hchunks; cbn [length Nat.eqb].
  - intros [= <-]. exists docs. split; [reflexivity|]. rewrite Hchunks.
    destruct (s_topK params); reflexivity.
  - destruct (length (buildQueryTerms (trim (s_query params))) =? 0); [discriminate|].
    intros [= <-]. exists docs. split; [reflexivity|]. now rewrite Hchunks.
Qed.

(** When nothing stops the search, it returns the ranked chunks. *)
Lemma runLexicalSearch_success (σ : fs) (params : SearchParams) (docs : list Doc) :
  (String.length (trim (s_query params)) =? 0) = false ->
  (s_chunkLines params <=? s_chunkOverlap params) = false ->
  loadDocs σ params = Ok docs ->
  (length (flat_map d_chunks docs) =? 0) = false ->
  (length (buildQueryTerms (trim (s_query params))) =? 0) = false ->
  exists data, runLexicalSearch_computed computed σ params = Ok data.
Proof.
  intros Hq Hov Hload Hchunks Hterms. unfold runLexicalSearch_computed.
  rewrite Hq, Hov, Hload. cbn [mbind result_bind]. cbv zeta.
  rewrite Hchunks, Hterms. eauto.
Qed.

End ComputedSearch.

(** C4. In the result of a search the chunks are taken in discovery order
    (the documents in the order of their paths, the chunks of a document by
    increasing first line); after scoring, the chunks with an adjusted score
    of 0 or less are discarded; the others are put in descending score order,
    chunks of equal score staying in discovery order; and the results are the
    first [top_k] of them at most.  The scores are those that the engine has
    computed, [computed], whatever its arithmetic has made of the formula:
    the order is the order of these numbers, and a tie is a tie of these.
    The scores shown in the rows, rounded to six decimals, do not increase
    along the list. *)
Theorem lexical_search_ranking
        (computed : list string -> list string -> list Chunk -> Chunk -> R)
        (σ : fs) (params : SearchParams) (data : SearchData) :
  runLexicalSearch_computed computed σ params = Ok data ->
  exists docs ranked,
    loadDocs σ params = Ok docs /\
    map d_path docs = s_docPaths params /\
    Forall (fun doc => StronglySorted (fun a b => lineStart a < lineStart b)
                                      (d_chunks doc)) docs /\
    let queryTerms := buildQueryTerms (trim (s_query params)) in
    let scored :=
      scoreChunks_computed computed queryTerms (buildQueryBigrams queryTerms)
                           (flat_map d_chunks docs) in
    let survivors := filter (fun item => (0 < sc_score item)%R) scored in
    map sc_chunk scored = flat_map d_chunks docs /\
    (forall item, item ∈ survivors <-> item ∈ scored /\ (0 < sc_score item)%R) /\
    ranked ≡ₚ survivors /\
    StronglySorted (fun x y => (sc_score y <= sc_score x)%R) ranked /\
    (forall s, filter (fun it => sc_score it = s) ranked
               = filter (fun it => sc_score it = s) survivors) /\
    sd_results data = imap toRow (take (s_topK params) ranked) /\
    length (sd_results data) <= s_topK params /\
    (forall i j a b,
        sd_results data !! i = Some a -> sd_results data !! j = Some b -> i < j ->
        (r_score b <= r_score a)%R).
Proof.
  intros Hrun.
  destruct (runLexicalSearch_results computed σ params data Hrun) as (docs & Hload & Hres).
  destruct (loadDocs_provenance σ params docs Hload) as [Hpaths Hlines].
  destruct (rankScored_spec (s_topK params)
              (scoreChunks_computed computed
                 (buildQueryTerms (trim (s_query params)))
                 (buildQueryBigrams (buildQueryTerms (trim (s_query params))))
                 (flat_map d_chunks docs)))
    as (Hsurv & ranked & Hperm & Hsorted & Hstable & Htake & Hlen).
  exists docs, ranked.
  split; [exact Hload|]. split; [exact Hpaths|]. split; [exact Hlines|].
  cbv zeta.
  split; [apply scoreChunks_computed_chunks|]. split; [exact Hsurv|].
  split; [exact Hperm|]. split; [exact Hsorted|]. split; [exact Hstable|].
  rewrite Hres, length_imap, Htake. split; [reflexivity|].
  split; [rewrite <- Htake; exact Hlen|].
  intros i j a b Ha Hb Hlt. rewrite list_lookup_imap in Ha, Hb.
  destruct (take (s_topK params) ranked !! i) as [x|] eqn:Hx; [|discriminate].
  destruct (take (s_topK params) ranked !! j) as [y|] eqn:Hy; [|discriminate].
  injection Ha as <-. injection Hb as <-. cbn [toRow r_score].
  apply lookup_take_Some in Hx as [Hx _]. apply lookup_take_Some in Hy as [Hy _].
  pose proof (StronglySorted_lookup _ _ i j x y Hsorted Hx Hy Hlt) as Hle.
  apply toFixed6_mono; [|exact Hle].
  apply list_elem_of_lookup_2 in Hy. rewrite Hperm in Hy. apply Hsurv in Hy. lra.
Qed.

Lemma lexical_search_ranking_witness :
  exists data,
    runLexicalSearch sample_fs sample_search = Ok data /\
    length (sd_results data) <= 8.
Proof.
  destruct (runLexicalSearch_success exact_score sample_fs sample_search sample_docs)
    as [data Hdata]; try (vm_compute; reflexivity).
  exists data. split; [exact Hdata|].
  destruct (lexical_search_ranking exact_score sample_fs sample_search data Hdata)
    as (docs & ranked & _ & _ & _ & _ & _ & _ & _ & _ & _ & Hlen & _).
  exact Hlen.
Defined.


(** *** Reading a cached manifest *)

(** The structural requirements on a manifest, in the words of the
    specification: an object whose version tag is 1, whose entity id ([cik])
    is a string, and whose [docs] is a list of descriptors that each carry a
    path and an accession. *)
Definition manifest_well_shaped (value : json) : bool :=
  match value with
  | JObj _ =>
      is_one (prop value "version")
      && typeof_string (prop value "cik")
      && match prop value "docs" with
         | Some (JArr docs) =>
             forallb (fun doc => match doc with
                                 | JObj _ => typeof_string (prop doc "path")
                                             && typeof_string (prop doc "accession")
                                 | _ => false
                                 end) docs
         | _ => false
         end
  | _ => false
  end.

Lemma docs_well_shaped_spec (docs : list json) :
  docs_well_shaped docs
  = forallb (fun doc => match doc with
                        | JObj _ => typeof_string (prop doc "path")
                                    && typeof_string (prop doc "accession")
                        | _ => false
                        end) docs.
Proof.
  unfold docs_well_shaped. induction docs as [|doc docs IH]; [reflexivity|].
  simpl. rewrite IH. f_equal.
  destruct doc as [| [|] | n | m e | s | items | members]; simpl; try reflexivity.
  - now rewrite andb_false_r.
  - now rewrite andb_false_r.
  - now rewrite andb_false_r.
Qed.

Lemma parseCachedManifest_spec (value : json) :
  parseCachedManifest value
  = if manifest_well_shaped value then Ok value else Err malformed.
Proof.
  unfold parseCachedManifest, manifest_well_shaped.
  destruct value as [| [|] | n | m e | s | items | members]; simpl; try reflexivity.
  - now destruct (negb (n =? 0)%Z).
  - now destruct (negb (rounds_to_zero m e)).
  - now destruct (negb (String.length s =? 0)).
  - destruct (lookup_last "docs" members) as [[| | | | | docs |]|]; simpl;
      try (now rewrite ?andb_false_r).
    rewrite docs_well_shaped_spec.
    destruct (is_one (lookup_last "version" members)); simpl; [|reflexivity].
    destruct (typeof_string (lookup_last "cik" members)); simpl; [|reflexivity].
    now destruct (forallb _ docs).
Qed.

Definition wrong_version_manifest : json :=
  JObj [("version", JNum 2); ("cik", JStr "0000320193"); ("profile", JStr "core");
        ("docs", JArr [])].

Definition wrong_version_fs : fs :=
  {[ profileManifestPath "/cache" "0000320193" core
     := File (JSON_stringify wrong_version_manifest +:+ NL) ]}.

(** C7, as stated, fails: a manifest file that is well-formed JSON with
    version tag 2 is refused with the code [PARSE_ERROR], not with
    [VALIDATION_ERROR]. *)
Lemma wrong_version_counterexample :
  JSON_parse (JSON_stringify wrong_version_manifest +:+ NL) = Some wrong_version_manifest /\
  readCachedManifest wrong_version_fs "/cache" "0000320193" core
  = Err (CLIError PARSE_ERROR "Cached manifest is malformed") /\
  ~ (exists message,
        readCachedManifest wrong_version_fs "/cache" "0000320193" core
        = Err (CLIError VALIDATION_ERROR message)).
Proof.
  split; [vm_compute; reflexivity|].
  split; [vm_compute; reflexivity|].
  intros [m Hm]. vm_compute in Hm. discriminate Hm.
Qed.

(** C7, amended. Reading a cached manifest whose file is well-formed JSON
    but not of the required shape (a wrong version tag, a [cik] that is
    missing, a [docs] entry without a path or an accession) fails with the
    code [PARSE_ERROR] and the message "Cached manifest is malformed": the
    code that is also used, with another message, for a file that is not
    JSON.  A file that is JSON of the required shape is returned, and no
    file that can be read makes the reading fail with [VALIDATION_ERROR].
    The version tag is compared as a number: [1.0] and [10e-1] are 1. *)
Theorem malformed_manifest_is_parse_error
        (σ : fs) (cacheRoot cik : string) (profile : ResearchProfile) (raw : string) :
  readFile σ (profileManifestPath cacheRoot cik profile) = Ok raw ->
  (forall value,
      JSON_parse raw = Some value -> manifest_well_shaped value = false ->
      readCachedManifest σ cacheRoot cik profile
      = Err (CLIError PARSE_ERROR "Cached manifest is malformed")) /\
  (forall value,
      JSON_parse raw = Some value -> manifest_well_shaped value = true ->
      readCachedManifest σ cacheRoot cik profile = Ok (Some value)) /\
  (JSON_parse raw = None -> wide_escape raw = false ->
   readCachedManifest σ cacheRoot cik profile
   = Err (CLIError PARSE_ERROR
            ("Cached manifest is not valid JSON: "
             +:+ profileManifestPath cacheRoot cik profile))) /\
  (forall message,
      readCachedManifest σ cacheRoot cik profile
      <> Err (CLIError VALIDATION_ERROR message)).
Proof.
  intros Hread. unfold readCachedManifest. rewrite Hread.
  split; [|split; [|split]].
  - intros value -> Hshape. rewrite parseCachedManifest_spec, Hshape. reflexivity.
  - intros value -> Hshape. rewrite parseCachedManifest_spec, Hshape. reflexivity.
  - intros -> _. reflexivity.
  - intros message. destruct (JSON_parse raw) as [value|]; [|discriminate].
    rewrite parseCachedManifest_spec.
    destruct (manifest_well_shaped value); discriminate.
Qed.

(** A manifest whose version tag is the number 1.5, printed [15e-1], and
    one whose only flaw is a descriptor without a path. *)
Definition fraction_version_manifest : json :=
  JObj [("version", JDec 15 (-1)); ("cik", JStr "0000320193"); ("profile", JStr "core");
        ("docs", JArr [])].

Definition missing_path_manifest : json :=
  JObj [("version", JNum 1); ("cik", JStr "0000320193"); ("profile", JStr "core");
        ("docs", JArr [JObj [("accession", JStr "0000320193-26-000111")]])].

Definition manifest_file (value : json) : fs :=
  {[ profileManifestPath "/cache" "0000320193" core
     := File (JSON_stringify value +:+ NL) ]}.

Lemma malformed_manifest_is_parse_error_witness :
  readCachedManifest (manifest_file fraction_version_manifest) "/cache" "0000320193" core
  = Err (CLIError PARSE_ERROR "Cached manifest is malformed") /\
  readCachedManifest (manifest_file missing_path_manifest) "/cache" "0000320193" core
  = Err (CLIError PARSE_ERROR "Cached manifest is malformed").
Proof.
  split.
  - refine (proj1 (malformed_manifest_is_parse_error _ "/cache" "0000320193" core
                     (JSON_stringify fraction_version_manifest +:+ NL) _)
                  fraction_version_manifest _ _).
    + vm_compute. reflexivity.
    + vm_compute. reflexivity.
    + vm_compute. reflexivity.
  - refine (proj1 (malformed_manifest_is_parse_error _ "/cache" "0000320193" core
                     (JSON_stringify missing_path_manifest +:+ NL) _)
                  missing_path_manifest _ _).
    + vm_compute. reflexivity.
    + vm_compute. reflexivity.
    + vm_compute. reflexivity.
Defined.

(** *** The selection of filings *)

(** The entry of an accession in the selection. *)
Definition selected_get (selected : list (string * FilingRow)) (accession : string)
  : option FilingRow :=
  snd <$> List.find (fun entry => String.eqb (fst entry) accession) selected.

(** The first row of a list that has the accession. *)
Definition first_with (accession : string) (rows : list FilingRow) : option FilingRow :=
  List.find (fun row => String.eqb (row_accession row) accession) rows.

Lemma has_get (selected : list (string * FilingRow)) (accession : string) :
  has selected accession = true <-> is_Some (selected_get selected accession).
Proof.
  unfold has, selected_get.
  induction selected as [|[k r] sel IH]; simpl.
  - split; [discriminate | intros [x Hx]; discriminate].
  - destruct (String.eqb k accession); simpl; [split; eauto|exact IH].
Qed.

Lemma has_elem (selected : list (string * FilingRow)) (accession : string) :
  has selected accession = true <-> accession ∈ map fst selected.
Proof.
  unfold has. induction selected as [|[k r] sel IH]; simpl.
  - split; [discriminate | intros H; inversion H].
  - rewrite orb_true_iff, IH, elem_of_cons, String.eqb_eq. split; intros [H|H]; auto.
Qed.

Lemma selected_get_app (sel : list (string * FilingRow)) (k : string) (r : FilingRow)
      (accession : string) :
  selected_get (sel ++ [(k, r)]) accession
  = match selected_get sel accession with
    | Some x => Some x
    | None => if String.eqb k accession then Some r else None
    end.
Proof.
  unfold selected_get. induction sel as [|[k' r'] sel IH]; simpl.
  - now destruct (String.eqb k accession).
  - destruct (String.eqb k' accession); [reflexivity | exact IH].
Qed.

(** Well-formed selections: the keys are distinct and every entry is filed
    under its own accession. *)
Definition selection_ok (selected : list (string * FilingRow)) : Prop :=
  NoDup (map fst selected) /\ Forall (fun entry => fst entry = row_accession (snd entry)) selected.

Lemma select_rows_spec (rows : list FilingRow) (selected : list (string * FilingRow)) :
  selection_ok selected ->
  selection_ok (select_rows selected rows) /\
  forall accession,
    selected_get (select_rows selected rows) accession
    = match selected_get selected accession with
      | Some row => Some row
      | None => first_with accession rows
      end.
Proof.
  revert selected. induction rows as [|row rows IH]; intros selected Hok; simpl.
  - split; [exact Hok|]. intros a. now destruct (selected_get selected a).
  - destruct (has selected (row_accession row)) eqn:Hhas.
    + destruct (IH selected Hok) as [Hok' Hget]. split; [exact Hok'|].
      intros a. rewrite Hget. unfold first_with. simpl.
      destruct (selected_get selected a) eqn:Hsel; [reflexivity|].
      destruct (String.eqb (row_accession row) a) eqn:Heq; [|reflexivity].
      apply String.eqb_eq in Heq. subst a.
      apply has_get in Hhas. rewrite Hsel in Hhas. destruct Hhas; discriminate.
    + assert (Hok1 : selection_ok (selected ++ [(row_accession row, row)])).
      { destruct Hok as [Hnd Hkeys]. split.
        - rewrite map_app. simpl. apply NoDup_app. split; [exact Hnd|].
          split; [|apply NoDup_singleton].
          intros k Hk [->|H]%elem_of_cons; [|inversion H].
          apply has_elem in Hk. congruence.
        - apply Forall_app. split; [exact Hkeys | now repeat constructor]. }
      destruct (IH _ Hok1) as [Hok' Hget]. split; [exact Hok'|].
      intros a. rewrite Hget, selected_get_app. unfold first_with. simpl.
      destruct (selected_get selected a); [reflexivity|].
      now destruct (String.eqb (row_accession row) a).
Qed.

Section SelectRules.
Variable W : Collaborators.

(** The catalog query of one rule. *)
Definition rule_rows (cik : string) (rule : SyncRule) : result (list FilingRow) :=
  runFilingsList W cik (rule_form rule)
                 (dateDaysAgo W <$> truthy_days (rule_recentDays rule))
                 (rule_queryLimit rule).

Lemma select_rules_concat (cik : string) (rules : list SyncRule)
      (selected selected' : list (string * FilingRow)) :
  select_rules W cik rules selected = Ok selected' ->
  exists lists,
    Forall2 (fun rule rows => rule_rows cik rule = Ok rows) rules lists /\
    selected' = select_rows selected (concat lists).
Proof.
  revert selected. induction rules as [|rule rules IH]; intros selected; simpl.
  - intros [= <-]. exists []. split; [constructor | reflexivity].
  - unfold mbind, result_bind.
    destruct (runFilingsList W cik (rule_form rule) _ (rule_queryLimit rule))
      as [rows|e] eqn:Hrows; [|discriminate].
    intros H. destruct (IH _ H) as (lists & Hall & ->).
    exists (rows :: lists). split; [constructor; [exact Hrows | exact Hall]|].
    simpl. unfold select_rows. now rewrite foldl_app.
Qed.

End SelectRules.

(** *** The order of the filing dates *)

Lemma leb_iff (s t : string) :
  String.leb s t = true <-> s = t \/ String_as_OT.lt s t.
Proof.
  unfold String.leb. rewrite <- String_as_OT.cmp_lt, <- String_as_OT.cmp_eq.
  unfold String_as_OT.cmp. destruct (String.compare s t); split; intros H;
    try discriminate; auto; destruct H; discriminate.
Qed.

Lemma leb_trans (s t u : string) :
  String.leb s t = true -> String.leb t u = true -> String.leb s u = true.
Proof.
  rewrite !leb_iff. intros [->|H1] [->|H2]; auto.
  right. eapply String_as_OT.lt_trans; eauto.
Qed.

Lemma leb_empty (s : string) : String.leb s EmptyString = true -> s = EmptyString.
Proof. destruct s; [reflexivity | discriminate]. Qed.

Lemma by_filing_date_desc_leb (a b : FilingRow) :
  by_filing_date_desc a b = String.leb (date_or_empty b) (date_or_empty a).
Proof.
  unfold by_filing_date_desc, localeCompare, String.leb.
  now destruct (String.compare (date_or_empty b) (date_or_empty a)).
Qed.

Lemma selected_get_elem (selected : list (string * FilingRow)) (row : FilingRow) :
  selection_ok selected ->
  row ∈ map snd selected <-> selected_get selected (row_accession row) = Some row.
Proof.
  unfold selected_get. induction selected as [|[k r] sel IH]; intros [Hnd Hkeys]; simpl.
  - split; [intros H; inversion H | discriminate].
  - inversion Hnd as [|? ? Hk Hnd']; subst. inversion Hkeys as [|? ? Hkr Hkeys']; subst.
    simpl in Hkr. specialize (IH (conj Hnd' Hkeys')).
    destruct (String.eqb k (row_accession row)) eqn:Heq; simpl.
    + apply String.eqb_eq in Heq. split; [|intros [= ->]; left].
      intros [->|Hin]%elem_of_cons; [reflexivity|]. exfalso. apply Hk.
      apply IH in Hin.
      destruct (List.find _ sel) as [[k' r']|] eqn:Hfind; [|discriminate].
      apply find_some in Hfind as [Hin' Hk']. simpl in Hk'. apply String.eqb_eq in Hk'.
      rewrite Heq, <- Hk'. apply list_elem_of_In in Hin'.
      now apply (list_elem_of_fmap_2 fst) in Hin'.
    + rewrite <- IH. rewrite elem_of_cons. split; [|auto].
      intros [->|H]; [|exact H].
      rewrite Hkr, String.eqb_refl in Heq. discriminate.
Qed.

Lemma selection_accessions (selected : list (string * FilingRow)) :
  selection_ok selected -> NoDup (map row_accession (map snd selected)).
Proof.
  intros [Hnd Hkeys].
  replace (map row_accession (map snd selected)) with (map fst selected); [exact Hnd|].
  rewrite map_map. apply map_ext_Forall.
  eapply Forall_impl; [exact Hkeys | auto].
Qed.

Lemma selectedRows_NoDup (W : Collaborators) (cik : string) (profile : ResearchProfile)
      (rows : list FilingRow) :
  selectedRows W cik profile = Ok rows -> NoDup (map row_accession rows).
Proof.
  unfold selectedRows, mbind, result_bind.
  destruct (select_rules W cik (PROFILE_RULES profile) []) as [sel|e] eqn:Hsel;
    [|discriminate].
  intros [= <-].
  destruct (select_rules_concat W cik _ _ _ Hsel) as (lists & _ & ->).
  assert (Hok0 : selection_ok []) by (split; constructor).
  destruct (select_rows_spec (concat lists) [] Hok0) as [Hok _].
  assert (Hp : map row_accession
                 (JsArray.sort by_filing_date_desc (map snd (select_rows [] (concat lists))))
               ≡ₚ map row_accession (map snd (select_rows [] (concat lists))))
    by apply Permutation_map, sort_perm.
  rewrite Hp. now apply selection_accessions.
Qed.

(** C8. The rules of the profile are queried in order; the selection holds,
    for every accession that some rule returned, the first row with that
    accession in the concatenation of the rule results (a later row with an
    accession that is already selected is dropped) and no accession twice.
    When the filing dates of the selected rows are written [YYYY-MM-DD]
    (or are missing or empty), as the catalog of the SEC gives them, the
    selected rows are in descending order of filing date under the
    comparison of strings by code units, a missing date counting as the
    empty string, so that rows without a date come last.  (The code
    compares with [localeCompare]; on other strings than such dates its
    order is the collation of the locale, not that of the code units.) *)
Theorem selectedRows_first_wins_sorted
        (W : Collaborators) (cik : string) (profile : ResearchProfile)
        (rows : list FilingRow) :
  selectedRows W cik profile = Ok rows ->
  exists lists,
    Forall2 (fun rule found => rule_rows W cik rule = Ok found)
            (PROFILE_RULES profile) lists /\
    NoDup (map row_accession rows) /\
    (forall row,
        row ∈ rows <-> first_with (row_accession row) (concat lists) = Some row) /\
    (Forall (fun row => dated row = true) rows ->
     StronglySorted
       (fun a b => String.leb (date_or_empty b) (date_or_empty a) = true) rows /\
     (forall i j a b,
         rows !! i = Some a -> rows !! j = Some b -> i < j ->
         row_filingDate a = None -> date_or_empty b = EmptyString)).
Proof.
  unfold selectedRows, mbind, result_bind.
  destruct (select_rules W cik (PROFILE_RULES profile) []) as [sel|e] eqn:Hsel;
    [|discriminate].
  intros [= <-].
  destruct (select_rules_concat W cik _ _ _ Hsel) as (lists & Hall & ->).
  assert (Hok0 : selection_ok []) by (split; constructor).
  destruct (select_rows_spec (concat lists) [] Hok0) as [Hok Hget].
  set (sel := select_rows [] (concat lists)) in *.
  assert (Hsorted : StronglySorted
            (fun a b => String.leb (date_or_empty b) (date_or_empty a) = true)
            (JsArray.sort by_filing_date_desc (map snd sel))).
  { apply (StronglySorted_weaken (fun a b => by_filing_date_desc a b = true));
      [|apply sort_sorted].
    - intros a b. now rewrite by_filing_date_desc_leb.
    - intros a b. rewrite !by_filing_date_desc_leb. intros Hab.
      destruct (String.leb_total (date_or_empty b) (date_or_empty a)) as [H|H];
        [congruence | exact H].
    - intros a b c. rewrite !by_filing_date_desc_leb. intros H1 H2.
      eapply leb_trans; eauto. }
  exists lists. split; [exact Hall|]. split; [|split; [|intros _; split]].
  - assert (Hp : map row_accession (JsArray.sort by_filing_date_desc (map snd sel))
                 ≡ₚ map row_accession (map snd sel))
      by apply Permutation_map, sort_perm.
    rewrite Hp. now apply selection_accessions.
  - intros row. rewrite (sort_perm by_filing_date_desc (map snd sel)).
    rewrite (selected_get_elem sel row Hok), Hget. reflexivity.
  - exact Hsorted.
  - intros i j a b Ha Hb Hlt Hnone.
    pose proof (StronglySorted_lookup _ _ i j a b Hsorted Ha Hb Hlt) as Hle.
    unfold date_or_empty at 2 in Hle. rewrite Hnone in Hle. simpl in Hle.
    now apply leb_empty.
Qed.

(** *** Paths *)

Lemma append_cancel (a x y : string) : a +:+ x = a +:+ y -> x = y.
Proof. induction a as [|c a IH]; simpl; [auto | intros [= H]; auto]. Qed.

Lemma dirname_aux_slash (a b : string) :
  dirname_aux (a +:+ String "/" b)
  = Some (a +:+ match dirname_aux b with
                | Some d => String "/" d
                | None => EmptyString
                end).
Proof.
  induction a as [|c a IH]; simpl.
  - now destruct (dirname_aux b).
  - now rewrite IH.
Qed.

(** The directory of a cached document is below [filings]. *)
Lemma dirname_filingDocPath (cacheRoot cik accession : string) :
  exists tail,
    dirname (filingDocPath cacheRoot cik accession)
    = companyCacheDir cacheRoot cik +:+ "/filings" +:+ tail.
Proof.
  unfold filingDocPath, path_join. cbn [join].
  set (P := companyCacheDir cacheRoot cik).
  change (P +:+ "/" +:+ "filings" +:+ "/" +:+ accession +:+ ".md")
    with (P +:+ String "/" ("filings" +:+ String "/" (accession +:+ ".md"))).
  unfold dirname. rewrite dirname_aux_slash, (dirname_aux_slash "filings").
  eexists. destruct P; simpl; reflexivity.
Qed.

Lemma manifest_path_not_doc (cacheRoot cik accession : string) (profile : ResearchProfile) :
  profileManifestPath cacheRoot cik profile <> filingDocPath cacheRoot cik accession.
Proof.
  unfold profileManifestPath, filingDocPath, path_join. cbn [join].
  intros H. apply append_cancel in H. discriminate H.
Qed.

Lemma manifest_path_not_doc_dir (cacheRoot cik accession : string) (profile : ResearchProfile) :
  profileManifestPath cacheRoot cik profile
  <> dirname (filingDocPath cacheRoot cik accession).
Proof.
  destruct (dirname_filingDocPath cacheRoot cik accession) as [tail ->].
  unfold profileManifestPath, path_join. cbn [join].
  intros H. apply append_cancel in H. discriminate H.
Qed.

(** *** The fetch loop *)

Section FetchLoop.
Variable W : Collaborators.
Variables cacheRoot cik : string.
Variable refresh : bool.

Local Abbreviation loop := (fetch_loop W cacheRoot cik refresh).

Lemma fetch_loop_app (pre rest : list FilingRow) (st : LoopState) :
  loop (pre ++ rest) st
  = match loop pre st with
    | (st', None) => loop rest st'
    | (st', Some e) => (st', Some e)
    end.
Proof.
  revert st. induction pre as [|row pre IH]; intros st; simpl; [reflexivity|].
  destruct (if refresh then Ok false else fileExists (ls_fs st) _) as [[|]|e];
    simpl; [apply IH | | reflexivity].
  destruct (fetch_into_cache W (ls_fs st) cik row _) as [σ' [u|e]]; [apply IH|].
  destruct (isCLIErrorWith NOT_FOUND e); [apply IH | reflexivity].
Qed.

Lemma fetch_into_cache_other (σ : fs) (row : FilingRow) (docPath p : string) :
  p <> docPath -> p <> dirname docPath ->
  fst (fetch_into_cache W σ cik row docPath) !! p = σ !! p.
Proof.
  intros Hp Hd. unfold fetch_into_cache.
  destruct (runFilingsGet W cik (row_accession row)) as [[fetched|]|e]; try reflexivity.
  unfold mkdir_recursive.
  assert (Hdir : forall σ1, mkdir_recursive σ (dirname docPath) = Ok σ1 -> σ1 !! p = σ !! p).
  { unfold mkdir_recursive. intros σ1.
    destruct (σ !! dirname docPath) as [[c| |]|]; intros [= <-]; [reflexivity|].
    now rewrite lookup_insert_ne. }
  fold (mkdir_recursive σ (dirname docPath)).
  destruct (mkdir_recursive σ (dirname docPath)) as [σ1|e]; [|reflexivity].
  specialize (Hdir σ1 eq_refl). unfold writeFile.
  destruct (σ1 !! docPath) as [[c| |]|]; simpl; try exact Hdir;
    now rewrite lookup_insert_ne.
Qed.

(** The loop writes nothing at the path of a profile manifest. *)
Lemma fetch_loop_manifest_untouched (profile : ResearchProfile)
      (rows : list FilingRow) (st : LoopState) :
  ls_fs (fst (loop rows st)) !! profileManifestPath cacheRoot cik profile
  = ls_fs st !! profileManifestPath cacheRoot cik profile.
Proof.
  revert st. induction rows as [|row rows IH]; intros st; simpl; [reflexivity|].
  destruct (if refresh then Ok false else fileExists (ls_fs st) _) as [[|]|e];
    simpl; [now rewrite IH | | reflexivity].
  pose proof (fetch_into_cache_other (ls_fs st) row
                (filingDocPath cacheRoot cik (row_accession row))
                (profileManifestPath cacheRoot cik profile)
                (manifest_path_not_doc _ _ _ _)
                (manifest_path_not_doc_dir _ _ _ _)) as Hother.
  destruct (fetch_into_cache W (ls_fs st) cik row _) as [σ' [u|e]]; simpl in Hother.
  - now rewrite IH.
  - destruct (isCLIErrorWith NOT_FOUND e); [now rewrite IH | exact Hother].
Qed.

(** What a completed loop has added to its variables. *)
Lemma fetch_loop_completed (rows : list FilingRow) (st st' : LoopState) :
  loop rows st = (st', None) ->
  exists newDocs newSkipped fetched reused,
    ls_docs st' = ls_docs st ++ newDocs /\
    ls_skipped st' = ls_skipped st ++ newSkipped /\
    ls_fetchedCount st' = ls_fetchedCount st + fetched /\
    ls_reusedCount st' = ls_reusedCount st + reused /\
    fetched + reused = length newDocs /\
    map cd_accession newDocs ++ map sk_accession newSkipped ≡ₚ map row_accession rows.
Proof.
  revert st. induction rows as [|row rows IH]; intros st; simpl.
  - intros [= <-]. exists [], [], 0, 0. rewrite !app_nil_r, !Nat.add_0_r.
    repeat split; reflexivity.
  - destruct (if refresh then Ok false else fileExists (ls_fs st) _) as [[|]|e];
      simpl; [| |discriminate].
    + intros H. destruct (IH _ H) as (nd & ns & f & r & Hd & Hs & Hf & Hr & Hn & Hp).
      simpl in *. exists (cached_doc row (filingDocPath cacheRoot cik (row_accession row)) :: nd),
             ns, f, (1 + r).
      rewrite Hd, Hs, Hf, Hr, <- app_assoc. simpl.
      repeat split; try lia. now rewrite Hp.
    + destruct (fetch_into_cache W (ls_fs st) cik row _) as [σ' [u|e]].
      * intros H. destruct (IH _ H) as (nd & ns & f & r & Hd & Hs & Hf & Hr & Hn & Hp).
        simpl in *. exists (cached_doc row (filingDocPath cacheRoot cik (row_accession row)) :: nd),
               ns, (1 + f), r.
        rewrite Hd, Hs, Hf, Hr, <- app_assoc. simpl.
        repeat split; try lia. now rewrite Hp.
      * destruct (isCLIErrorWith NOT_FOUND e); [|discriminate].
        intros H. destruct (IH _ H) as (nd & ns & f & r & Hd & Hs & Hf & Hr & Hn & Hp).
        simpl in *.
        exists nd, ({| sk_accession := row_accession row; sk_reason := exn_message e |} :: ns),
               f, r.
        rewrite Hd, Hs, Hf, Hr, <- app_assoc. simpl.
        repeat split; try lia.
        rewrite <- Hp. symmetry. apply Permutation_middle.
Qed.

End FetchLoop.

(** *** A catalog to run the orchestrator on *)

Definition row_10K : FilingRow :=
  {| row_accession := "0000320193-25-000079"; row_form := Some "10-K";
     row_filingDate := Some "2025-10-31"; row_reportDate := Some "2025-09-27";
     row_filingUrl := Some "https://www.sec.gov/Archives/a10-k.htm" |}.

Definition row_10Q_new : FilingRow :=
  {| row_accession := "0000320193-26-000006"; row_form := Some "10-Q";
     row_filingDate := Some "2026-01-30"; row_reportDate := Some "2025-12-27";
     row_filingUrl := Some "https://www.sec.gov/Archives/a10-q1.htm" |}.

Definition row_10Q_old : FilingRow :=
  {| row_accession := "0000320193-25-000073"; row_form := Some "10-Q";
     row_filingDate := Some "2025-08-01"; row_reportDate := Some "2025-06-28";
     row_filingUrl := Some "https://www.sec.gov/Archives/a10-q2.htm" |}.

Definition row_8K_undated : FilingRow :=
  {| row_accession := "0000320193-26-000011"; row_form := Some "8-K";
     row_filingDate := None; row_reportDate := None; row_filingUrl := None |}.

(** A second row under an accession that the 10-Q rule has already
    selected. *)
Definition row_8K_repeat : FilingRow :=
  {| row_accession := "0000320193-26-000006"; row_form := Some "8-K";
     row_filingDate := Some "2026-02-02"; row_reportDate := None;
     row_filingUrl := None |}.

Definition sample_entity : Entity :=
  {| e_cik := "0000320193"; e_ticker := Some "AAPL"; e_title := Some "Apple Inc." |}.

(** [failing] is the accession whose content the provider cannot deliver,
    and [failure] the exception it throws for it. *)
Definition sample_world (failing : string) (failure : exn) : Collaborators :=
  {| resolveEntity := fun id =>
       if String.eqb id "AAPL" then Ok sample_entity
       else Err (CLIError NOT_FOUND ("Unable to resolve " +:+ id));
     runFilingsList := fun cik form from queryLimit =>
       if String.eqb form "10-K" then Ok (take queryLimit [row_10K])
       else if String.eqb form "10-Q" then Ok (take queryLimit [row_10Q_new; row_10Q_old])
       else Ok (take queryLimit [row_8K_undated; row_8K_repeat]);
     runFilingsGet := fun cik accession =>
       if String.eqb accession failing then Err failure
       else Ok (Some ("# Filing " +:+ accession));
     dateDaysAgo := fun days => "2025-08-15";
     nowIso := "2026-02-11T00:00:00Z";
     resolveCacheRoot := fun cacheDir => default "/home/user/.cache/edgar-cli" cacheDir |}.

Definition not_found_world : Collaborators :=
  sample_world "0000320193-26-000011"
    (CLIError NOT_FOUND "No primary document found for accession 0000320193-26-000011").

Definition network_error_world : Collaborators :=
  sample_world "0000320193-25-000073"
    (CLIError NETWORK_ERROR "Request failed after retries").

Definition sample_sync : SyncParams :=
  {| sy_id := "AAPL"; sy_profile := core; sy_cacheDir := Some "/cache"; sy_refresh := false |}.

Lemma selectedRows_first_wins_sorted_witness :
  selectedRows not_found_world "0000320193" core
  = Ok [row_10Q_new; row_10K; row_10Q_old; row_8K_undated] /\
  NoDup (map row_accession [row_10Q_new; row_10K; row_10Q_old; row_8K_undated]) /\
  StronglySorted
    (fun a b => String.leb (date_or_empty b) (date_or_empty a) = true)
    [row_10Q_new; row_10K; row_10Q_old; row_8K_undated].
Proof.
  assert (H : selectedRows not_found_world "0000320193" core
              = Ok [row_10Q_new; row_10K; row_10Q_old; row_8K_undated])
    by (vm_compute; reflexivity).
  split; [exact H|].
  destruct (selectedRows_first_wins_sorted not_found_world "0000320193" core _ H)
    as (lists & _ & Hnd & _ & Hdated).
  split; [exact Hnd|].
  apply Hdated. repeat constructor.
Defined.

(** *** Failures in the fetch loop *)

(** The loop state after a skip of [row] for the exception [e]. *)
Definition skip_recorded (st : LoopState) (σ1 : fs) (row : FilingRow) (e : exn) : LoopState :=
  {| ls_fs := σ1;
     ls_docs := ls_docs st;
     ls_skipped := ls_skipped st
                   ++ [{| sk_accession := row_accession row; sk_reason := exn_message e |}];
     ls_fetchedCount := ls_fetchedCount st;
     ls_reusedCount := ls_reusedCount st |}.

(** C9. When the loop has reached a selected filing and that filing fails
    with the exception [e], either on the content fetch (the body of the
    [try]) or on the check of the cache file: if [e] is a not-found error,
    the filing is recorded as skipped with the message of [e] as its reason
    and the loop goes on with the next filing; otherwise the sync ends with
    [e] and the manifest file is as it was before the sync. *)
Theorem sync_fetch_failure
        (W : Collaborators) (σ : fs) (params : SyncParams) (entity : Entity)
        (pre post : list FilingRow) (row : FilingRow)
        (st : LoopState) (σ1 : fs) (e : exn) :
  let cacheRoot := resolveCacheRoot W (sy_cacheDir params) in
  let cik := e_cik entity in
  let refresh := sy_refresh params in
  let docPath := filingDocPath cacheRoot cik (row_accession row) in
  let manifestPath := profileManifestPath cacheRoot cik (sy_profile params) in
  resolveEntity W (sy_id params) = Ok entity ->
  selectedRows W cik (sy_profile params) = Ok (pre ++ row :: post) ->
  fetch_loop W cacheRoot cik refresh pre (initial_state σ) = (st, None) ->
  ((if refresh then Ok false else fileExists (ls_fs st) docPath) = Ok false /\
   fetch_into_cache W (ls_fs st) cik row docPath = (σ1, Err e))
  \/ ((if refresh then Ok false else fileExists (ls_fs st) docPath) = Err e /\
      σ1 = ls_fs st) ->
  (isCLIErrorWith NOT_FOUND e = true ->
   fetch_loop W cacheRoot cik refresh (pre ++ row :: post) (initial_state σ)
   = fetch_loop W cacheRoot cik refresh post (skip_recorded st σ1 row e)) /\
  (isCLIErrorWith NOT_FOUND e = false ->
   runResearchSync W σ params = (σ1, Err e) /\
   σ1 !! manifestPath = σ !! manifestPath).
Proof.
  intros cacheRoot cik refresh docPath manifestPath Hent Hrows Hpre Hfail.
  assert (Hloop : fetch_loop W cacheRoot cik refresh (pre ++ row :: post) (initial_state σ)
                  = fetch_loop W cacheRoot cik refresh (row :: post) st).
  { now rewrite fetch_loop_app, Hpre. }
  assert (Hst : ls_fs st !! manifestPath = σ !! manifestPath).
  { pose proof (fetch_loop_manifest_untouched W cacheRoot cik refresh (sy_profile params)
                  pre (initial_state σ)) as H.
    now rewrite Hpre in H. }
  destruct Hfail as [[Hcheck Hfetch]|[Hcheck ->]].
  - split; intros Hcode.
    + rewrite Hloop. simpl. fold docPath. rewrite Hcheck. simpl.
      rewrite Hfetch, Hcode. reflexivity.
    + assert (Habort : fetch_loop W cacheRoot cik refresh (row :: post) st
                       = ({| ls_fs := σ1; ls_docs := ls_docs st;
                             ls_skipped := ls_skipped st;
                             ls_fetchedCount := ls_fetchedCount st;
                             ls_reusedCount := ls_reusedCount st |}, Some e)).
      { simpl. fold docPath. rewrite Hcheck. simpl. rewrite Hfetch, Hcode. reflexivity. }
      split.
      * unfold runResearchSync. rewrite Hent. fold cacheRoot cik refresh.
        rewrite Hrows, Hloop, Habort. reflexivity.
      * rewrite <- Hst.
        pose proof (fetch_into_cache_other W cik (ls_fs st) row docPath manifestPath
                      (manifest_path_not_doc _ _ _ _)
                      (manifest_path_not_doc_dir _ _ _ _)) as Hother.
        now rewrite Hfetch in Hother.
  - assert (Hcode : isCLIErrorWith NOT_FOUND e = false).
    { destruct refresh; [discriminate|]. unfold fileExists in Hcheck.
      destruct (stat_isFile (ls_fs st) docPath) as [isFile|e0]; [discriminate|].
      destruct (String.eqb (errno e0) "ENOENT"); [discriminate|].
      injection Hcheck as <-. reflexivity. }
    split; intros Hcode'; [congruence|].
    split; [|exact Hst].
    unfold runResearchSync. rewrite Hent. fold cacheRoot cik refresh.
    rewrite Hrows, Hloop. simpl. fold docPath. rewrite Hcheck. reflexivity.
Qed.

Definition state_after (W : Collaborators) (rows : list FilingRow) : LoopState :=
  fst (fetch_loop W "/cache" "0000320193" false rows (initial_state ∅)).

Lemma sync_fetch_failure_witness :
  (fetch_loop not_found_world "/cache" "0000320193" false
     ([row_10Q_new; row_10K; row_10Q_old] ++ [row_8K_undated]) (initial_state ∅)
   = (skip_recorded (state_after not_found_world [row_10Q_new; row_10K; row_10Q_old])
        (ls_fs (state_after not_found_world [row_10Q_new; row_10K; row_10Q_old]))
        row_8K_undated
        (CLIError NOT_FOUND "No primary document found for accession 0000320193-26-000011"),
      None)) /\
  (runResearchSync network_error_world ∅ sample_sync
   = (ls_fs (state_after network_error_world [row_10Q_new; row_10K]),
      Err (CLIError NETWORK_ERROR "Request failed after retries")) /\
   ls_fs (state_after network_error_world [row_10Q_new; row_10K])
     !! profileManifestPath "/cache" "0000320193" core
   = (∅ : fs) !! profileManifestPath "/cache" "0000320193" core).
Proof.
  split.
  - refine (proj1 (sync_fetch_failure not_found_world ∅ sample_sync sample_entity
                     [row_10Q_new; row_10K; row_10Q_old] [] row_8K_undated
                     (state_after not_found_world [row_10Q_new; row_10K; row_10Q_old])
                     _ _ _ _ _ _) _).
    + vm_compute. reflexivity.
    + vm_compute. reflexivity.
    + vm_compute. reflexivity.
    + left. split; vm_compute; reflexivity.
    + vm_compute. reflexivity.
  - refine (proj2 (sync_fetch_failure network_error_world ∅ sample_sync sample_entity
                     [row_10Q_new; row_10K] [row_8K_undated] row_10Q_old
                     (state_after network_error_world [row_10Q_new; row_10K])
                     _ _ _ _ _ _) _).
    + vm_compute. reflexivity.
    + vm_compute. reflexivity.
    + vm_compute. reflexivity.
    + left. split; vm_compute; reflexivity.
    + vm_compute. reflexivity.
Defined.

(** *** The report of a completed sync *)

Lemma writeCachedManifest_path (σ σ' : fs) (cacheRoot : string)
      (manifest : CachedManifest) (manifestPath : string) :
  writeCachedManifest σ cacheRoot manifest = (σ', Ok manifestPath) ->
  manifestPath = profileManifestPath cacheRoot (m_cik manifest) (m_profile manifest) /\
  σ' !! manifestPath = Some (File (JSON_stringify (manifest_value manifest) +:+ NL)).
Proof.
  unfold writeCachedManifest.
  destruct (mkdir_recursive σ _) as [σ1|e]; [|discriminate].
  unfold writeFile.
  destruct (σ1 !! _) as [[c| |]|]; intros [= <- <-]; (split; [reflexivity|]);
    apply lookup_insert_eq.
Qed.

(** C10. The report of a completed sync: [docs_count] is
    [fetched_count + reused_count]; [docs_count + skipped_count] is the
    number of selected filings; and the accession of a skipped filing is not
    among the descriptors of the manifest that the sync has written, which
    are the [docs] of the report. *)
Theorem sync_report_invariants
        (W : Collaborators) (σ σ' : fs) (params : SyncParams) (data : SyncData) :
  runResearchSync W σ params = (σ', Ok data) ->
  exists entity rows,
    resolveEntity W (sy_id params) = Ok entity /\
    selectedRows W (e_cik entity) (sy_profile params) = Ok rows /\
    out_docs_count data = out_fetched_count data + out_reused_count data /\
    out_docs_count data + out_skipped_count data = length rows /\
    out_docs_count data = length (out_docs data) /\
    out_skipped_count data = length (out_skipped data) /\
    σ' !! out_manifest_path data
    = Some (File (JSON_stringify
                    (manifest_value (sync_manifest W params entity (out_docs data)))
                  +:+ NL)) /\
    forall skipped,
      skipped ∈ out_skipped data ->
      sk_accession skipped ∉ map cd_accession (out_docs data).
Proof.
  unfold runResearchSync.
  destruct (resolveEntity W (sy_id params)) as [entity|e] eqn:Hent; [|discriminate].
  destruct (selectedRows W (e_cik entity) (sy_profile params)) as [rows|e] eqn:Hrows;
    [|discriminate].
  destruct (fetch_loop W _ (e_cik entity) (sy_refresh params) rows (initial_state σ))
    as [st [e|]] eqn:Hloop; [discriminate|].
  destruct (writeCachedManifest (ls_fs st) _ _) as [σ2 [manifestPath|e]] eqn:Hwrite;
    [|discriminate].
  intros [= <- <-]. cbn.
  destruct (fetch_loop_completed W _ _ _ rows _ _ Hloop)
    as (nd & ns & f & r & Hd & Hs & Hf & Hr & Hn & Hp).
  simpl in Hd, Hs, Hf, Hr.
  apply writeCachedManifest_path in Hwrite as [-> Hfile].
  exists entity, rows.
  split; [reflexivity|]. split; [exact Hrows|].
  rewrite Hd, Hs, Hf, Hr in *.
  assert (Hlen : length nd + length ns = length rows).
  { rewrite <- (length_map row_accession rows), <- Hp, length_app, !length_map.
    reflexivity. }
  split; [lia|]. split; [exact Hlen|]. split; [reflexivity|]. split; [reflexivity|].
  split; [exact Hfile|].
  intros sk Hsk Hin.
  pose proof (selectedRows_NoDup W _ _ _ Hrows) as Hnd.
  rewrite <- Hp in Hnd. apply NoDup_app in Hnd as (_ & Hdisj & _).
  apply (Hdisj (sk_accession sk)); [exact Hin|].
  apply list_elem_of_In, in_map, list_elem_of_In, Hsk.
Qed.

Lemma sync_report_invariants_witness :
  exists σ' data,
    runResearchSync not_found_world ∅ sample_sync = (σ', Ok data) /\
    out_docs_count data = out_fetched_count data + out_reused_count data /\
    forall skipped,
      skipped ∈ out_skipped data ->
      sk_accession skipped ∉ map cd_accession (out_docs data).
Proof.
  destruct (runResearchSync not_found_world ∅ sample_sync) as [σ' [data|e]] eqn:Hrun.
  - exists σ', data. split; [reflexivity|].
    destruct (sync_report_invariants not_found_world ∅ σ' sample_sync data Hrun)
      as (entity & rows & _ & _ & Hcount & _ & _ & _ & _ & Hdisjoint).
    split; [exact Hcount | exact Hdisjoint].
  - exfalso.
    assert (Hok : is_ok (snd (runResearchSync not_found_world ∅ sample_sync)) = true)
      by (vm_compute; reflexivity).
    rewrite Hrun in Hok. discriminate Hok.
Defined.

(** *** [JSON.parse] after [JSON.stringify] *)

Lemma append_assoc (a b c : string) : (a +:+ b) +:+ c = a +:+ (b +:+ c).
Proof.
  induction a as [|x a IH]; [reflexivity|].
  change (String x ((a +:+ b) +:+ c) = String x (a +:+ (b +:+ c))). now f_equal.
Qed.

Lemma append_cons (x : ascii) (a b : string) : String x a +:+ b = String x (a +:+ b).
Proof. reflexivity. Qed.

(** Strings of blanks: the indentation. *)
Fixpoint spaces (s : string) : bool :=
  match s with
  | EmptyString => true
  | String c s' => (code c =? 32) && spaces s'
  end.

Lemma spaces_inner (indent : string) : spaces indent = true -> spaces (indent +:+ "  ") = true.
Proof.
  induction indent as [|c i IH]; [reflexivity|].
  simpl. intros [Hc Hi]%andb_true_iff. now rewrite Hc, IH.
Qed.

Lemma skip_ws_spaces (indent s : string) :
  spaces indent = true -> skip_ws (indent +:+ s) = skip_ws s.
Proof.
  induction indent as [|c i IH]; [reflexivity|].
  simpl. intros [Hc Hi]%andb_true_iff. unfold is_ws. rewrite Hc. simpl. auto.
Qed.

Lemma skip_ws_newline_indent (indent s : string) :
  spaces indent = true -> skip_ws (NL +:+ indent +:+ s) = skip_ws s.
Proof. intros H. rewrite <- (skip_ws_spaces indent s H). reflexivity. Qed.

(** A text that starts with a character that can start a value, a comma, a
    colon or a closing bracket is where [skip_ws] stops. *)
Definition solid (s : string) : bool :=
  match s with
  | EmptyString => false
  | String c _ => negb (is_ws c)
  end.

Lemma skip_ws_solid (s : string) : solid s = true -> skip_ws s = s.
Proof.
  destruct s as [|c s]; [discriminate|]. simpl. intros H.
  now destruct (is_ws c).
Qed.

(** **** String literals *)

Lemma parse_quote_char (c : ascii) (x : string) :
  parse_string_body (quote_char c +:+ x)
  = '(str, rest) ← parse_string_body x; Some (String c str, rest).
Proof.
  destruct c as [[|] [|] [|] [|] [|] [|] [|] [|]]; reflexivity.
Qed.

Lemma parse_quote_body (s rest : string) :
  parse_string_body (quote_body s +:+ DQ +:+ rest) = Some (s, rest).
Proof.
  induction s as [|c s IH]; [reflexivity|].
  cbn [quote_body]. rewrite append_assoc, parse_quote_char, IH. reflexivity.
Qed.

Lemma quote_unfold (s rest : string) :
  quote s +:+ rest = String "034" (quote_body s +:+ DQ +:+ rest).
Proof. unfold quote. rewrite !append_assoc. reflexivity. Qed.

(** **** Numbers *)

Fixpoint all_chars (P : ascii -> bool) (s : string) : bool :=
  match s with
  | EmptyString => true
  | String c s' => P c && all_chars P s'
  end.

Lemma string_of_uint_digits (d : Decimal.uint) :
  all_chars is_number_char (NilEmpty.string_of_uint d) = true.
Proof. induction d; simpl; auto. Qed.

Lemma number_to_string_chars (n : Z) :
  all_chars is_number_char (number_to_string n) = true.
Proof.
  unfold number_to_string, NilZero.string_of_int, NilZero.string_of_uint.
  destruct (Z.to_int n) as [d|d]; destruct d; simpl;
    try reflexivity; apply string_of_uint_digits.
Qed.

Lemma number_to_string_nonempty (n : Z) :
  exists c tail, number_to_string n = String c tail.
Proof.
  unfold number_to_string, NilZero.string_of_int, NilZero.string_of_uint.
  destruct (Z.to_int n) as [d|d]; destruct d; simpl; eauto.
Qed.

(** What may follow a value in a printed text: a comma, a line feed or the
    end of the text. *)
Definition follow_ok (rest : string) : bool :=
  match rest with
  | EmptyString => true
  | String c _ => (code c =? 44) || (code c =? 10)
  end.

Lemma span_number_app (tok rest : string) :
  all_chars is_number_char tok = true -> follow_ok rest = true ->
  span_number (tok +:+ rest) = (tok, rest).
Proof.
  intros Htok Hrest. induction tok as [|c tok IH]; simpl in *.
  - destruct rest as [|c r]; [reflexivity|]. simpl in Hrest.
    destruct c as [[|] [|] [|] [|] [|] [|] [|] [|]]; try discriminate Hrest; reflexivity.
  - apply andb_true_iff in Htok as [Hc Htok]. rewrite Hc, (IH Htok). reflexivity.
Qed.

Lemma number_token (n : Z) :
  exists d, NilZero.int_of_string (number_to_string n) = Some d /\ Z.of_int d = n.
Proof.
  unfold number_to_string.
  destruct (Z.to_int n) as [d|d] eqn:Hd.
  - destruct d;
      [ exists (Decimal.Pos Decimal.zero); split;
        [reflexivity | rewrite <- (DecimalZ.of_to n), Hd; reflexivity]
      | eexists; split;
        [apply NilZero.isi; discriminate | rewrite <- Hd; apply DecimalZ.of_to] .. ].
  - destruct d;
      [ exists (Decimal.Neg Decimal.zero); split;
        [reflexivity | rewrite <- (DecimalZ.of_to n), Hd; reflexivity]
      | eexists; split;
        [apply NilZero.isi; discriminate | rewrite <- Hd; apply DecimalZ.of_to] .. ].
Qed.

Lemma parse_number_print (n : Z) (rest : string) :
  follow_ok rest = true ->
  parse_number (number_to_string n +:+ rest) = Some (JNum n, rest).
Proof.
  intros Hrest. unfold parse_number.
  rewrite span_number_app by (auto using number_to_string_chars).
  destruct (number_token n) as (d & -> & Hd). cbn [mbind option_bind].
  rewrite Hd, String.eqb_refl. cbn [orb].
  destruct rest as [|c r]; [reflexivity|]. simpl in Hrest.
  destruct c as [[|] [|] [|] [|] [|] [|] [|] [|]]; try discriminate Hrest; reflexivity.
Qed.

Lemma dispatch_number (c : ascii) (s : string) (fuel : nat) :
  is_number_char c = true ->
  parse_value (S fuel) (String c s) = parse_number (String c s).
Proof.
  destruct c as [[|] [|] [|] [|] [|] [|] [|] [|]]; intros H;
    try discriminate H; reflexivity.
Qed.

Lemma parse_value_number (n : Z) (rest : string) (fuel : nat) :
  follow_ok rest = true ->
  parse_value (S fuel) (number_to_string n +:+ rest) = Some (JNum n, rest).
Proof.
  intros Hrest. rewrite <- (parse_number_print n rest Hrest).
  pose proof (number_to_string_chars n) as Hchars.
  destruct (number_to_string_nonempty n) as (c & tail & Hn).
  rewrite Hn in *. simpl in Hchars. apply andb_true_iff in Hchars as [Hc _].
  now apply dispatch_number.
Qed.

(** **** Values *)

(** Induction on a JSON value with the hypotheses for its items. *)
Section JsonInduction.
Variable P : json -> Prop.
Hypothesis HNull : P JNull.
Hypothesis HBool : forall b, P (JBool b).
Hypothesis HNum : forall n, P (JNum n).
Hypothesis HDec : forall m e, P (JDec m e).
Hypothesis HStr : forall s, P (JStr s).
Hypothesis HArr : forall items, Forall P items -> P (JArr items).
Hypothesis HObj : forall members, Forall (fun m => P (snd m)) members -> P (JObj members).

Fixpoint json_induction (v : json) : P v :=
  match v with
  | JNull => HNull
  | JBool b => HBool b
  | JNum n => HNum n
  | JDec m e => HDec m e
  | JStr s => HStr s
  | JArr items =>
      HArr items
        ((fix go (l : list json) : Forall P l :=
            match l with
            | [] => @List.Forall_nil _ P
            | x :: l' => @List.Forall_cons _ P x l' (json_induction x) (go l')
            end) items)
  | JObj members =>
      HObj members
        ((fix go (l : list (string * json)) : Forall (fun m => P (snd m)) l :=
            match l with
            | [] => @List.Forall_nil _ _
            | m :: l' => @List.Forall_cons _ _ m l' (json_induction (snd m)) (go l')
            end) members)
  end.
End JsonInduction.

(** A bound on the fuel that reading a printed value takes. *)
Fixpoint weight (v : json) : nat :=
  match v with
  | JArr items => S (list_sum (map (fun x => S (weight x)) items))
  | JObj members => S (list_sum (map (fun m => S (weight (snd m))) members))
  | _ => 1
  end.

(** The first character of a printed value: not white space and not a
    closing bracket. *)
Definition value_start (s : string) : bool :=
  match s with
  | EmptyString => false
  | String c _ => negb (is_ws c) && negb (code c =? 93) && negb (code c =? 125)
  end.

Lemma number_char_start (c : ascii) (s : string) :
  is_number_char c = true -> value_start (String c s) = true.
Proof.
  destruct c as [[|] [|] [|] [|] [|] [|] [|] [|]]; intros H;
    try discriminate H; reflexivity.
Qed.

Lemma stringify_start (v : json) (indent x : string) :
  value_start (stringify_at indent v +:+ x) = true.
Proof.
  destruct v as [| [|] | n | n e | s | [|i items] | [|m members]]; try reflexivity;
    cbn [stringify_at];
    pose proof (number_to_string_chars n) as Hchars;
    destruct (number_to_string_nonempty n) as (c & tail & Hn);
    rewrite Hn in *; simpl in Hchars; apply andb_true_iff in Hchars as [Hc _];
    now apply number_char_start.
Qed.

Lemma value_start_solid (s : string) : value_start s = true -> solid s = true.
Proof.
  destruct s as [|c s]; [discriminate|]. simpl.
  now intros [[H _]%andb_true_iff _]%andb_true_iff.
Qed.

Lemma append_empty_r (s : string) : s +:+ EmptyString = s.
Proof.
  induction s as [|c s IH]; [reflexivity|].
  change (String c (s +:+ EmptyString) = String c s). now f_equal.
Qed.

Lemma join_cons_start {A} (sep : string) (f : A -> string) (v : A) (vs : list A) :
  exists tail, join sep (map f (v :: vs)) = f v +:+ tail.
Proof.
  destruct vs as [|v2 vs]; simpl.
  - exists EmptyString. now rewrite append_empty_r.
  - eauto.
Qed.

Lemma char_app (c : ascii) (x : string) : String c EmptyString +:+ x = String c x.
Proof. reflexivity. Qed.

(** [skip_ws] stops at a character that is given and is not white space;
    then the [match] on the text and the tests of that character reduce. *)
Ltac skip_char :=
  match goal with
  | |- context [skip_ws (String ?c ?x)] =>
      change (skip_ws (String c x)) with (String c x); cbv iota;
      repeat match goal with
        | |- context [code c =? ?k] =>
            let b := eval vm_compute in (code c =? k) in
            change (code c =? k) with b; cbv iota
        end
  end.

Section Elements.
Variables (inner indent rest : string).
Hypothesis inner_spaces : spaces inner = true.
Hypothesis indent_spaces : spaces indent = true.

Definition reads (v : json) : Prop :=
  forall indent rest fuel,
    spaces indent = true -> follow_ok rest = true -> weight v <= fuel ->
    parse_value fuel (stringify_at indent v +:+ rest) = Some (v, rest).

Lemma parse_elements_print (items : list json) :
  Forall reads items -> items <> [] ->
  forall fuel,
    list_sum (map (fun x => S (weight x)) items) <= fuel ->
    parse_elements fuel
      (join ("," +:+ NL +:+ inner) (map (stringify_at inner) items)
       +:+ NL +:+ indent +:+ "]" +:+ rest)
    = Some (items, rest).
Proof.
  induction 1 as [|v vs Hv Hvs IH]; intros Hne fuel Hfuel; [contradiction|].
  destruct fuel as [|fuel]; [simpl in Hfuel; lia|].
  cbn [parse_elements].
  destruct vs as [|v2 vs'].
  - cbn [map join]. rewrite Hv; [|assumption|reflexivity|simpl in Hfuel; lia].
    cbn [mbind option_bind].
    rewrite skip_ws_newline_indent by assumption.
    reflexivity.
  - change (join ("," +:+ NL +:+ inner) (map (stringify_at inner) (v :: v2 :: vs')))
      with (stringify_at inner v +:+ ("," +:+ NL +:+ inner)
            +:+ join ("," +:+ NL +:+ inner) (map (stringify_at inner) (v2 :: vs'))).
    rewrite !append_assoc.
    rewrite Hv; [|assumption|reflexivity|simpl in Hfuel; lia].
    cbn [mbind option_bind].
    rewrite (char_app ","). skip_char.
    rewrite skip_ws_newline_indent by assumption.
    rewrite skip_ws_solid.
    + rewrite IH; [reflexivity | discriminate | simpl in Hfuel |- *; lia].
    + apply value_start_solid.
      destruct (join_cons_start ("," +:+ NL +:+ inner) (stringify_at inner) v2 vs')
        as [tail ->].
      rewrite append_assoc. apply stringify_start.
Qed.

End Elements.

Section Members.
Variables (inner indent rest : string).
Hypothesis inner_spaces : spaces inner = true.
Hypothesis indent_spaces : spaces indent = true.

Definition print_member (member : string * json) : string :=
  quote (fst member) +:+ ": " +:+ stringify_at inner (snd member).

Lemma parse_members_print (members : list (string * json)) :
  Forall (fun m => reads (snd m)) members -> members <> [] ->
  forall fuel,
    list_sum (map (fun m => S (weight (snd m))) members) <= fuel ->
    parse_members fuel
      (join ("," +:+ NL +:+ inner) (map print_member members)
       +:+ NL +:+ indent +:+ "}" +:+ rest)
    = Some (members, rest).
Proof.
  induction 1 as [|[k v] ms Hv Hms IH]; intros Hne fuel Hfuel; [contradiction|].
  destruct fuel as [|fuel]; [simpl in Hfuel; lia|].
  simpl in Hv.
  assert (Hmember : forall tail,
             follow_ok tail = true ->
             parse_members (S fuel) (print_member (k, v) +:+ tail)
             = match skip_ws tail with
               | EmptyString => None
               | String c3 r4 =>
                   if code c3 =? 44 then
                     '(members, rest) ← parse_members fuel (skip_ws r4);
                     Some ((k, v) :: members, rest)
                   else if code c3 =? 125 then Some ([(k, v)], r4)
                   else None
               end).
  { intros tail Htail. unfold print_member. cbn [fst snd].
    rewrite !append_assoc, quote_unfold.
    cbn [parse_members]. change (code "034" =? 34) with true. cbv iota.
    rewrite parse_quote_body. cbn [mbind option_bind].
    change (": " +:+ stringify_at inner v +:+ tail)
      with (String ":" (String " " (stringify_at inner v +:+ tail))).
    skip_char.
    change (skip_ws (String " " (stringify_at inner v +:+ tail)))
      with (skip_ws (stringify_at inner v +:+ tail)).
    rewrite skip_ws_solid by (apply value_start_solid, stringify_start).
    rewrite Hv; [|assumption|assumption|simpl in Hfuel; lia].
    reflexivity. }
  destruct ms as [|m2 ms'].
  - cbn [map join]. rewrite Hmember by reflexivity.
    rewrite skip_ws_newline_indent by assumption.
    reflexivity.
  - change (join ("," +:+ NL +:+ inner) (map print_member ((k, v) :: m2 :: ms')))
      with (print_member (k, v) +:+ ("," +:+ NL +:+ inner)
            +:+ join ("," +:+ NL +:+ inner) (map print_member (m2 :: ms'))).
    rewrite !append_assoc.
    rewrite Hmember by reflexivity.
    rewrite (char_app ","). skip_char.
    rewrite skip_ws_newline_indent by assumption.
    rewrite skip_ws_solid.
    + rewrite IH; [reflexivity | discriminate | simpl in Hfuel |- *; lia].
    + destruct (join_cons_start ("," +:+ NL +:+ inner) print_member m2 ms')
        as [tail ->].
      unfold print_member. rewrite !append_assoc, quote_unfold. reflexivity.
Qed.

End Members.

Lemma value_start_inv (s : string) :
  value_start s = true ->
  exists c r, s = String c r /\ (code c =? 93) = false /\ (code c =? 125) = false.
Proof.
  destruct s as [|c r]; [discriminate|]. simpl.
  intros [[_ H1]%andb_true_iff H2]%andb_true_iff.
  exists c, r. repeat split; now apply negb_true_iff.
Qed.

Lemma array_dispatch (fuel : nat) (r : string) :
  value_start (skip_ws r) = true ->
  parse_value (S fuel) (String "[" r)
  = '(items, rest) ← parse_elements fuel (skip_ws r); Some (JArr items, rest).
Proof.
  intros (c & r' & Hr & H93 & _)%value_start_inv.
  cbn [parse_value]. change (code "[" =? 34) with false.
  change (code "[" =? 91) with true. cbv iota.
  rewrite Hr, H93. reflexivity.
Qed.

Lemma object_dispatch (fuel : nat) (r : string) :
  value_start (skip_ws r) = true ->
  parse_value (S fuel) (String "{" r)
  = '(members, rest) ← parse_members fuel (skip_ws r); Some (JObj members, rest).
Proof.
  intros (c & r' & Hr & _ & H125)%value_start_inv.
  cbn [parse_value]. change (code "{" =? 34) with false.
  change (code "{" =? 91) with false. change (code "{" =? 123) with true. cbv iota.
  rewrite Hr, H125. reflexivity.
Qed.

Lemma integers_only_items {A} (P : json -> Prop) (f : A -> json) (l : list A) :
  Forall (fun x => integers_only (f x) = true -> P (f x)) l ->
  forallb (fun x => integers_only (f x)) l = true ->
  Forall (fun x => P (f x)) l.
Proof.
  intros IH Hall. rewrite forallb_forall in Hall. rewrite Forall_forall in IH |- *.
  intros x Hx. apply IH; [exact Hx|]. apply Hall. now apply list_elem_of_In.
Qed.

(** Every printed value whose numbers are integers is read back, whatever
    follows it in the text. *)
Lemma parse_value_print (v : json) : integers_only v = true -> reads v.
Proof.
  induction v as [| b | n | m e | s | items IH | members IH] using json_induction;
    intros Hints indent rest fuel Hindent Hrest Hfuel;
    (destruct fuel as [|fuel]; [simpl in Hfuel; lia|]).
  - reflexivity.
  - destruct b; reflexivity.
  - now apply parse_value_number.
  - discriminate Hints.
  - cbn [stringify_at]. rewrite quote_unfold.
    cbn [parse_value]. change (code "034" =? 34) with true. cbv iota.
    now rewrite parse_quote_body.
  - destruct items as [|v items]; [reflexivity|].
    cbn [stringify_at]. cbv zeta.
    pose proof (spaces_inner indent Hindent) as Hinner.
    remember (indent +:+ "  ") as inner eqn:Einner. clear Einner.
    rewrite !append_assoc, (char_app "[").
    assert (Hstart : forall tail,
               value_start
                 (join ("," +:+ NL +:+ inner) (map (stringify_at inner) (v :: items))
                  +:+ tail) = true).
    { intros tail.
      destruct (join_cons_start ("," +:+ NL +:+ inner) (stringify_at inner) v items)
        as [t ->].
      rewrite append_assoc. apply stringify_start. }
    assert (Hskip : forall tail,
               skip_ws (NL +:+ inner
                        +:+ join ("," +:+ NL +:+ inner) (map (stringify_at inner) (v :: items))
                        +:+ tail)
               = join ("," +:+ NL +:+ inner) (map (stringify_at inner) (v :: items))
                 +:+ tail).
    { intros tail. rewrite skip_ws_newline_indent by assumption.
      apply skip_ws_solid, value_start_solid, Hstart. }
    rewrite array_dispatch; rewrite Hskip.
    + rewrite (parse_elements_print inner indent rest Hinner Hindent);
        [reflexivity
        | exact (integers_only_items reads (fun x => x) _ IH Hints)
        | discriminate | simpl in Hfuel |- *; lia].
    + apply Hstart.
  - destruct members as [|m members]; [reflexivity|].
    cbn [stringify_at]. cbv zeta.
    pose proof (spaces_inner indent Hindent) as Hinner.
    remember (indent +:+ "  ") as inner eqn:Einner. clear Einner.
    fold (print_member inner).
    rewrite !append_assoc, (char_app "{").
    assert (Hstart : forall tail,
               value_start
                 (join ("," +:+ NL +:+ inner) (map (print_member inner) (m :: members))
                  +:+ tail) = true).
    { intros tail.
      destruct (join_cons_start ("," +:+ NL +:+ inner) (print_member inner) m members)
        as [t ->].
      unfold print_member. rewrite !append_assoc, quote_unfold. reflexivity. }
    assert (Hskip : forall tail,
               skip_ws (NL +:+ inner
                        +:+ join ("," +:+ NL +:+ inner) (map (print_member inner) (m :: members))
                        +:+ tail)
               = join ("," +:+ NL +:+ inner) (map (print_member inner) (m :: members))
                 +:+ tail).
    { intros tail. rewrite skip_ws_newline_indent by assumption.
      apply skip_ws_solid, value_start_solid, Hstart. }
    rewrite object_dispatch; rewrite Hskip.
    + rewrite (parse_members_print inner indent rest Hinner Hindent);
        [reflexivity
        | exact (integers_only_items reads snd _ IH Hints)
        | discriminate | simpl in Hfuel |- *; lia].
    + apply Hstart.
Qed.

(** **** Fuel *)

Lemma length_app (a b : string) :
  String.length (a +:+ b) = String.length a + String.length b.
Proof.
  induction a as [|c a IH]; [reflexivity|].
  change (S (String.length (a +:+ b)) = S (String.length a + String.length b)).
  now f_equal.
Qed.

Lemma join_length {A} (sep : string) (f : A -> string) (w : A -> nat) (items : list A) :
  1 <= String.length sep ->
  Forall (fun x => w x <= String.length (f x)) items -> items <> [] ->
  list_sum (map (fun x => S (w x)) items) <= S (String.length (join sep (map f items))).
Proof.
  intros Hsep. induction 1 as [|x l Hx Hl IH]; intros Hne; [contradiction|].
  destruct l as [|y l].
  - simpl. lia.
  - change (join sep (map f (x :: y :: l)))
      with (f x +:+ sep +:+ join sep (map f (y :: l))).
    rewrite !length_app.
    assert (IH' := IH ltac:(discriminate)).
    change (list_sum (map (fun x => S (w x)) (x :: y :: l)))
      with (S (w x) + list_sum (map (fun x => S (w x)) (y :: l))).
    lia.
Qed.

Lemma number_to_string_length (n : Z) : 1 <= String.length (number_to_string n).
Proof. destruct (number_to_string_nonempty n) as (c & t & ->). simpl. lia. Qed.

Lemma weight_le_length (v : json) (indent : string) :
  weight v <= String.length (stringify_at indent v).
Proof.
  revert indent.
  induction v as [| b | n | m e | s | items IH | members IH] using json_induction;
    intros indent.
  - simpl. lia.
  - destruct b; simpl; lia.
  - apply number_to_string_length.
  - cbn [stringify_at weight]. rewrite length_app.
    pose proof (number_to_string_length m). lia.
  - unfold stringify_at, quote. simpl. lia.
  - destruct items as [|v items]; [simpl; lia|].
    cbn [stringify_at weight]. cbv zeta.
    remember (indent +:+ "  ") as inner eqn:Einner. clear Einner.
    pose proof (join_length ("," +:+ NL +:+ inner) (stringify_at inner) weight
                  (v :: items)) as Hjoin.
    rewrite !length_app.
    assert (Hall : Forall (fun x => weight x <= String.length (stringify_at inner x))
                          (v :: items))
      by (eapply Forall_impl; [exact IH | intros x Hx; apply Hx]).
    specialize (Hjoin ltac:(simpl; lia) Hall ltac:(discriminate)).
    change (String.length NL) with 1. simpl (String.length (String _ EmptyString)). lia.
  - destruct members as [|m members]; [simpl; lia|].
    cbn [stringify_at weight]. cbv zeta.
    remember (indent +:+ "  ") as inner eqn:Einner. clear Einner.
    fold (print_member inner).
    pose proof (join_length ("," +:+ NL +:+ inner) (print_member inner)
                  (fun m => weight (snd m)) (m :: members)) as Hjoin.
    rewrite !length_app.
    assert (Hall : Forall (fun m => weight (snd m) <= String.length (print_member inner m))
                          (m :: members)).
    { eapply Forall_impl; [exact IH|]. intros [k x] Hx. unfold print_member.
      rewrite !length_app. specialize (Hx inner). simpl in *. lia. }
    specialize (Hjoin ltac:(simpl; lia) Hall ltac:(discriminate)).
    change (String.length NL) with 1. simpl (String.length (String _ EmptyString)). lia.
Qed.

(** [JSON.parse] gives back the value that [JSON.stringify(value, null, 2)]
    has printed, also when a line feed follows the text. *)
Lemma JSON_parse_stringify (v : json) :
  integers_only v = true ->
  JSON_parse (JSON_stringify v +:+ NL) = Some v.
Proof.
  intros Hints. unfold JSON_parse, JSON_stringify.
  rewrite skip_ws_solid by (apply value_start_solid, stringify_start).
  rewrite parse_value_print; [reflexivity | exact Hints | reflexivity | reflexivity |].
  rewrite length_app. pose proof (weight_le_length v EmptyString). lia.
Qed.

(** *** The manifest round trip *)

Lemma manifest_value_integers_only (manifest : CachedManifest) :
  integers_only (manifest_value manifest) = true.
Proof.
  unfold manifest_value. cbn. rewrite andb_true_r.
  destruct (m_ticker manifest), (m_title manifest); cbn;
    (induction (m_docs manifest) as [|doc docs IH]; [reflexivity|]); cbn;
    rewrite IH;
    destruct (cd_form doc), (cd_filing_date doc), (cd_report_date doc), (cd_filing_url doc);
    reflexivity.
Qed.

Lemma manifest_value_well_shaped (manifest : CachedManifest) :
  manifest_well_shaped (manifest_value manifest) = true.
Proof.
  unfold manifest_well_shaped, manifest_value. simpl.
  induction (m_docs manifest) as [|doc docs IH]; [reflexivity|].
  simpl. exact IH.
Qed.

(** C6. After a manifest has been written, reading the manifest of its
    entity and profile succeeds and gives the value that was written: the
    same entity id ([cik]), the same profile, and the descriptors in the
    same order with the same accession, path and form. *)
Theorem manifest_round_trip
        (σ σ' : fs) (cacheRoot : string) (manifest : CachedManifest)
        (manifestPath : string) :
  writeCachedManifest σ cacheRoot manifest = (σ', Ok manifestPath) ->
  exists value,
    readCachedManifest σ' cacheRoot (m_cik manifest) (m_profile manifest)
    = Ok (Some value) /\
    value = manifest_value manifest /\
    string_of (prop value "cik") = Some (m_cik manifest) /\
    string_of (prop value "profile") = Some (profile_name (m_profile manifest)) /\
    map (fun doc => (prop doc "accession", prop doc "path", prop doc "form"))
        (docs_of value)
    = map (fun doc => (Some (JStr (cd_accession doc)), Some (JStr (cd_path doc)),
                       Some (nullable (cd_form doc))))
          (m_docs manifest).
Proof.
  intros Hwrite. apply writeCachedManifest_path in Hwrite as [-> Hfile].
  exists (manifest_value manifest).
  split; [|split; [reflexivity|split; [reflexivity|split; [reflexivity|]]]].
  - unfold readCachedManifest, readFile. rewrite Hfile.
    rewrite JSON_parse_stringify by apply manifest_value_integers_only.
    rewrite parseCachedManifest_spec, manifest_value_well_shaped.
    reflexivity.
  - unfold docs_of. simpl. rewrite map_map. reflexivity.
Qed.

Definition sample_manifest : CachedManifest :=
  {| m_id_input := "AAPL";
     m_cik := "0000320193";
     m_ticker := Some "AAPL";
     m_title := Some "Apple Inc.";
     m_profile := core;
     m_synced_at := "2026-02-11T00:00:00Z";
     m_docs :=
       [ cached_doc row_10Q_new
           (filingDocPath "/cache" "0000320193" (row_accession row_10Q_new));
         cached_doc row_8K_undated
           (filingDocPath "/cache" "0000320193" (row_accession row_8K_undated)) ] |}.

Lemma manifest_round_trip_witness :
  readCachedManifest (fst (writeCachedManifest ∅ "/cache" sample_manifest))
                     "/cache" "0000320193" core
  = Ok (Some (manifest_value sample_manifest)).
Proof.
  destruct (manifest_round_trip ∅ (fst (writeCachedManifest ∅ "/cache" sample_manifest))
              "/cache" sample_manifest
              (profileManifestPath "/cache" "0000320193" core))
    as (value & Hread & -> & _).
  - vm_compute. reflexivity.
  - exact Hread.
Defined.

(* ===================================================================== *)
(** * The code around the research core

    The normalisers of identifiers, the filing catalog, the identity
    resolver, the excerpts and the [ask] commands, with what they
    guarantee; and further properties of the chunking, of the ranking and
    of the sync. *)
(* ===================================================================== *)

(* ===================================================================== *)
(** ** Identifier normalisers ([src/sec/normalizers.ts]) *)
(* ===================================================================== *)

Module Normalizers.

(** [/^\d+$/.test(value.trim())] *)
Definition isLikelyCik (value : string) : bool :=
  let trimmed := trim value in
  (1 <=? String.length trimmed) && all_chars is_digit trimmed.

(** [s.padStart(targetLength, '0')] *)
Fixpoint zeros (n : nat) : string :=
  match n with
  | 0 => EmptyString
  | S n' => String "0" (zeros n')
  end.

Definition padStart (targetLength : nat) (s : string) : string :=
  zeros (targetLength - String.length s) +:+ s.

(** The schema is [/^\d{1,10}$/]. *)
Definition normalizeCik (value : string) : result string :=
  let trimmed := trim value in
  if (1 <=? String.length trimmed) && (String.length trimmed <=? 10)
     && all_chars is_digit trimmed
  then Ok (padStart 10 trimmed)
  else Err (CLIError VALIDATION_ERROR ("Invalid CIK: " +:+ value)).

Definition is_alpha (c : ascii) : bool := between 65 90 c || between 97 122 c.

(** The class [[A-Za-z0-9.-]]. *)
Definition is_ticker_char (c : ascii) : bool :=
  is_alpha c || is_digit c || (code c =? 46) || (code c =? 45).

(** [String.prototype.toUpperCase] on the strings that pass the ticker
    schema: only [a-z] has an upper case there. *)
Definition upper_char (c : ascii) : ascii :=
  if between 97 122 c then ascii_of_nat (code c - 32) else c.

Fixpoint toUpperCase (s : string) : string :=
  match s with
  | EmptyString => EmptyString
  | String c s' => String (upper_char c) (toUpperCase s')
  end.

(** The schema is [/^[A-Za-z][A-Za-z0-9.-]{0,14}$/]. *)
Definition normalizeTicker (value : string) : result string :=
  let trimmed := trim value in
  match trimmed with
  | String c rest =>
      if is_alpha c && (String.length rest <=? 14) && all_chars is_ticker_char rest
      then Ok (toUpperCase trimmed)
      else Err (CLIError VALIDATION_ERROR ("Invalid ticker: " +:+ value))
  | EmptyString => Err (CLIError VALIDATION_ERROR ("Invalid ticker: " +:+ value))
  end.

(** [/^\d{10}-\d{2}-\d{6}$/]: the whole of [s] is an accession number. *)
Definition accession_only (s : string) : bool :=
  digits_then 10
    (dash_then (digits_then 2 (dash_then (digits_then 6
       (fun rest => String.length rest =? 0))))) s.

Definition normalizeAccession (value : string) : result string :=
  let trimmed := trim value in
  if accession_only trimmed then Ok trimmed
  else Err (CLIError VALIDATION_ERROR "--accession must match XXXXXXXXXX-XX-XXXXXX").

(** [!!x] for an optional string. *)
Definition given (x : option string) : bool :=
  match x with
  | Some s => negb (String.length s =? 0)
  | None => false
  end.

(** [<] and [>] on strings compare code units. *)
Definition dateInRange (value : string) (from to : option string) : bool :=
  if negb (given from) && negb (given to) then true
  else if given from && String.ltb value (default EmptyString from) then false
  else if given to && String.ltb (default EmptyString to) value then false
  else true.

End Normalizers.
Import Normalizers.


(* ===================================================================== *)
(** ** Excerpts of the result rows ([src/commands/research.ts]) *)
(* ===================================================================== *)

Module Excerpts.

(** The class [[ \t]]. *)
Definition is_blank (c : ascii) : bool := (code c =? 32) || (code c =? 9).

Definition is_lf (c : ascii) : bool := code c =? 10.

(** [value.replace(/[ \t]+/g, ' ')]: of a run of blanks the last one
    becomes the space that stands for the run. *)
Fixpoint collapse_blanks (s : string) : string :=
  match s with
  | EmptyString => EmptyString
  | String c s' =>
      if is_blank c then
        match s' with
        | String c' _ =>
            if is_blank c' then collapse_blanks s'
            else String " " (collapse_blanks s')
        | EmptyString => String " " EmptyString
        end
      else String c (collapse_blanks s')
  end.

(** [value.replace(/\n{3,}/g, '\n\n')]: of a run of line feeds the last
    two are kept. *)
Fixpoint collapse_newlines (s : string) : string :=
  match s with
  | EmptyString => EmptyString
  | String c s' =>
      match s' with
      | String c1 (String c2 _) =>
          if is_lf c && is_lf c1 && is_lf c2 then collapse_newlines s'
          else String c (collapse_newlines s')
      | _ => String c (collapse_newlines s')
      end
  end.

Definition compactWhitespace (value : string) : string :=
  trim (collapse_newlines (collapse_blanks value)).

(** [maxChars - 3] on [nat] is [Math.max(0, maxChars - 3)]. *)
Definition trimExcerpt (value : string) (maxChars : nat) : string :=
  if String.length value <=? maxChars then value
  else trimEnd (String.substring 0 (maxChars - 3) value) +:+ "...".

(** The [excerpt] of the row of a chunk. *)
Definition excerpt (chunk : Chunk) : string :=
  trimExcerpt (compactWhitespace (text chunk)) 1200.

End Excerpts.
Import Excerpts.

(* ===================================================================== *)
(** ** The [ask] commands ([src/commands/research.ts]) *)
(* ===================================================================== *)

Module Ask.

Definition parseResearchProfile (value : string) : result ResearchProfile :=
  let normalized := toLowerCase (trim value) in
  if String.eqb normalized "core" then Ok core
  else if String.eqb normalized "events" then Ok events
  else if String.eqb normalized "financials" then Ok financials
  else Err (CLIError VALIDATION_ERROR "--profile must be one of core|events|financials").

(** [Array.isArray(x) && x.every((entry) => typeof entry === 'string')],
    with the strings of the array when the test holds. *)
Definition string_array (x : option json) : option (list string) :=
  match x with
  | Some (JArr entries) => mapM (fun entry => string_of (Some entry)) entries
  | _ => None
  end.

Definition manifest_shape_error : exn :=
  CLIError VALIDATION_ERROR
    "Manifest must be a JSON array of strings or object with a docs string array".

Definition parseManifest (value : json) : result (list string) :=
  match string_array (Some value) with
  | Some docs => Ok docs
  | None =>
      if truthy value && typeof_object value then
        match string_array (prop value "docs") with
        | Some docs => Ok docs
        | None => Err manifest_shape_error
        end
      else Err manifest_shape_error
  end.

(** [paths.map((docPath) => docPath.trim()).filter((docPath) => docPath.length > 0)] *)
Definition trimmed (paths : list string) : list string :=
  filter (fun docPath => 0 < String.length docPath) (map trim paths).

Section DocPaths.

(** [path.resolve], which depends on the working directory of the process. *)
Variable resolve : string -> string.

Definition manifestDocs (σ : fs) (manifestPath : string) : result (list string) :=
  let resolvedManifestPath := resolve manifestPath in
  match readFile σ resolvedManifestPath with
  | Err e =>
      if String.eqb (errno e) "ENOENT"
      then Err (CLIError NOT_FOUND ("Manifest not found: " +:+ resolvedManifestPath))
      else Err (CLIError VALIDATION_ERROR
                  ("Unable to read manifest " +:+ resolvedManifestPath +:+ ": "
                   +:+ exn_message e))
  | Ok manifestRaw =>
      match JSON_parse manifestRaw with
      | None =>
          Err (CLIError VALIDATION_ERROR
                 ("Manifest is not valid JSON: " +:+ resolvedManifestPath))
      | Some manifestJson =>
          parsed ← parseManifest manifestJson; mret (trimmed parsed)
      end
  end.

Definition loadDocPaths (σ : fs) (docs : list string) (manifestPath : option string)
  : result (list string) :=
  let fromOptions := trimmed docs in
  fromManifest ← (if given manifestPath
                  then manifestDocs σ (default EmptyString manifestPath)
                  else mret []);
  mret (uniqueTokens (map resolve (fromOptions ++ fromManifest))).

Record AskParams := mkAskParams {
  a_query : string;
  a_docs : list string;
  a_manifestPath : option string;
  a_topK : nat;
  a_chunkLines : nat;
  a_chunkOverlap : nat
}.

Definition docs_required : exn :=
  CLIError DOCS_REQUIRED
    "At least one document is required. Pass --doc <path> and/or --manifest <path>.".

Definition runResearchAsk (σ : fs) (params : AskParams) : result SearchData :=
  docPaths ← loadDocPaths σ (a_docs params) (a_manifestPath params);
  if length docPaths =? 0 then Err docs_required
  else runLexicalSearch σ {| s_query := a_query params;
                             s_docPaths := docPaths;
                             s_topK := a_topK params;
                             s_chunkLines := a_chunkLines params;
                             s_chunkOverlap := a_chunkOverlap params |}.

End DocPaths.

Record AskByIdParams := mkAskByIdParams {
  ai_id : string;
  ai_query : string;
  ai_profile : ResearchProfile;
  ai_cacheDir : option string;
  ai_refresh : bool;
  ai_topK : nat;
  ai_chunkLines : nat;
  ai_chunkOverlap : nat
}.

Record SyncSummary := mkSyncSummary {
  ss_fetched_count : nat;
  ss_reused_count : nat;
  ss_docs_count : nat;
  ss_skipped_count : nat
}.

Record AskByIdData := mkAskByIdData {
  abi_search : SearchData;
  abi_id : string;
  abi_cik : string;
  abi_ticker : option string;
  abi_title : option string;
  abi_profile : ResearchProfile;
  abi_cache_root : string;
  abi_manifest_path : string;
  abi_corpus_docs_count : nat;
  abi_sync : SyncSummary
}.

(** [!manifest || manifest.docs.length === 0] *)
Definition without_docs (manifest : option json) : bool :=
  match manifest with
  | Some m => length (docs_of m) =? 0
  | None => true
  end.

(** [manifest.docs.map((doc) => doc.path)]; every [path] of a manifest that
    has been read is a string. *)
Definition doc_paths (manifest : json) : list string :=
  map (fun doc => default EmptyString (string_of (prop doc "path"))) (docs_of manifest).

Definition no_cached_documents (params : AskByIdParams) : exn :=
  CLIError DOCS_REQUIRED
    ("No cached documents found for " +:+ ai_id params +:+ " profile "
     +:+ profile_name (ai_profile params) +:+ ". Run research sync first.").

Section AskById.
Variable W : Collaborators.

Definition sync_params (params : AskByIdParams) : SyncParams :=
  {| sy_id := ai_id params;
     sy_profile := ai_profile params;
     sy_cacheDir := ai_cacheDir params;
     sy_refresh := ai_refresh params |}.

Definition sync_summary (data : SyncData) : SyncSummary :=
  {| ss_fetched_count := out_fetched_count data;
     ss_reused_count := out_reused_count data;
     ss_docs_count := out_docs_count data;
     ss_skipped_count := out_skipped_count data |}.

(** The part of the command after the manifest and the sync summary are
    settled. *)
Definition search_manifest (σ : fs) (params : AskByIdParams) (entity : Entity)
           (manifest : option json) (syncData : option SyncSummary)
  : result AskByIdData :=
  match manifest with
  | Some m =>
      if length (docs_of m) =? 0 then Err (no_cached_documents params)
      else
        let cacheRoot := resolveCacheRoot W (ai_cacheDir params) in
        searchData ← runLexicalSearch σ {| s_query := ai_query params;
                                           s_docPaths := doc_paths m;
                                           s_topK := ai_topK params;
                                           s_chunkLines := ai_chunkLines params;
                                           s_chunkOverlap := ai_chunkOverlap params |};
        mret {| abi_search := searchData;
                abi_id := ai_id params;
                abi_cik := e_cik entity;
                abi_ticker := e_ticker entity;
                abi_title := e_title entity;
                abi_profile := ai_profile params;
                abi_cache_root := cacheRoot;
                abi_manifest_path :=
                  profileManifestPath cacheRoot (e_cik entity) (ai_profile params);
                abi_corpus_docs_count := length (docs_of m);
                abi_sync :=
                  default {| ss_fetched_count := 0;
                             ss_reused_count := length (docs_of m);
                             ss_docs_count := length (docs_of m);
                             ss_skipped_count := 0 |}
                          syncData |}
  | None => Err (no_cached_documents params)
  end.

(** The file system after the call, and the data or the exception. *)
Definition runResearchAskById (σ : fs) (params : AskByIdParams)
  : fs * result AskByIdData :=
  let cacheRoot := resolveCacheRoot W (ai_cacheDir params) in
  match resolveEntity W (ai_id params) with
  | Err e => (σ, Err e)
  | Ok entity =>
      match (if ai_refresh params then Ok None
             else readCachedManifest σ cacheRoot (e_cik entity) (ai_profile params)) with
      | Err e => (σ, Err e)
      | Ok manifest =>
          if without_docs manifest then
            match runResearchSync W σ (sync_params params) with
            | (σ', Err e) => (σ', Err e)
            | (σ', Ok data) =>
                match readCachedManifest σ' cacheRoot (e_cik entity) (ai_profile params) with
                | Err e => (σ', Err e)
                | Ok manifest' =>
                    (σ', search_manifest σ' params entity manifest'
                           (Some (sync_summary data)))
                end
            end
          else (σ, search_manifest σ params entity manifest None)
      end
  end.

End AskById.

End Ask.
Import Ask.

(* ===================================================================== *)
(** ** Filing URLs ([src/sec/endpoints.ts]) *)
(* ===================================================================== *)

Module Endpoints.

Definition SEC_WWW_HOST : string := "https://www.sec.gov".

(** [String(Number.parseInt(cik10, 10))] for the ten digits of a normalised
    CIK: the digits without their leading zeros, and [0] for zero. *)
Fixpoint cikNumeric (cik10 : string) : string :=
  match cik10 with
  | EmptyString => EmptyString
  | String c rest =>
      if Ascii.eqb c "0" then
        match rest with
        | EmptyString => cik10
        | String _ _ => cikNumeric rest
        end
      else cik10
  end.

(** [accession.replace(/-/g, '')] *)
Fixpoint withoutDashes (s : string) : string :=
  match s with
  | EmptyString => EmptyString
  | String c rest =>
      if Ascii.eqb c "-" then withoutDashes rest else String c (withoutDashes rest)
  end.

Definition filingDocumentUrl (cik accession primaryDocument : string) : result string :=
  cik10 ← normalizeCik cik;
  normalized ← normalizeAccession accession;
  mret (SEC_WWW_HOST +:+ "/Archives/edgar/data/" +:+ cikNumeric cik10 +:+ "/"
        +:+ withoutDashes normalized +:+ "/" +:+ primaryDocument).

End Endpoints.
Import Endpoints.

(* ===================================================================== *)
(** ** The filing catalog ([src/commands/filings.ts]) *)
(* ===================================================================== *)

Module Filings.

(** The arrays of [filings.recent] that the commands read; an array that
    is absent is [None]. *)
Record RecentFilings := mkRecentFilings {
  rf_accessionNumber : option (list string);
  rf_form : option (list string);
  rf_filingDate : option (list string);
  rf_reportDate : option (list string);
  rf_primaryDocument : option (list string)
}.

Record ListedRow := mkListedRow {
  lr_accession : string;
  lr_form : option string;
  lr_filingDate : option string;
  lr_reportDate : option string;
  lr_primaryDocument : option string;
  lr_filingUrl : option string
}.

(** [(array ?? [])[idx] ?? null] *)
Definition at_index (array : option (list string)) (idx : nat) : option string :=
  default [] array !! idx.

(** The body of the loop for an index that holds an accession number. *)
Definition zip_row (cik : string) (recent : RecentFilings) (idx : nat) (accession : string)
  : result ListedRow :=
  let document := at_index (rf_primaryDocument recent) idx in
  filingUrl ← (if given document
               then url ← filingDocumentUrl cik accession (default EmptyString document);
                    mret (Some url)
               else mret None);
  mret {| lr_accession := accession;
          lr_form := at_index (rf_form recent) idx;
          lr_filingDate := at_index (rf_filingDate recent) idx;
          lr_reportDate := at_index (rf_reportDate recent) idx;
          lr_primaryDocument := document;
          lr_filingUrl := filingUrl |}.

(** The indices that the loop does not skip, with their accession number. *)
Definition numbered (accessionNumbers : list string) : list (nat * string) :=
  filter (fun entry => 0 < String.length (snd entry)) (imap pair accessionNumbers).

Definition zipRecentFilings (cik : string) (recent : option RecentFilings)
  : result (list ListedRow) :=
  match recent with
  | None => Ok []
  | Some recent =>
      mapM (fun entry => zip_row cik recent (fst entry) (snd entry))
           (numbered (default [] (rf_accessionNumber recent)))
  end.

Record ListParams := mkListParams {
  l_form : option string;
  l_from : option string;
  l_to : option string;
  l_queryLimit : option nat;
  l_offset : option nat
}.

Record ListMeta := mkListMeta {
  query_total_count : nat;
  query_returned_count : nat;
  query_truncated : bool;
  query_offset : nat
}.

Inductive Format := format_url | format_html | format_text | format_markdown.

(** The [data] of [runFilingsGet]: the row for the format [url], the
    content for the others. *)
Inductive GetData :=
| Located (accession : string) (form filingDate reportDate : option string)
          (primaryDocument filingUrl : string)
| Fetched (accession filingUrl content : string).

Section Commands.

(** [String.prototype.toUpperCase], on any string. *)
Variable toUpperCase : string -> string.
(** [resolveEntity(id, client, { strictMapMatch: false })] *)
Variable resolveEntity : string -> result Entity.
(** [client.fetchSecJson(url)], its [filings?.recent] *)
Variable fetchSecJson : string -> result (option RecentFilings).
(** [client.fetchSecText(url)] *)
Variable fetchSecText : string -> result string.
(** The conversion of the HTML of a filing to Markdown. *)
Variable extractMarkdownFromHtml : string -> string.

Definition submissionsUrl (cik : string) : result string :=
  cik10 ← normalizeCik cik;
  mret ("https://data.sec.gov/submissions/CIK" +:+ cik10 +:+ ".json").

(** The rows of the entity that [id] names. *)
Definition recentRows (id : string) : result (list ListedRow) :=
  entity ← resolveEntity id;
  url ← submissionsUrl (e_cik entity);
  recent ← fetchSecJson url;
  zipRecentFilings (e_cik entity) recent.

(** The callback of [rows.filter]. *)
Definition selects (params : ListParams) (row : ListedRow) : bool :=
  let normalizedForm := toUpperCase <$> l_form params in
  if given normalizedForm
     && negb (String.eqb (toUpperCase (default EmptyString (lr_form row)))
                         (default EmptyString normalizedForm))
  then false
  else if negb (given (lr_filingDate row))
  then negb (given (l_from params)) && negb (given (l_to params))
  else dateInRange (default EmptyString (lr_filingDate row)) (l_from params) (l_to params).

Definition runFilingsList (id : string) (params : ListParams)
  : result (list ListedRow * ListMeta) :=
  rows ← recentRows id;
  let filteredRows := filter (fun row => selects params row = true) rows in
  let offset := default 0 (l_offset params) in
  let queryLimit := default (length filteredRows) (l_queryLimit params) in
  let pagedRows := slice offset (offset + queryLimit) filteredRows in
  mret (pagedRows,
        {| query_total_count := length filteredRows;
           query_returned_count := length pagedRows;
           query_truncated := offset + length pagedRows <? length filteredRows;
           query_offset := offset |}).

Definition runFilingsGet (id accession : string) (format : Format) : result GetData :=
  normalized ← normalizeAccession accession;
  rows ← recentRows id;
  match List.find (fun row => String.eqb (lr_accession row) normalized) rows with
  | None =>
      Err (CLIError NOT_FOUND
             ("Accession " +:+ normalized +:+ " not found in recent submissions for "
              +:+ id))
  | Some found =>
      if negb (given (lr_primaryDocument found)) || negb (given (lr_filingUrl found))
      then Err (CLIError NOT_FOUND
                  ("No primary document found for accession " +:+ normalized))
      else
        let filingUrl := default EmptyString (lr_filingUrl found) in
        match format with
        | format_url =>
            Ok (Located (lr_accession found) (lr_form found) (lr_filingDate found)
                        (lr_reportDate found)
                        (default EmptyString (lr_primaryDocument found)) filingUrl)
        | format_html =>
            content ← fetchSecText filingUrl;
            mret (Fetched (lr_accession found) filingUrl content)
        | format_text | format_markdown =>
            content ← fetchSecText filingUrl;
            mret (Fetched (lr_accession found) filingUrl (extractMarkdownFromHtml content))
        end
  end.

End Commands.

End Filings.

(* ===================================================================== *)
(** ** The identity resolver ([src/sec/ticker-map.ts]) *)
(* ===================================================================== *)

Module TickerMap.

(** A JavaScript number, as far as this module looks at it: it prints it
    with [String] and compares it with the result of [Number.parseInt].
    [Natural n] is the natural number [n], which [String] prints in decimal
    digits when it is below [10^21]; [Other shown] is any other number (a
    fraction, a negative number, NaN, an infinity), given by what [String]
    prints for it: ["1.5"], ["-3"], ["NaN"]. *)
Inductive number :=
| Natural (n : N)
| Other (shown : string).

(** A record of the ticker map; [getTickerMap] keeps the records whose
    [cik_str] is of type [number], whatever number it is. *)
Record TickerRecord := mkTickerRecord {
  cik_str : number;
  ticker : string;
  title : string
}.

Record ResolvedEntity := mkResolvedEntity {
  re_input : string;
  re_cik : string;
  re_cik_numeric : number;
  re_ticker : option string;
  re_title : option string
}.

(** [Number.parseInt(digits, 10)] for a string of decimal digits. *)
Fixpoint parseInt_from (acc : N) (digits : string) : N :=
  match digits with
  | EmptyString => acc
  | String c rest => parseInt_from (10 * acc + N.of_nat (code c - 48)) rest
  end.

Definition parseInt (digits : string) : N := parseInt_from 0 digits.

(** [String(x)]; for a natural number from [10^21] on, which [String]
    prints with an exponent, the digits are not what it prints. *)
Definition numberToString (x : number) : string :=
  match x with
  | Natural n => NilZero.string_of_uint (N.to_uint n)
  | Other shown => shown
  end.

(** [x === n] for a natural number [n]. *)
Definition is_natural (n : N) (x : number) : bool :=
  match x with
  | Natural m => N.eqb m n
  | Other _ => false
  end.

Section Resolver.

(** [String.prototype.toUpperCase], on any string. *)
Variable toUpperCase : string -> string.

Definition findByTicker (records : list TickerRecord) (symbol : string)
  : option TickerRecord :=
  List.find (fun record => String.eqb (toUpperCase (ticker record)) symbol) records.

Definition findByCik (records : list TickerRecord) (cik10 : string) : option TickerRecord :=
  let cikNumeric := parseInt cik10 in
  List.find (fun record => is_natural cikNumeric (cik_str record)) records.

(** [resolveEntity] once the ticker map is there. *)
Definition resolveEntity (records : list TickerRecord) (strictMapMatch : bool) (id : string)
  : result ResolvedEntity :=
  if isLikelyCik id then
    cik ← normalizeCik id;
    let found := findByCik records cik in
    if negb (bool_decide (is_Some found)) && strictMapMatch
    then Err (CLIError NOT_FOUND ("No SEC ticker-map record found for CIK " +:+ cik))
    else Ok {| re_input := id;
               re_cik := cik;
               re_cik_numeric := Natural (parseInt cik);
               re_ticker := ticker <$> found;
               re_title := title <$> found |}
  else
    symbol ← normalizeTicker id;
    match findByTicker records symbol with
    | None =>
        Err (CLIError NOT_FOUND
               ("No SEC ticker-map record found for ticker " +:+ symbol))
    | Some found =>
        Ok {| re_input := id;
              re_cik := padStart 10 (numberToString (cik_str found));
              re_cik_numeric := cik_str found;
              re_ticker := Some (ticker found);
              re_title := Some (title found) |}
    end.

End Resolver.

End TickerMap.

(* ===================================================================== *)
(** * Further properties *)
(* ===================================================================== *)

(** *** Tokens *)

Lemma lower_char_idem (c : ascii) : lower_char (lower_char c) = lower_char c.
Proof. destruct c as [[] [] [] [] [] [] [] []]; reflexivity. Qed.

Lemma all_chars_app (P : ascii -> bool) (a b : string) :
  all_chars P (a +:+ b) = all_chars P a && all_chars P b.
Proof.
  induction a as [|c a IH]; simpl; [reflexivity|].
  now rewrite IH, andb_assoc.
Qed.

Lemma prefix_append (t b : string) : String.prefix t (t +:+ b) = true.
Proof.
  induction t as [|c t IH]; simpl; [now destruct b|].
  destruct (ascii_dec c c) as [_|Hne]; [exact IH | contradiction].
Qed.

Lemma includes_infix (a t b : string) : includes t (a +:+ t +:+ b) = true.
Proof.
  induction a as [|c a IH].
  - change (EmptyString +:+ t +:+ b) with (t +:+ b).
    pose proof (prefix_append t b) as Hp.
    destruct (t +:+ b); unfold includes; fold includes; now rewrite Hp.
  - change (String c a +:+ t +:+ b) with (String c (a +:+ t +:+ b)).
    simpl includes. rewrite IH. apply orb_true_r.
Qed.

(** Every run is a piece of the text read so far and made of [[a-z0-9]]. *)
Lemma alnum_runs_from_spec (s cur : string) :
  all_chars is_alnum cur = true ->
  Forall (fun t => all_chars is_alnum t = true /\
                   exists a b, cur +:+ s = a +:+ t +:+ b)
         (alnum_runs_from cur s).
Proof.
  revert cur. induction s as [|c s IH]; intros cur Hcur; simpl.
  - destruct (String.length cur =? 0); constructor; [|constructor].
    split; [exact Hcur|]. exists EmptyString, EmptyString. reflexivity.
  - destruct (is_alnum c) eqn:Hc.
    + assert (Hcur' : all_chars is_alnum (cur +:+ String c EmptyString) = true).
      { rewrite all_chars_app, Hcur. simpl. now rewrite Hc. }
      eapply Forall_impl; [exact (IH _ Hcur')|].
      intros t [Ht (a & b & E)]. split; [exact Ht|]. exists a, b.
      rewrite <- E, append_assoc. reflexivity.
    + assert (Hrest : Forall (fun t => all_chars is_alnum t = true /\
                                       exists a b, cur +:+ String c s = a +:+ t +:+ b)
                             (alnum_runs_from EmptyString s)).
      { eapply Forall_impl; [exact (IH EmptyString eq_refl)|].
        intros t [Ht (a & b & E)]. split; [exact Ht|].
        exists (cur +:+ String c a), b.
        rewrite append_assoc, append_cons. do 2 f_equal. exact E. }
      destruct (String.length cur =? 0); [exact Hrest|].
      constructor; [|exact Hrest].
      split; [exact Hcur|]. exists EmptyString, (String c s). reflexivity.
Qed.

(** X1.  A token is a piece of the lower-cased text, made of the characters
    [a-z] and [0-9] only, and at least two characters long. *)
Theorem tokenize_tokens (value : string) :
  Forall (fun token =>
            2 <= String.length token /\
            all_chars is_alnum token = true /\
            includes token (toLowerCase value) = true)
         (tokenize value).
Proof.
  apply Forall_forall. intros token Hin.
  unfold tokenize in Hin. apply list_elem_of_filter in Hin as [Hlen Hin].
  pose proof (alnum_runs_from_spec (toLowerCase value) EmptyString eq_refl) as Hall.
  rewrite Forall_forall in Hall. destruct (Hall _ Hin) as [Hchars (a & b & E)].
  split; [exact Hlen|]. split; [exact Hchars|].
  change (EmptyString +:+ toLowerCase value) with (toLowerCase value) in E.
  rewrite E. apply includes_infix.
Qed.

(** *** Term frequencies *)

(** How often [token] occurs in [tokens]. *)
Definition occurrences (token : string) (tokens : list string) : nat :=
  length (filter (fun t => t = token) tokens).

(** The sum of the counts held by a frequency map. *)
Definition frequency_total (frequency : gmap string nat) : nat :=
  map_fold (fun _ count sum => count + sum) 0 frequency.

Lemma frequency_total_fresh (frequency : gmap string nat) (token : string) (count : nat) :
  frequency !! token = None ->
  frequency_total (<[token := count]> frequency) = count + frequency_total frequency.
Proof.
  intros Hfresh. unfold frequency_total.
  apply (map_fold_insert_L (fun _ count sum => count + sum)); [intros; lia | exact Hfresh].
Qed.

Lemma frequency_total_insert (frequency : gmap string nat) (token : string) (count : nat) :
  frequency_total (<[token := count]> frequency) + get frequency token
  = frequency_total frequency + count.
Proof.
  unfold get. destruct (frequency !! token) as [n|] eqn:Hn; simpl.
  - pose proof (frequency_total_fresh (delete token frequency) token count
                  (lookup_delete_eq _ _)) as Hnew.
    pose proof (frequency_total_fresh (delete token frequency) token n
                  (lookup_delete_eq _ _)) as Hold.
    rewrite insert_delete_eq in Hnew.
    rewrite insert_delete_id in Hold by exact Hn.
    lia.
  - rewrite frequency_total_fresh by exact Hn. lia.
Qed.

Lemma buildTermFrequency_fold (tokens : list string) (m : gmap string nat) :
  let m' := foldl (fun frequency token => <[token := get frequency token + 1]> frequency)
                  m tokens in
  (forall t, get m' t = get m t + occurrences t tokens) /\
  frequency_total m' = frequency_total m + length tokens.
Proof.
  revert m. induction tokens as [|x tokens IH]; intros m; simpl.
  - split; [intros t; unfold occurrences; simpl; lia | lia].
  - destruct (IH (<[x := get m x + 1]> m)) as [IHget IHtotal].
    split.
    + intros t. rewrite IHget. unfold occurrences. rewrite filter_cons.
      unfold get at 1. destruct (decide (x = t)) as [->|Hne].
      * rewrite lookup_insert_eq. simpl. lia.
      * rewrite lookup_insert_ne by exact Hne. fold (get m t). lia.
    + rewrite IHtotal. pose proof (frequency_total_insert m x (get m x + 1)). lia.
Qed.

(** X2.  The frequency map counts the occurrences of every token, and its
    counts add up to the number of tokens. *)
Theorem buildTermFrequency_counts (tokens : list string) :
  (forall token, get (buildTermFrequency tokens) token = occurrences token tokens) /\
  frequency_total (buildTermFrequency tokens) = length tokens.
Proof.
  destruct (buildTermFrequency_fold tokens ∅) as [Hget Htotal].
  split.
  - intros token. unfold buildTermFrequency. rewrite Hget.
    unfold get. now rewrite lookup_empty.
  - unfold buildTermFrequency. rewrite Htotal. unfold frequency_total.
    now rewrite map_fold_empty.
Qed.

(** *** The chunks of a document *)

Lemma all_space_join_blank (l : list string) :
  Forall (fun x => all_space x = true) l -> all_space (join NL l) = true.
Proof.
  induction l as [|x l IH]; [reflexivity|].
  intros Hall. apply Forall_cons_1 in Hall as [Hx Hl].
  destruct l as [|y l]; [exact Hx|].
  change (join NL (x :: y :: l)) with (x +:+ NL +:+ join NL (y :: l)).
  rewrite !all_space_app, Hx, (IH Hl). reflexivity.
Qed.

(** What the loop pushes from [i] on are the windows with a text. *)
Lemma chunk_loop_elems path acc lines chunkLines chunkOverlap i :
  Forall (fun c => exists start,
              i <= start < length lines /\
              c = chunk_at path acc lines chunkLines start /\
              window_text lines chunkLines start <> EmptyString)
         (chunk_loop path acc lines chunkLines chunkOverlap i).
Proof.
  funelim (chunk_loop path acc lines chunkLines chunkOverlap i).
  - clear Heqcall.
    assert (Hnext : Forall (fun c => exists start,
                                lineIdx <= start < length lines /\
                                c = chunk_at path acc lines chunkLines start /\
                                window_text lines chunkLines start <> EmptyString)
                           (chunk_loop path acc lines chunkLines chunkOverlap
                                       (lineIdx + step chunkLines chunkOverlap))).
    { eapply Forall_impl; [exact H|]. intros c (start & Hs & Hc & Ht).
      exists start. split; [lia | now split]. }
    destruct (String.length (window_text lines chunkLines lineIdx) =? 0) eqn:Htext;
      destruct (length lines <=? window_end lines chunkLines lineIdx);
      repeat constructor; try exact Hnext.
    all: exists lineIdx; split; [lia|]; split; [reflexivity|].
    all: apply Nat.eqb_neq in Htext; now rewrite length_zero_iff in Htext.
  - constructor.
Qed.

Lemma window_nonempty (lines : list string) (chunkLines start : nat) :
  window_text lines chunkLines start <> EmptyString ->
  start < window_end lines chunkLines start.
Proof.
  intros Htext. destruct (decide (start < window_end lines chunkLines start)) as [|Hn];
    [assumption|].
  exfalso. apply Htext. unfold window_text, slice.
  replace (window_end lines chunkLines start - start) with 0 by lia.
  reflexivity.
Qed.

(** What every chunk of a document is. *)
Definition chunk_of (params : ChunkParams) (c : Chunk) : Prop :=
  let lines := split_lines (p_content params) in
  docPath c = p_docPath params /\
  accession c = extractAccession (p_docPath params) /\
  1 <= lineStart c /\ lineStart c <= lineEnd c /\ lineEnd c <= length lines /\
  lineEnd c < lineStart c + p_chunkLines params /\
  text c = trim (join NL (slice (lineStart c - 1) (lineEnd c) lines)) /\
  text c <> EmptyString /\
  tokenCount c = length (tokenize (text c)) /\
  termFrequency c = buildTermFrequency (tokenize (text c)).

Lemma chunkDocument_elem (params : ChunkParams) (c : Chunk) :
  c ∈ chunkDocument params -> chunk_of params c.
Proof.
  intros Hin. unfold chunkDocument in Hin. unfold chunk_of.
  set (lines := split_lines (p_content params)) in *.
  pose proof (chunk_loop_elems (p_docPath params) (extractAccession (p_docPath params))
                lines (p_chunkLines params) (p_chunkOverlap params) 0) as Hall.
  rewrite Forall_forall in Hall.
  destruct (Hall c Hin) as (start & Hstart & -> & Htext).
  pose proof (window_nonempty _ _ _ Htext) as Hwin.
  cbn [docPath accession lineStart lineEnd text tokenCount termFrequency chunk_at].
  replace (start + 1 - 1) with start by lia.
  unfold window_end in *.
  repeat split; try reflexivity; try exact Htext; lia.
Qed.

(** X3.  Every chunk of a document carries the document's path and
    accession, spans a range of lines inside the document that is no longer
    than the window, holds the trimmed text of exactly those lines, which is
    not empty, and counts the tokens of that text. *)
Theorem chunkDocument_chunks (params : ChunkParams) :
  Forall (fun c =>
            let lines := split_lines (p_content params) in
            docPath c = p_docPath params /\
            accession c = extractAccession (p_docPath params) /\
            1 <= lineStart c /\ lineStart c <= lineEnd c /\ lineEnd c <= length lines /\
            lineEnd c < lineStart c + p_chunkLines params /\
            text c = trim (join NL (slice (lineStart c - 1) (lineEnd c) lines)) /\
            text c <> EmptyString /\
            tokenCount c = length (tokenize (text c)) /\
            termFrequency c = buildTermFrequency (tokenize (text c)))
         (chunkDocument params).
Proof. apply Forall_forall. intros c Hc. exact (chunkDocument_elem params c Hc). Qed.

Lemma chunk_loop_covers path acc lines chunkLines chunkOverlap
      (k start i : nat) (line : string) :
  0 < chunkLines ->
  length lines - start <= k -> start <= i ->
  lines !! i = Some line -> all_space line = false ->
  exists c, c ∈ chunk_loop path acc lines chunkLines chunkOverlap start /\
            lineStart c <= i + 1 /\ i + 1 <= lineEnd c.
Proof.
  intros Hpos. revert start.
  induction k as [|k IH]; intros start Hk Hle Hline Hsolid;
    pose proof (lookup_lt_Some _ _ _ Hline) as Hi; [lia|].
  rewrite chunk_loop_unfold_eq. unfold chunk_loop_unfold.
  destruct (decide (start < length lines)) as [Hlt|Hn]; [|lia].
  simpl.
  destruct (decide (i < window_end lines chunkLines start)) as [Hin|Hout].
  - assert (Htext : (String.length (window_text lines chunkLines start) =? 0) = false).
    { apply Nat.eqb_neq. rewrite length_zero_iff. unfold window_text.
      rewrite trim_empty. intros Hblank%all_space_join.
      rewrite Forall_forall in Hblank.
      assert (Hmem : line ∈ slice start (window_end lines chunkLines start) lines).
      { unfold slice. apply list_elem_of_lookup. exists (i - start).
        rewrite lookup_take_lt by lia. rewrite lookup_drop.
        now replace (start + (i - start)) with i by lia. }
      specialize (Hblank _ Hmem). simpl in Hblank. congruence. }
    rewrite Htext. exists (chunk_at path acc lines chunkLines start).
    split; [apply list_elem_of_here|]. cbn [lineStart lineEnd chunk_at]. lia.
  - assert (Hmore : (length lines <=? window_end lines chunkLines start) = false).
    { apply Nat.leb_gt. lia. }
    rewrite Hmore.
    assert (Hstep : start + step chunkLines chunkOverlap <= i).
    { unfold window_end, step in *. lia. }
    destruct (IH (start + step chunkLines chunkOverlap)) as (c & Hc & Hrange);
      [unfold step; lia | exact Hstep | exact Hline | exact Hsolid |].
    exists c. split; [|exact Hrange].
    destruct (String.length (window_text lines chunkLines start) =? 0);
      [exact Hc | now apply list_elem_of_further].
Qed.

(** X4.  With a window of at least one line, every line of the document
    that is not blank lies in the line range of some chunk. *)
Theorem chunkDocument_covers (params : ChunkParams) (i : nat) (line : string) :
  0 < p_chunkLines params ->
  split_lines (p_content params) !! i = Some line ->
  all_space line = false ->
  exists c, c ∈ chunkDocument params /\ lineStart c <= i + 1 /\ i + 1 <= lineEnd c.
Proof.
  intros Hpos Hline Hsolid. unfold chunkDocument.
  eapply (chunk_loop_covers _ _ _ _ _ (length (split_lines (p_content params))) 0);
    eauto; lia.
Qed.

Lemma chunkDocument_covers_witness :
  exists c,
    c ∈ chunkDocument {| p_docPath := "filings/0000320193-26-000111.md";
                         p_content := sample_document;
                         p_chunkLines := 2;
                         p_chunkOverlap := 1 |} /\
    lineStart c <= 2 + 1 /\ 2 + 1 <= lineEnd c.
Proof.
  apply (chunkDocument_covers
           {| p_docPath := "filings/0000320193-26-000111.md";
              p_content := sample_document;
              p_chunkLines := 2;
              p_chunkOverlap := 1 |}
           2 "No disagreement with company operations.");
    [simpl; lia | reflexivity | reflexivity].
Defined.

(** X5.  With a window of at least one line, a document has no chunk
    exactly when all its lines are blank. *)
Theorem chunkDocument_empty_iff (params : ChunkParams) :
  0 < p_chunkLines params ->
  chunkDocument params = []
  <-> Forall (fun line => all_space line = true) (split_lines (p_content params)).
Proof.
  intros Hpos. split.
  - intros Hnone. apply Forall_lookup. intros i line Hline.
    destruct (all_space line) eqn:Hsolid; [reflexivity|].
    destruct (chunk_loop_covers (p_docPath params) (extractAccession (p_docPath params))
                (split_lines (p_content params)) (p_chunkLines params)
                (p_chunkOverlap params) (length (split_lines (p_content params)))
                0 i line) as (c & Hc & _); try assumption; try lia.
    unfold chunkDocument in Hnone. rewrite Hnone in Hc. now apply elem_of_nil in Hc.
  - intros Hblank. destruct (chunkDocument params) as [|c rest] eqn:Hchunks; [reflexivity|].
    exfalso.
    assert (Hc : c ∈ chunkDocument params) by (rewrite Hchunks; apply list_elem_of_here).
    destruct (chunkDocument_elem params c Hc) as (_ & _ & _ & _ & _ & _ & Htext & Hne & _).
    apply Hne. rewrite Htext. apply trim_empty, all_space_join_blank.
    rewrite Forall_forall in Hblank. apply Forall_forall. intros x Hx. apply Hblank.
    unfold slice in Hx. apply list_elem_of_lookup in Hx as (j & Hj).
    apply lookup_take_Some in Hj as [Hj _]. rewrite lookup_drop in Hj.
    eapply list_elem_of_lookup_2. exact Hj.
Qed.

Lemma chunkDocument_empty_iff_witness :
  chunkDocument {| p_docPath := "/corpus/blank.md";
                   p_content := String "010" "  ";
                   p_chunkLines := 40;
                   p_chunkOverlap := 10 |} = []
  <-> Forall (fun line => all_space line = true) (split_lines (String "010" "  ")).
Proof.
  apply (chunkDocument_empty_iff
           {| p_docPath := "/corpus/blank.md";
              p_content := String "010" "  ";
              p_chunkLines := 40;
              p_chunkOverlap := 10 |}).
  simpl. lia.
Defined.

(** *** Accession numbers *)

Lemma accession_at_prefix (s : string) :
  accession_at s = accession_only (String.substring 0 20 s).
Proof.
  do 20 (destruct s as [|? s]; [reflexivity|]).
  unfold accession_at, accession_only. cbn [String.substring digits_then dash_then].
  destruct s; reflexivity.
Qed.

Lemma substring_all (s : string) : String.substring 0 (String.length s) s = s.
Proof. induction s as [|c s IH]; simpl; [reflexivity | now rewrite IH]. Qed.

Lemma substring_short (n : nat) (s : string) :
  String.length s <= n -> String.substring 0 n s = s.
Proof.
  revert n. induction s as [|c s IH]; intros n Hn; simpl in *.
  - now destruct n.
  - destruct n as [|n]; [lia|]. rewrite IH by lia. reflexivity.
Qed.

Lemma substring_append (n : nat) (u x : string) :
  String.substring 0 n (u +:+ x)
  = if n <=? String.length u then String.substring 0 n u
    else u +:+ String.substring 0 (n - String.length u) x.
Proof.
  revert n. induction u as [|c u IH]; intros n.
  - change (EmptyString +:+ x) with x. simpl.
    destruct n; simpl; [now destruct x | reflexivity].
  - rewrite append_cons. destruct n as [|n]; [reflexivity|].
    cbn [String.substring String.length]. rewrite IH.
    change (S n <=? S (String.length u)) with (n <=? String.length u).
    destruct (n <=? String.length u); [reflexivity|].
    rewrite append_cons. reflexivity.
Qed.

(** The characters of an accession number. *)
Definition accession_char (c : ascii) : bool := is_digit c || Ascii.eqb c "-".

Lemma accession_only_chars (a : string) :
  accession_only a = true ->
  String.length a = 20 /\ all_chars accession_char a = true.
Proof.
  unfold accession_only.
  do 20 (destruct a as [|? a];
         [cbn [digits_then dash_then]; rewrite ?andb_false_r; discriminate|]).
  cbn [digits_then dash_then all_chars String.length]. unfold accession_char.
  intros H. repeat (apply andb_true_iff in H as [?c H]).
  apply Nat.eqb_eq, length_zero_iff in H. subst a.
  split; [reflexivity|].
  repeat match goal with
         | Hc : _ = true |- _ => rewrite Hc; clear Hc
         end.
  rewrite ?orb_true_r. reflexivity.
Qed.

Lemma accession_char_solid (c : ascii) : accession_char c = true -> is_space c = false.
Proof. destruct c as [[] [] [] [] [] [] [] []]; (discriminate || reflexivity). Qed.

Lemma trimEnd_solid (s : string) :
  all_chars (fun c => negb (is_space c)) s = true -> trimEnd s = s.
Proof.
  induction s as [|c s IH]; [reflexivity|].
  cbn [all_chars trimEnd]. intros [Hc Hs]%andb_true_iff.
  rewrite (IH Hs). apply negb_true_iff in Hc. rewrite Hc. now destruct s.
Qed.

Lemma trim_solid (s : string) :
  all_chars (fun c => negb (is_space c)) s = true -> trim s = s.
Proof.
  intros Hs. unfold trim.
  assert (Hstart : trimStart s = s).
  { destruct s as [|c s]; [reflexivity|]. simpl in *.
    apply andb_true_iff in Hs as [Hc _]. apply negb_true_iff in Hc. now rewrite Hc. }
  rewrite Hstart. now apply trimEnd_solid.
Qed.

Lemma all_chars_impl (P Q : ascii -> bool) (s : string) :
  (forall c, P c = true -> Q c = true) -> all_chars P s = true -> all_chars Q s = true.
Proof.
  intros HPQ. induction s as [|c s IH]; simpl; [reflexivity|].
  intros [Hc Hs]%andb_true_iff. now rewrite (HPQ c Hc), IH.
Qed.

Lemma normalizeAccession_fixed (a : string) :
  accession_only a = true -> normalizeAccession a = Ok a.
Proof.
  intros Ha. unfold normalizeAccession.
  assert (Htrim : trim a = a).
  { apply trim_solid. destruct (accession_only_chars a Ha) as [_ Hchars].
    eapply all_chars_impl; [|exact Hchars].
    intros c Hc. now rewrite (accession_char_solid c Hc). }
  now rewrite Htrim, Ha.
Qed.

Lemma extractAccession_found (docPath a : string) :
  extractAccession docPath = Some a ->
  exists before rest,
    docPath = before +:+ rest /\ accession_at rest = true /\
    a = String.substring 0 20 rest /\ extractAccession before = None.
Proof.
  induction docPath as [|c p IH].
  - simpl. destruct (accession_at EmptyString) eqn:E; [|discriminate].
    discriminate E.
  - cbn [extractAccession]. destruct (accession_at (String c p)) eqn:E.
    + intros [= <-]. exists EmptyString, (String c p). repeat split. exact E.
    + intros H. destruct (IH H) as (before & rest & -> & Hat & Ha & Hnone).
      exists (String c before), rest. repeat split; try assumption.
      cbn [extractAccession].
      destruct (accession_at (String c before)) eqn:E'; [|exact Hnone].
      exfalso. rewrite accession_at_prefix in E, E'.
      rewrite <- append_cons, substring_append in E.
      destruct (20 <=? String.length (String c before)) eqn:Hlen; [congruence|].
      apply accession_only_chars in E' as [Hl _].
      apply Nat.leb_gt in Hlen.
      pose proof (substring_short 20 (String c before)) as Hs.
      rewrite Hs in Hl by lia. lia.
Qed.

(** X6.  The accession number taken from a document path is a piece of the
    path that the accession normaliser accepts and leaves as it is. *)
Theorem extractAccession_normalized (docPath a : string) :
  extractAccession docPath = Some a ->
  includes a docPath = true /\ normalizeAccession a = Ok a.
Proof.
  intros (before & rest & -> & Hat & -> & _)%extractAccession_found.
  rewrite accession_at_prefix in Hat.
  split; [|now apply normalizeAccession_fixed].
  destruct (accession_only_chars _ Hat) as [Hlen _].
  assert (Hsplit : exists tail, rest = String.substring 0 20 rest +:+ tail).
  { clear Hat. revert Hlen. generalize 20. induction rest as [|c r IH]; intros n Hn.
    - exists EmptyString. now destruct n.
    - destruct n as [|n]; [exists (String c r); reflexivity|].
      cbn [String.substring String.length] in *.
      destruct (IH n) as [tail Ht]; [lia|].
      exists tail. rewrite append_cons. now rewrite <- Ht. }
  destruct Hsplit as [tail Ht]. rewrite Ht at 2. apply includes_infix.
Qed.

Lemma extractAccession_normalized_witness :
  includes "0000320193-26-000111" "filings/0000320193-26-000111.md" = true /\
  normalizeAccession "0000320193-26-000111" = Ok "0000320193-26-000111".
Proof.
  apply (extractAccession_normalized "filings/0000320193-26-000111.md").
  reflexivity.
Defined.

Lemma accession_at_slash (u t : string) :
  accession_at (u +:+ String "/" t) = true -> accession_at u = true.
Proof.
  rewrite (accession_at_prefix u), (accession_at_prefix (u +:+ String "/" t)).
  rewrite substring_append.
  destruct (20 <=? String.length u) eqn:Hlen; [tauto|].
  apply Nat.leb_gt in Hlen.
  intros [_ Hchars]%accession_only_chars. exfalso.
  rewrite all_chars_app in Hchars. apply andb_true_iff in Hchars as [_ Hchars].
  destruct (20 - String.length u) as [|n] eqn:Hn; [lia|].
  discriminate Hchars.
Qed.

Lemma extractAccession_skip (u t : string) :
  extractAccession u = None ->
  extractAccession (u +:+ String "/" t) = extractAccession (String "/" t).
Proof.
  induction u as [|c u IH]; [reflexivity|].
  cbn [extractAccession]. destruct (accession_at (String c u)) eqn:E; [discriminate|].
  intros Hnone. rewrite append_cons. cbn [extractAccession].
  rewrite <- append_cons.
  destruct (accession_at (String c u +:+ String "/" t)) eqn:E'.
  - apply accession_at_slash in E'. congruence.
  - exact (IH Hnone).
Qed.

Lemma extractAccession_other (c : ascii) (s : string) :
  is_digit c = false -> extractAccession (String c s) = extractAccession s.
Proof.
  intros Hc. cbn [extractAccession]. unfold accession_at. cbn [digits_then].
  now rewrite Hc.
Qed.

(** X7.  The path under which the sync stores a filing gives back the
    accession number of the filing, when the directory of the company
    holds no accession number itself. *)
Theorem extractAccession_filingDocPath (cacheRoot cik accession : string) :
  normalizeAccession accession = Ok accession ->
  extractAccession (companyCacheDir cacheRoot cik) = None ->
  extractAccession (filingDocPath cacheRoot cik accession) = Some accession.
Proof.
  intros Hnorm Hdir.
  assert (Hacc : accession_only accession = true).
  { unfold normalizeAccession in Hnorm.
    destruct (accession_only (trim accession)) eqn:E; [|discriminate].
    injection Hnorm as Htrim. now rewrite Htrim in E. }
  unfold filingDocPath, path_join.
  change (join "/" [companyCacheDir cacheRoot cik; "filings"; accession +:+ ".md"])
    with (companyCacheDir cacheRoot cik
          +:+ String "/" ("filings" +:+ String "/" (accession +:+ ".md"))).
  rewrite (extractAccession_skip _ _ Hdir).
  change ("filings" +:+ String "/" (accession +:+ ".md"))
    with (String "f" (String "i" (String "l" (String "i" (String "n" (String "g"
            (String "s" (String "/" (accession +:+ ".md"))))))))).
  rewrite !extractAccession_other by reflexivity.
  destruct (accession_only_chars _ Hacc) as [Hlen _].
  assert (Hat : accession_at (accession +:+ ".md") = true).
  { rewrite accession_at_prefix, substring_append, Hlen.
    change (20 <=? 20) with true. cbv iota.
    rewrite <- Hlen at 1. now rewrite substring_all. }
  destruct (accession +:+ ".md") eqn:E; cbn [extractAccession]; rewrite Hat.
  - destruct accession; discriminate.
  - rewrite <- E, substring_append, Hlen. change (20 <=? 20) with true. cbv iota.
    rewrite <- Hlen at 1. now rewrite substring_all.
Qed.

Lemma extractAccession_filingDocPath_witness :
  extractAccession (filingDocPath "/cache" "0000320193" "0000320193-26-000111")
  = Some "0000320193-26-000111".
Proof.
  apply extractAccession_filingDocPath; reflexivity.
Defined.

(** *** Query terms *)

Lemma uniqueTokens_from_spec (tokens : list string) (seen : gset string) :
  NoDup (uniqueTokens_from seen tokens) /\
  forall t, t ∈ uniqueTokens_from seen tokens <-> t ∈ tokens /\ t ∉ seen.
Proof.
  revert seen. induction tokens as [|x tokens IH]; intros seen; simpl.
  - split; [constructor|]. intros t. rewrite elem_of_nil. tauto.
  - destruct (decide (x ∈ seen)) as [Hin|Hout].
    + destruct (IH seen) as [Hnd Hmem]. split; [exact Hnd|].
      intros t. rewrite Hmem, elem_of_cons. split; [tauto|].
      intros [[->|Ht] Hs]; [contradiction | tauto].
    + destruct (IH ({[x]} ∪ seen)) as [Hnd Hmem]. split.
      * constructor; [|exact Hnd]. rewrite Hmem, elem_of_union, elem_of_singleton.
        tauto.
      * intros t. rewrite !elem_of_cons, Hmem, elem_of_union, elem_of_singleton.
        destruct (decide (t = x)) as [->|Hne]; tauto.
Qed.

Lemma uniqueTokens_spec (tokens : list string) :
  NoDup (uniqueTokens tokens) /\ forall t, t ∈ uniqueTokens tokens <-> t ∈ tokens.
Proof.
  destruct (uniqueTokens_from_spec tokens ∅) as [Hnd Hmem].
  split; [exact Hnd|]. intros t. unfold uniqueTokens. rewrite Hmem, elem_of_empty.
  tauto.
Qed.

(** X8.  The query terms are tokens of the query without repetition; they
    hold every token that is not a stop word, and no stop word unless the
    query has nothing but stop words; there is no query term exactly when
    the query has no token. *)
Theorem buildQueryTerms_spec (query : string) :
  let terms := buildQueryTerms query in
  NoDup terms /\
  (forall t, t ∈ terms -> t ∈ tokenize query) /\
  (forall t, t ∈ tokenize query -> t ∉ QUERY_STOPWORDS -> t ∈ terms) /\
  (forall t, t ∈ terms -> t ∈ QUERY_STOPWORDS ->
             forall t', t' ∈ tokenize query -> t' ∈ QUERY_STOPWORDS) /\
  (terms = [] <-> tokenize query = []).
Proof.
  unfold buildQueryTerms.
  set (raw := tokenize query).
  set (filtered := filter (fun token => token ∉ QUERY_STOPWORDS) raw).
  assert (Hf : forall t, t ∈ filtered <-> (t ∉ QUERY_STOPWORDS) /\ t ∈ raw).
  { intros t. exact (list_elem_of_filter (fun token => token ∉ QUERY_STOPWORDS) raw t). }
  destruct (0 <? length filtered) eqn:Hlen; cbv zeta.
  - destruct (uniqueTokens_spec filtered) as [Hnd Hmem].
    split; [exact Hnd|]. split; [intros t; rewrite Hmem, Hf; tauto|].
    split; [intros t Ht Hs; rewrite Hmem, Hf; tauto|].
    split; [intros t Ht Hs; rewrite Hmem, Hf in Ht; tauto|].
    apply Nat.ltb_lt in Hlen.
    destruct filtered as [|x filtered'] eqn:Hfiltered; [simpl in Hlen; lia|].
    assert (Hx : x ∈ raw) by (apply Hf; left).
    split; intros Hnil.
    + assert (Hx' : x ∈ uniqueTokens (x :: filtered')) by (apply Hmem; left).
      rewrite Hnil in Hx'. now apply elem_of_nil in Hx'.
    + rewrite Hnil in Hx. now apply elem_of_nil in Hx.
  - destruct (uniqueTokens_spec raw) as [Hnd Hmem].
    apply Nat.ltb_ge in Hlen.
    assert (Hnone : filtered = []) by (destruct filtered; [reflexivity | simpl in Hlen; lia]).
    split; [exact Hnd|]. split; [intros t; now rewrite Hmem|].
    split; [intros t Ht _; now apply Hmem|].
    split.
    + intros _ _ _ t' Ht'. destruct (decide (t' ∈ QUERY_STOPWORDS)) as [|Hn]; [assumption|].
      assert (Hin : t' ∈ filtered) by (apply Hf; tauto).
      rewrite Hnone in Hin. now apply elem_of_nil in Hin.
    + split; intros Hnil.
      * destruct raw as [|x raw']; [reflexivity|].
        assert (Hx' : x ∈ uniqueTokens (x :: raw')) by (apply Hmem; left).
        rewrite Hnil in Hx'. now apply elem_of_nil in Hx'.
      * now rewrite Hnil.
Qed.

(** *** The score of a chunk *)

Lemma countTermHits_spec (queryTerms : list string) (termFrequency : gmap string nat) :
  countTermHits queryTerms termFrequency
  = length (filter (fun term => 0 < get termFrequency term) queryTerms).
Proof.
  unfold countTermHits.
  assert (Hgen : forall n,
             foldl (fun hits term => hits + (if 0 <? get termFrequency term then 1 else 0))
                   n queryTerms
             = n + length (filter (fun term => 0 < get termFrequency term) queryTerms)).
  { induction queryTerms as [|t terms IH]; intros n; simpl; [lia|].
    rewrite IH, filter_cons.
    destruct (decide (0 < get termFrequency t)) as [Hhit|Hmiss].
    - apply Nat.ltb_lt in Hhit. rewrite Hhit. simpl. lia.
    - apply Nat.nlt_ge, Nat.ltb_ge in Hmiss. rewrite Hmiss. lia. }
  apply (Hgen 0).
Qed.

Lemma bm25Score_absent (P : Bm25Params) :
  Forall (fun term => ~ 0 < get (termFrequency (bm_chunk P)) term) (bm_queryTerms P) ->
  bm25Score P = 0%R.
Proof.
  unfold bm25Score. generalize (bm_queryTerms P). intros terms Hall.
  induction Hall as [|t terms Ht _ IH]; simpl; [reflexivity|].
  unfold bm25_step at 2.
  replace (get (termFrequency (bm_chunk P)) t =? 0) with true
    by (symmetry; apply Nat.eqb_eq; lia).
  exact IH.
Qed.

Section Adjusted.
Local Open Scope R_scope.

Variable P : AdjustParams.

Local Abbreviation hits := (countTermHits (adj_queryTerms P) (termFrequency (adj_chunk P))).
Local Abbreviation filtered_out :=
  ((3 <=? length (adj_queryTerms P))%nat && (hits <? 2)%nat).

Lemma bonus_bounds (n : nat) : 0 <= Rmin 0.24 (INR n * 0.08) <= 0.24.
Proof.
  split; [|apply Rmin_l].
  apply Rmin_glb; [lra|]. pose proof (pos_INR n). nra.
Qed.

(** The heuristics rescale a positive base score by a factor between 0.36
    and 1.55, unless they drop the chunk. *)
Lemma adjustedChunkScore_cases :
  (adj_baseScore P <= 0 /\ adjustedChunkScore P = 0) \/
  (0 < adj_baseScore P /\ filtered_out = true /\ adjustedChunkScore P = 0) \/
  (0 < adj_baseScore P /\ filtered_out = false /\
   0.36 * adj_baseScore P <= adjustedChunkScore P <= 1.55 * adj_baseScore P).
Proof.
  unfold adjustedChunkScore.
  destruct (decide (adj_baseScore P <= 0)) as [Hle|Hpos]; [left; now split|].
  right. apply Rnot_le_lt in Hpos.
  destruct filtered_out eqn:Hf; [left; repeat split; assumption|].
  right. split; [exact Hpos|]. split; [reflexivity|].
  cbv zeta.
  pose proof (bonus_bounds
                (countBigramHits (text (adj_chunk P)) (adj_queryBigrams P))) as Hbonus.
  revert Hbonus.
  generalize (Rmin 0.24
                (INR (countBigramHits (text (adj_chunk P)) (adj_queryBigrams P)) * 0.08)).
  intros bonus Hbonus.
  repeat case_match; nra.
Qed.

End Adjusted.

(** X9.  The adjusted score is never negative and at most 1.55 times a
    positive base score; it is positive exactly when the base score is
    positive and the chunk is not dropped for matching fewer than two terms
    of a query of three or more, and then it is at least 0.36 times the base
    score. *)
Theorem adjustedChunkScore_bounds (params : AdjustParams) :
  let hits := countTermHits (adj_queryTerms params) (termFrequency (adj_chunk params)) in
  let dropped := (3 <=? length (adj_queryTerms params)) && (hits <? 2) in
  (0 <= adjustedChunkScore params)%R /\
  (adjustedChunkScore params <= 1.55 * Rmax 0 (adj_baseScore params))%R /\
  ((0 < adjustedChunkScore params)%R
   <-> (0 < adj_baseScore params)%R /\ dropped = false) /\
  ((0 < adjustedChunkScore params)%R ->
   (0.36 * adj_baseScore params <= adjustedChunkScore params)%R).
Proof.
  intros hits dropped. subst hits dropped.
  pose proof (Rmax_l 0 (adj_baseScore params)) as Hl.
  pose proof (Rmax_r 0 (adj_baseScore params)) as Hr.
  destruct (adjustedChunkScore_cases params)
    as [[Hbase ->] | [(Hbase & Hdrop & ->) | (Hbase & Hdrop & Hlow & Hhigh)]].
  - intuition lra.
  - intuition (lra || congruence).
  - intuition (lra || nra).
Qed.

(** *** The rows of a search result *)


Lemma ensureReadableTextFile_err (σ : fs) (filePath : string) (e : exn) :
  ensureReadableTextFile σ filePath = Err e ->
  (σ !! filePath = None /\ e = CLIError NOT_FOUND ("Document not found: " +:+ filePath))
  \/ (σ !! filePath <> None /\ exists message, e = CLIError VALIDATION_ERROR message).
Proof.
  unfold ensureReadableTextFile, stat_isFile, readFile.
  destruct (σ !! filePath) as [[c| |]|]; cbn.
  - destruct (includes (String "000" EmptyString) c); [|discriminate].
    intros [= <-]. right. split; [discriminate | eauto].
  - intros [= <-]. right. split; [discriminate | eauto].
  - intros [= <-]. right. split; [discriminate | eauto].
  - intros [= <-]. left. now split.
Qed.

Lemma mapM_result_err {A B} (f : A -> result B) (l : list A) (e : exn) :
  mapM f l = Err e -> exists x, x ∈ l /\ f x = Err e.
Proof.
  induction l as [|x l IH]; simpl; [discriminate|].
  unfold mbind, result_bind at 1. destruct (f x) as [y|e'] eqn:Hfx.
  - unfold mbind, result_bind at 1. destruct (mapM f l) as [k|e'']; [discriminate|].
    intros [= <-]. destruct (IH eq_refl) as (x' & Hin & Hx').
    exists x'. split; [now apply list_elem_of_further | exact Hx'].
  - intros [= <-]. exists x. split; [apply list_elem_of_here | exact Hfx].
Qed.


Lemma hit_or_absent (terms : list string) (frequency : gmap string nat) :
  (exists term, term ∈ terms /\ 0 < get frequency term)
  \/ Forall (fun term => ~ 0 < get frequency term) terms.
Proof.
  induction terms as [|t terms [(term & Hin & Hhit)|Hnone]].
  - right. constructor.
  - left. exists term. split; [now apply list_elem_of_further | exact Hhit].
  - destruct (decide (0 < get frequency t)) as [Hhit|Hmiss].
    + left. exists t. split; [apply list_elem_of_here | exact Hhit].
    + right. now constructor.
Qed.

(** A chunk with a positive adjusted score holds a query term, and two of
    them when the query has three terms or more. *)
Lemma exact_score_positive (queryTerms queryBigrams : list string) (allChunks : list Chunk)
      (chunk : Chunk) :
  (0 < exact_score queryTerms queryBigrams allChunks chunk)%R ->
  (exists term, term ∈ queryTerms /\ 0 < get (termFrequency chunk) term) /\
  (3 <= length queryTerms -> 2 <= countTermHits queryTerms (termFrequency chunk)).
Proof.
  unfold exact_score. intros Hpos.
  match type of Hpos with (0 < adjustedChunkScore ?P)%R =>
    destruct (adjustedChunkScore_cases P)
      as [[_ Hzero] | [(_ & _ & Hzero) | (Hbase & Hkept & _)]]
  end; try (rewrite Hzero in Hpos; lra).
  cbn [adj_baseScore adj_queryTerms adj_chunk] in *. split.
  - destruct (hit_or_absent queryTerms (termFrequency chunk)) as [Hhit|Hnone];
      [exact Hhit|].
    exfalso. revert Hbase.
    match goal with |- (0 < bm25Score ?B)%R -> _ =>
      rewrite (bm25Score_absent B) by exact Hnone
    end.
    lra.
  - intros Hthree. apply andb_false_iff in Hkept as [Hfew|Hhits].
    + apply Nat.leb_gt in Hfew. lia.
    + apply Nat.ltb_ge in Hhits. exact Hhits.
Qed.

Lemma scored_positive (queryTerms queryBigrams : list string) (allChunks : list Chunk)
      (item : Scored) :
  item ∈ scoreChunks queryTerms queryBigrams allChunks ->
  (0 < sc_score item)%R ->
  sc_chunk item ∈ allChunks /\
  (exists term, term ∈ queryTerms /\ 0 < get (termFrequency (sc_chunk item)) term) /\
  (3 <= length queryTerms ->
   2 <= countTermHits queryTerms (termFrequency (sc_chunk item))).
Proof.
  unfold scoreChunks. rewrite list_elem_of_In, in_map_iff.
  intros (chunk & <- & Hchunk%list_elem_of_In) Hpos. cbn [sc_chunk sc_score] in *.
  split; [exact Hchunk|].
  exact (exact_score_positive queryTerms queryBigrams allChunks chunk Hpos).
Qed.




Lemma search_error (σ : fs) (params : SearchParams) (e : exn) :
  runLexicalSearch σ params = Err e ->
  (exists message, e = CLIError VALIDATION_ERROR message)
  \/ (exists docPath,
         docPath ∈ s_docPaths params /\ σ !! docPath = None /\
         e = CLIError NOT_FOUND ("Document not found: " +:+ docPath)).
Proof.
  unfold runLexicalSearch.
  destruct (String.length (trim (s_query params)) =? 0); cbv iota;
    [intros [= <-]; left; eauto|].
  destruct (s_chunkLines params <=? s_chunkOverlap params); cbv iota;
    [intros [= <-]; left; eauto|].
  destruct (loadDocs σ params) as [docs|e'] eqn:Hload; cbn [mbind result_bind].
  - cbv zeta. destruct (length (flat_map d_chunks docs) =? 0); [discriminate|].
    destruct (length (buildQueryTerms (trim (s_query params))) =? 0); [|discriminate].
    intros [= <-]. left. eauto.
  - intros [= <-]. apply mapM_result_err in Hload as (docPath & Hin & Hdoc).
    unfold mbind, result_bind in Hdoc.
    destruct (ensureReadableTextFile σ docPath) as [|e''] eqn:Hread; [discriminate|].
    injection Hdoc as <-.
    apply ensureReadableTextFile_err in Hread as [[Hnone ->] | [_ [message ->]]].
    + right. exists docPath. now repeat split.
    + left. eauto.
Qed.

(** X11.  A search fails with a validation error, or, when one of the paths
    given names nothing, with the not-found error for that path. *)
Theorem runLexicalSearch_errors (σ : fs) (params : SearchParams) (e : exn) :
  runLexicalSearch σ params = Err e ->
  (exists message, e = CLIError VALIDATION_ERROR message)
  \/ (exists docPath,
         docPath ∈ s_docPaths params /\ σ !! docPath = None /\
         e = CLIError NOT_FOUND ("Document not found: " +:+ docPath)).
Proof. apply search_error. Qed.

Lemma runLexicalSearch_errors_witness :
  (exists message,
      CLIError NOT_FOUND "Document not found: /corpus/b.md" = CLIError VALIDATION_ERROR message)
  \/ (exists docPath,
         docPath ∈ ["/corpus/a.md"; "/corpus/b.md"] /\ sample_fs !! docPath = None /\
         CLIError NOT_FOUND "Document not found: /corpus/b.md"
         = CLIError NOT_FOUND ("Document not found: " +:+ docPath)).
Proof.
  apply (runLexicalSearch_errors sample_fs
           {| s_query := "board resigned";
              s_docPaths := ["/corpus/a.md"; "/corpus/b.md"];
              s_topK := 8;
              s_chunkLines := 2;
              s_chunkOverlap := 1 |}).
  vm_compute. reflexivity.
Defined.

(** *** Which chunks are scored above zero *)

Section Positive.
Local Open Scope R_scope.

Lemma idf_pos (N df : nat) :
  (df <= N)%nat -> 0 < ln (1 + (INR N - INR df + 0.5) / (INR df + 0.5)).
Proof.
  intros Hle. apply le_INR in Hle. pose proof (pos_INR df) as Hdf.
  rewrite <- ln_1. apply ln_increasing; [lra|].
  assert (0 < (INR N - INR df + 0.5) / (INR df + 0.5)); [|lra].
  apply Rdiv_lt_0_compat; lra.
Qed.

Lemma bm25_step_grows (P : Bm25Params) (s : R) (t : string) :
  (get (bm_docFrequencyByTerm P) t <= bm_totalChunkCount P)%nat ->
  s <= bm25_step P s t /\
  ((0 < get (termFrequency (bm_chunk P)) t)%nat -> s < bm25_step P s t).
Proof.
  intros Hdf. unfold bm25_step.
  destruct (get (termFrequency (bm_chunk P)) t =? 0)%nat eqn:Htf.
  - apply Nat.eqb_eq in Htf. split; [lra | lia].
  - apply Nat.eqb_neq in Htf. cbv zeta.
    pose proof (idf_pos _ _ Hdf) as Hidf.
    pose proof (length_norm_pos (tokenCount (bm_chunk P)) (bm_averageChunkLength P)) as Hnorm.
    assert (Hfreq : 0 < INR (get (termFrequency (bm_chunk P)) t))
      by (apply lt_0_INR; lia).
    assert (Hterm : 0 < ln (1 + (INR (bm_totalChunkCount P)
                                 - INR (get (bm_docFrequencyByTerm P) t) + 0.5)
                                / (INR (get (bm_docFrequencyByTerm P) t) + 0.5))
                        * (INR (get (termFrequency (bm_chunk P)) t) * (k1 + 1)
                           / (INR (get (termFrequency (bm_chunk P)) t)
                              + k1 * (1 - b + b * (if decide (0 < bm_averageChunkLength P)
                                                   then INR (tokenCount (bm_chunk P))
                                                        / bm_averageChunkLength P
                                                   else 1))))).
    { apply Rmult_lt_0_compat; [exact Hidf|].
      apply Rdiv_lt_0_compat; [unfold k1; nra | lra]. }
    split; [lra | intros _; lra].
Qed.

Lemma bm25_fold_grows (P : Bm25Params) (terms : list string) (s : R) :
  (forall t, t ∈ terms ->
             (get (bm_docFrequencyByTerm P) t <= bm_totalChunkCount P)%nat) ->
  s <= foldl (bm25_step P) s terms /\
  ((exists t, t ∈ terms /\ (0 < get (termFrequency (bm_chunk P)) t)%nat) ->
   s < foldl (bm25_step P) s terms).
Proof.
  revert s. induction terms as [|t terms IH]; intros s Hdf; simpl.
  - split; [lra|]. intros (t & Hin & _). now apply elem_of_nil in Hin.
  - destruct (bm25_step_grows P s t (Hdf t (list_elem_of_here _ _))) as [Hle Hlt].
    destruct (IH (bm25_step P s t) (fun u Hu => Hdf u (list_elem_of_further _ _ _ Hu)))
      as [IHle IHlt].
    split; [lra|].
    intros (u & [->|Hin]%elem_of_cons & Hhit).
    + specialize (Hlt Hhit). lra.
    + assert (bm25_step P s t < foldl (bm25_step P) (bm25_step P s t) terms)
        by (apply IHlt; eauto).
      lra.
Qed.

End Positive.

(** X12.  Among the scored chunks of a corpus, those with a positive score
    are exactly the chunks that hold a query term, and two of the query
    terms when the query has three terms or more. *)
Theorem scoreChunks_positive (queryTerms queryBigrams : list string)
        (allChunks : list Chunk) :
  Forall (fun item =>
            (0 < sc_score item)%R
            <-> (exists term, term ∈ queryTerms /\
                              0 < get (termFrequency (sc_chunk item)) term) /\
                (3 <= length queryTerms ->
                 2 <= countTermHits queryTerms (termFrequency (sc_chunk item))))
         (scoreChunks queryTerms queryBigrams allChunks).
Proof.
  apply Forall_forall. intros item Hitem. split.
  - intros Hpos. destruct (scored_positive _ _ _ _ Hitem Hpos) as (_ & Hterm & Htwo).
    now split.
  - intros [Hterm Htwo].
    unfold scoreChunks in Hitem.
    apply list_elem_of_In, in_map_iff in Hitem as (chunk & <- & Hchunk).
    cbn [sc_chunk sc_score] in *.
    match goal with |- (0 < adjustedChunkScore ?P)%R =>
      destruct (adjustedChunkScore_cases P)
        as [[Hbase _] | [(_ & Hdrop & _) | (Hbase & _ & Hlow & _)]]
    end; cbn [adj_baseScore adj_queryTerms adj_chunk] in *.
    + exfalso.
      match type of Hbase with (bm25Score ?B <= 0)%R =>
        destruct (bm25_fold_grows B queryTerms 0%R) as [_ Hlt]
      end.
      { cbn [bm_docFrequencyByTerm bm_totalChunkCount]. intros t Ht.
        rewrite (docFrequency_get _ _ _ Ht). apply document_frequency_le. }
      specialize (Hlt Hterm). unfold bm25Score in Hbase. cbn [bm_queryTerms] in Hbase.
      lra.
    + exfalso. apply andb_true_iff in Hdrop as [Hthree%Nat.leb_le Hfew%Nat.ltb_lt].
      specialize (Htwo Hthree). lia.
    + lra.
Qed.

(** *** The documents of [ask] *)

Lemma trimmed_spec (paths : list string) (p : string) :
  p ∈ trimmed paths <-> exists entry, entry ∈ paths /\ p = trim entry /\ p <> EmptyString.
Proof.
  unfold trimmed. rewrite list_elem_of_filter, list_elem_of_In, in_map_iff.
  split.
  - intros [Hlen (entry & <- & Hin%list_elem_of_In)].
    exists entry. repeat split; [exact Hin|].
    intros E. rewrite E in Hlen. simpl in Hlen. lia.
  - intros (entry & Hin%list_elem_of_In & -> & Hne). split; [|eauto].
    destruct (trim entry); [contradiction | simpl; lia].
Qed.

Section DocPathFacts.
Variable resolve : string -> string.

Lemma loadDocPaths_cases (σ : fs) (docs : list string) (manifestPath : option string)
      (paths : list string) :
  loadDocPaths resolve σ docs manifestPath = Ok paths ->
  exists fromManifest,
    paths = uniqueTokens (map resolve (trimmed docs ++ fromManifest)) /\
    (given manifestPath = false -> fromManifest = []) /\
    Forall (fun p => exists entry, p = trim entry /\ p <> EmptyString) fromManifest.
Proof.
  unfold loadDocPaths. destruct (given manifestPath) eqn:Hgiven.
  - destruct (manifestDocs resolve σ (default EmptyString manifestPath))
      as [fromManifest|e] eqn:Hm; cbn [mbind result_bind mret result_ret]; [|discriminate].
    intros [= <-]. exists fromManifest. split; [reflexivity|]. split; [discriminate|].
    unfold manifestDocs in Hm.
    destruct (readFile σ _) as [raw|e]; [|destruct (String.eqb _ _); discriminate].
    destruct (JSON_parse raw) as [value|]; [|discriminate].
    destruct (parseManifest value) as [parsed|e]; cbn [mbind result_bind mret result_ret] in Hm;
      [|discriminate].
    injection Hm as <-. apply Forall_forall. intros p (entry & _ & -> & Hne)%trimmed_spec.
    eauto.
  - cbn [mbind result_bind mret result_ret]. intros [= <-]. exists [].
    split; [reflexivity|]. split; [reflexivity | constructor].
Qed.

Lemma loadDocPaths_error (σ : fs) (docs : list string) (manifestPath : option string)
      (e : exn) :
  loadDocPaths resolve σ docs manifestPath = Err e ->
  exists message, e = CLIError NOT_FOUND message \/ e = CLIError VALIDATION_ERROR message.
Proof.
  unfold loadDocPaths. destruct (given manifestPath); cbn [mbind result_bind mret result_ret];
    [|discriminate].
  destruct (manifestDocs resolve σ (default EmptyString manifestPath))
    as [fromManifest|e'] eqn:Hm; cbn [mbind result_bind mret result_ret]; [discriminate|].
  intros [= <-]. unfold manifestDocs in Hm.
  destruct (readFile σ _) as [raw|e].
  - destruct (JSON_parse raw) as [value|]; [|injection Hm as <-; eauto].
    unfold parseManifest in Hm.
    destruct (string_array (Some value)); [discriminate|].
    destruct (truthy value && typeof_object value);
      [destruct (string_array (prop value "docs")); [discriminate|]|];
      cbn [mbind result_bind] in Hm; injection Hm as <-; unfold manifest_shape_error; eauto.
  - destruct (String.eqb _ _); injection Hm as <-; eauto.
Qed.

End DocPathFacts.

(** X13.  The document paths of [ask] hold no path twice; they hold the
    resolved path of every entry of [--doc] that is not blank, and nothing
    but resolved, trimmed, non-empty entries, which come from [--doc] when
    no manifest is given. *)
Theorem loadDocPaths_paths (resolve : string -> string) (σ : fs) (docs : list string)
        (manifestPath : option string) (paths : list string) :
  loadDocPaths resolve σ docs manifestPath = Ok paths ->
  NoDup paths /\
  (forall entry, entry ∈ docs -> trim entry <> EmptyString -> resolve (trim entry) ∈ paths) /\
  (forall p, p ∈ paths ->
             exists entry, p = resolve (trim entry) /\ trim entry <> EmptyString /\
                           (entry ∈ docs \/ given manifestPath = true)).
Proof.
  intros (fromManifest & -> & Hnone & Hall)%loadDocPaths_cases.
  destruct (uniqueTokens_spec (map resolve (trimmed docs ++ fromManifest))) as [Hnd Hmem].
  split; [exact Hnd|]. split.
  - intros entry Hin Hne. apply Hmem, list_elem_of_In, in_map, list_elem_of_In.
    apply elem_of_app. left. apply trimmed_spec. eauto.
  - intros p (x & <- & Hx%list_elem_of_In)%Hmem%list_elem_of_In%in_map_iff.
    apply elem_of_app in Hx as [(entry & Hin & -> & Hne)%trimmed_spec | Hx].
    + exists entry. auto.
    + rewrite Forall_forall in Hall. destruct (Hall x Hx) as (entry & -> & Hne).
      exists entry. split; [reflexivity|]. split; [exact Hne|]. right.
      destruct (given manifestPath); [reflexivity|].
      rewrite Hnone in Hx by reflexivity. now apply elem_of_nil in Hx.
Qed.

Lemma loadDocPaths_paths_witness :
  let paths := ["/work/a.md"; "/work/b.md"] in
  NoDup paths /\
  (forall entry, entry ∈ [" a.md"; "b.md "; "   "; "a.md"] ->
                 trim entry <> EmptyString -> ("/work/" +:+ trim entry) ∈ paths) /\
  (forall p, p ∈ paths ->
             exists entry, p = "/work/" +:+ trim entry /\ trim entry <> EmptyString /\
                           (entry ∈ [" a.md"; "b.md "; "   "; "a.md"]
                            \/ given None = true)).
Proof.
  apply (loadDocPaths_paths (fun p => "/work/" +:+ p) ∅ [" a.md"; "b.md "; "   "; "a.md"] None).
  vm_compute. reflexivity.
Defined.

(** X14.  [ask] fails with [DOCS_REQUIRED] exactly when the paths given
    leave no document, whatever the query is. *)
Theorem runResearchAsk_docs_required (resolve : string -> string) (σ : fs)
        (params : AskParams) :
  (exists message, runResearchAsk resolve σ params = Err (CLIError DOCS_REQUIRED message))
  <-> loadDocPaths resolve σ (a_docs params) (a_manifestPath params) = Ok [].
Proof.
  unfold runResearchAsk. split.
  - intros [message Hrun].
    destruct (loadDocPaths resolve σ (a_docs params) (a_manifestPath params))
      as [paths|e] eqn:Hpaths; cbn [mbind result_bind] in Hrun.
    + destruct paths as [|p paths]; [reflexivity|]. exfalso.
      cbn [length Nat.eqb] in Hrun.
      apply search_error in Hrun as [[m [=]] | (docPath & _ & _ & [=])].
    + injection Hrun as ->.
      apply loadDocPaths_error in Hpaths as [m [[=]|[=]]].
  - intros ->. cbn [mbind result_bind length Nat.eqb]. unfold docs_required. eauto.
Qed.

Lemma doc_value_not_string (docs : list CachedDoc) :
  docs <> [] -> mapM (fun entry => string_of (Some entry)) (map doc_value docs) = None.
Proof. destruct docs as [|doc docs]; [contradiction | reflexivity]. Qed.

(** X15.  The manifest that the sync writes is not a manifest for
    [--manifest] as soon as it lists a document: its [docs] are objects, not
    path strings. *)
Theorem cached_manifest_is_no_doc_list (resolve : string -> string) (σ : fs)
        (docs : list string) (manifestPath : string) (manifest : CachedManifest) :
  manifestPath <> EmptyString ->
  m_docs manifest <> [] ->
  σ !! resolve manifestPath
  = Some (File (JSON_stringify (manifest_value manifest) +:+ NL)) ->
  loadDocPaths resolve σ docs (Some manifestPath) = Err manifest_shape_error.
Proof.
  intros Hpath Hdocs Hfile. unfold loadDocPaths.
  assert (Hgiven : given (Some manifestPath) = true).
  { destruct manifestPath; [contradiction | reflexivity]. }
  rewrite Hgiven. change (default EmptyString (Some manifestPath)) with manifestPath.
  unfold manifestDocs, readFile.
  rewrite Hfile, JSON_parse_stringify by apply manifest_value_integers_only.
  unfold parseManifest, manifest_value.
  cbn [string_array truthy typeof_object andb prop lookup_last String.eqb Ascii.eqb
       Bool.eqb].
  rewrite (doc_value_not_string _ Hdocs). reflexivity.
Qed.

Lemma cached_manifest_is_no_doc_list_witness :
  loadDocPaths (fun p => p)
    {[ profileManifestPath "/cache" "0000320193" core
       := File (JSON_stringify (manifest_value sample_manifest) +:+ NL) ]}
    [] (Some (profileManifestPath "/cache" "0000320193" core))
  = Err manifest_shape_error.
Proof.
  apply (cached_manifest_is_no_doc_list (fun p => p) _ []
           (profileManifestPath "/cache" "0000320193" core) sample_manifest).
  - discriminate.
  - discriminate.
  - apply lookup_singleton_eq.
Defined.

(** *** What a completed sync leaves behind *)

Lemma runResearchSync_inv (W : Collaborators) (σ σ' : fs) (params : SyncParams)
      (data : SyncData) :
  runResearchSync W σ params = (σ', Ok data) ->
  exists entity rows st,
    let cacheRoot := resolveCacheRoot W (sy_cacheDir params) in
    resolveEntity W (sy_id params) = Ok entity /\
    selectedRows W (e_cik entity) (sy_profile params) = Ok rows /\
    fetch_loop W cacheRoot (e_cik entity) (sy_refresh params) rows (initial_state σ)
    = (st, None) /\
    writeCachedManifest (ls_fs st) cacheRoot (sync_manifest W params entity (ls_docs st))
    = (σ', Ok (profileManifestPath cacheRoot (e_cik entity) (sy_profile params))) /\
    data = {| out_id := sy_id params;
              out_cik := e_cik entity;
              out_ticker := e_ticker entity;
              out_title := e_title entity;
              out_profile := sy_profile params;
              out_cache_root := cacheRoot;
              out_manifest_path :=
                profileManifestPath cacheRoot (e_cik entity) (sy_profile params);
              out_docs_count := length (ls_docs st);
              out_fetched_count := ls_fetchedCount st;
              out_reused_count := ls_reusedCount st;
              out_skipped_count := length (ls_skipped st);
              out_skipped := ls_skipped st;
              out_docs := ls_docs st |}.
Proof.
  unfold runResearchSync.
  destruct (resolveEntity W (sy_id params)) as [entity|e] eqn:Hent; [|discriminate].
  destruct (selectedRows W (e_cik entity) (sy_profile params)) as [rows|e] eqn:Hrows;
    [|discriminate].
  destruct (fetch_loop W _ (e_cik entity) (sy_refresh params) rows (initial_state σ))
    as [st [e|]] eqn:Hloop; [discriminate|].
  destruct (writeCachedManifest (ls_fs st) _ _) as [σ2 [manifestPath|e]] eqn:Hwrite;
    [|discriminate].
  intros [= <- <-].
  pose proof (writeCachedManifest_path _ _ _ _ _ Hwrite) as [Hpath _].
  cbn [m_cik m_profile sync_manifest] in Hpath. subst manifestPath.
  exists entity, rows, st. cbv zeta. repeat split; assumption.
Qed.

Lemma read_written_manifest (σ σ' : fs) (cacheRoot : string) (manifest : CachedManifest)
      (manifestPath : string) :
  writeCachedManifest σ cacheRoot manifest = (σ', Ok manifestPath) ->
  readCachedManifest σ' cacheRoot (m_cik manifest) (m_profile manifest)
  = Ok (Some (manifest_value manifest)).
Proof.
  intros Hwrite. apply writeCachedManifest_path in Hwrite as [-> Hfile].
  unfold readCachedManifest, readFile. rewrite Hfile.
  rewrite JSON_parse_stringify by apply manifest_value_integers_only.
  rewrite parseCachedManifest_spec, manifest_value_well_shaped.
  reflexivity.
Qed.

Lemma docs_of_manifest_value (manifest : CachedManifest) :
  docs_of (manifest_value manifest) = map doc_value (m_docs manifest).
Proof. reflexivity. Qed.

Lemma doc_paths_manifest_value (manifest : CachedManifest) :
  doc_paths (manifest_value manifest) = map cd_path (m_docs manifest).
Proof.
  unfold doc_paths. rewrite docs_of_manifest_value, map_map. reflexivity.
Qed.

(** The outcome of [ask --id] by the report of a sync. *)
Definition answer_from (σ : fs) (params : AskByIdParams) (data : SyncData)
           (syncData : SyncSummary) : result AskByIdData :=
  if length (out_docs data) =? 0 then Err (no_cached_documents params)
  else
    searchData ← runLexicalSearch σ {| s_query := ai_query params;
                                       s_docPaths := map cd_path (out_docs data);
                                       s_topK := ai_topK params;
                                       s_chunkLines := ai_chunkLines params;
                                       s_chunkOverlap := ai_chunkOverlap params |};
    mret {| abi_search := searchData;
            abi_id := ai_id params;
            abi_cik := out_cik data;
            abi_ticker := out_ticker data;
            abi_title := out_title data;
            abi_profile := ai_profile params;
            abi_cache_root := out_cache_root data;
            abi_manifest_path := out_manifest_path data;
            abi_corpus_docs_count := length (out_docs data);
            abi_sync := syncData |}.

Lemma search_synced_manifest (W : Collaborators) (σ σ' σ'' : fs)
      (params : AskByIdParams) (data : SyncData) (syncData : option SyncSummary) :
  runResearchSync W σ (sync_params params) = (σ', Ok data) ->
  exists entity,
    resolveEntity W (ai_id params) = Ok entity /\
    out_cik data = e_cik entity /\
    readCachedManifest σ' (resolveCacheRoot W (ai_cacheDir params)) (e_cik entity)
                       (ai_profile params)
    = Ok (Some (manifest_value (sync_manifest W (sync_params params) entity (out_docs data)))) /\
    search_manifest W σ'' params entity
      (Some (manifest_value (sync_manifest W (sync_params params) entity (out_docs data))))
      syncData
    = answer_from σ'' params data
        (default {| ss_fetched_count := 0;
                    ss_reused_count := length (out_docs data);
                    ss_docs_count := length (out_docs data);
                    ss_skipped_count := 0 |} syncData).
Proof.
  intros (entity & rows & st & Hent & _ & _ & Hwrite & ->)%runResearchSync_inv.
  cbn [sync_params sy_id sy_profile sy_cacheDir] in *.
  exists entity. split; [exact Hent|]. split; [reflexivity|].
  split; [exact (read_written_manifest _ _ _ _ _ Hwrite)|].
  unfold search_manifest, answer_from.
  rewrite doc_paths_manifest_value, docs_of_manifest_value, length_map.
  cbn [out_docs out_cik out_ticker out_title out_cache_root out_manifest_path
       m_docs sync_manifest sync_params sy_cacheDir sy_profile].
  reflexivity.
Qed.

(** X16.  When [ask --id] finds no cached document (or is asked to
    refresh) and the sync completes, the manifest it reads back is the one
    the sync has written: it searches the documents of the sync report, in
    the file system the sync has left, and reports the counts of the sync;
    with no document in the report it fails with [DOCS_REQUIRED]. *)
Theorem runResearchAskById_after_sync
        (W : Collaborators) (σ σ' : fs) (params : AskByIdParams)
        (manifest : option json) (data : SyncData) :
  (if ai_refresh params then Ok None
   else readCachedManifest σ (resolveCacheRoot W (ai_cacheDir params)) (out_cik data)
                           (ai_profile params)) = Ok manifest ->
  without_docs manifest = true ->
  runResearchSync W σ (sync_params params) = (σ', Ok data) ->
  runResearchAskById W σ params
  = (σ', answer_from σ' params data (sync_summary data)).
Proof.
  intros Hread Hnone Hsync.
  destruct (search_synced_manifest W σ σ' σ' params data (Some (sync_summary data)) Hsync)
    as (entity & Hent & Hcik & Hback & Hsearch).
  unfold runResearchAskById. rewrite Hent, <- Hcik, Hread, Hnone, Hsync, Hcik, Hback.
  now rewrite Hsearch.
Qed.

Definition sample_ask : AskByIdParams :=
  {| ai_id := "AAPL"; ai_query := "filing"; ai_profile := core;
     ai_cacheDir := Some "/cache"; ai_refresh := false;
     ai_topK := 8; ai_chunkLines := 40; ai_chunkOverlap := 10 |}.

Lemma runResearchAskById_after_sync_witness :
  exists σ' data,
    runResearchSync not_found_world ∅ (sync_params sample_ask) = (σ', Ok data) /\
    runResearchAskById not_found_world ∅ sample_ask
    = (σ', answer_from σ' sample_ask data (sync_summary data)).
Proof.
  destruct (runResearchSync not_found_world ∅ (sync_params sample_ask))
    as [σ' [data|e]] eqn:Hrun.
  - exists σ', data. split; [reflexivity|].
    apply (runResearchAskById_after_sync not_found_world ∅ σ' sample_ask None data).
    + cbn [ai_refresh sample_ask]. unfold readCachedManifest, readFile.
      rewrite lookup_empty. reflexivity.
    + reflexivity.
    + exact Hrun.
  - exfalso.
    assert (Hok : is_ok (snd (runResearchSync not_found_world ∅ (sync_params sample_ask)))
                  = true)
      by (vm_compute; reflexivity).
    rewrite Hrun in Hok. discriminate Hok.
Defined.

(** X17.  After a completed sync that has a document, [ask --id] without
    [--refresh] syncs nothing: it leaves the file system as it is, searches
    the documents of the manifest, and reports them all as reused. *)
Theorem runResearchAskById_cached
        (W : Collaborators) (σ σ' : fs) (params : AskByIdParams) (data : SyncData) :
  ai_refresh params = false ->
  runResearchSync W σ (sync_params params) = (σ', Ok data) ->
  out_docs data <> [] ->
  runResearchAskById W σ' params
  = (σ', answer_from σ' params data
           {| ss_fetched_count := 0;
              ss_reused_count := length (out_docs data);
              ss_docs_count := length (out_docs data);
              ss_skipped_count := 0 |}).
Proof.
  intros Hrefresh Hsync Hdocs.
  destruct (search_synced_manifest W σ σ' σ' params data None Hsync)
    as (entity & Hent & Hcik & Hback & Hsearch).
  unfold runResearchAskById. rewrite Hent, Hrefresh, Hback.
  assert (Hwith : without_docs
                    (Some (manifest_value
                             (sync_manifest W (sync_params params) entity (out_docs data))))
                  = false).
  { unfold without_docs. rewrite docs_of_manifest_value, length_map.
    cbn [m_docs sync_manifest]. destruct (out_docs data); [contradiction | reflexivity]. }
  rewrite Hwith. now rewrite Hsearch.
Qed.

Lemma runResearchAskById_cached_witness :
  exists σ' data,
    runResearchSync not_found_world ∅ (sync_params sample_ask) = (σ', Ok data) /\
    runResearchAskById not_found_world σ' sample_ask
    = (σ', answer_from σ' sample_ask data
             {| ss_fetched_count := 0;
                ss_reused_count := length (out_docs data);
                ss_docs_count := length (out_docs data);
                ss_skipped_count := 0 |}).
Proof.
  destruct (runResearchSync not_found_world ∅ (sync_params sample_ask))
    as [σ' [data|e]] eqn:Hrun.
  - exists σ', data. split; [reflexivity|].
    apply (runResearchAskById_cached not_found_world ∅ σ' sample_ask data);
      [reflexivity | exact Hrun |].
    intros Hnone.
    assert (Hlen : length (out_docs data) = 3).
    { change (length (out_docs data))
        with (match (σ', @Ok SyncData data) with
              | (_, Ok d) => length (out_docs d)
              | _ => 0
              end).
      rewrite <- Hrun. vm_compute. reflexivity. }
    rewrite Hnone in Hlen. discriminate Hlen.
  - exfalso.
    assert (Hok : is_ok (snd (runResearchSync not_found_world ∅ (sync_params sample_ask)))
                  = true)
      by (vm_compute; reflexivity).
    rewrite Hrun in Hok. discriminate Hok.
Defined.

(** *** Files of the cache *)

(** [p] names a regular file. *)
Definition is_file (σ : fs) (p : string) : Prop := exists content, σ !! p = Some (File content).

(** [p] names nothing, or a directory: [fileExists] answers [false]. *)
Definition no_file (σ : fs) (p : string) : Prop := σ !! p = None \/ σ !! p = Some Directory.

Lemma fileExists_true (σ : fs) (p : string) :
  fileExists σ p = Ok true <-> is_file σ p.
Proof.
  unfold fileExists, stat_isFile, is_file.
  destruct (σ !! p) as [[c| |]|]; cbn; split; try discriminate; eauto.
  all: intros [c' [=]].
Qed.

Lemma fileExists_false (σ : fs) (p : string) :
  fileExists σ p = Ok false <-> no_file σ p.
Proof.
  unfold fileExists, stat_isFile, no_file.
  destruct (σ !! p) as [[c| |]|]; cbn; split; try discriminate; auto.
  all: intros [[=]|[=]].
Qed.

Lemma mkdir_recursive_lookup (σ σ1 : fs) (d p : string) :
  mkdir_recursive σ d = Ok σ1 ->
  σ1 !! p = σ !! p \/ (p = d /\ σ !! p = None /\ σ1 !! p = Some Directory).
Proof.
  unfold mkdir_recursive.
  destruct (σ !! d) as [[c| |]|] eqn:Hd; intros [= <-]; [now left|].
  destruct (decide (p = d)) as [->|Hne].
  - right. rewrite lookup_insert_eq. now repeat split.
  - left. now rewrite lookup_insert_ne.
Qed.

Lemma mkdir_recursive_done (σ σ1 : fs) (d : string) :
  mkdir_recursive σ d = Ok σ1 -> σ1 !! d = Some Directory.
Proof.
  unfold mkdir_recursive.
  destruct (σ !! d) as [[c| |]|] eqn:Hd; intros [= <-];
    [exact Hd | apply lookup_insert_eq].
Qed.

Lemma writeFile_lookup (σ σ2 : fs) (path content p : string) :
  writeFile σ path content = Ok σ2 ->
  (p = path /\ σ2 !! p = Some (File content) /\ ~ σ !! p = Some Directory)
  \/ (p <> path /\ σ2 !! p = σ !! p).
Proof.
  unfold writeFile. destruct (decide (p = path)) as [->|Hne].
  - destruct (σ !! path) as [[c| |]|] eqn:Hp; intros [= <-]; left;
      rewrite lookup_insert_eq; repeat split; discriminate.
  - destruct (σ !! path) as [[c| |]|]; intros [= <-]; right;
      (split; [exact Hne | now rewrite lookup_insert_ne]).
Qed.

Section CacheFiles.
Variable W : Collaborators.
Variables cacheRoot cik : string.

Local Abbreviation docPathOf row := (filingDocPath cacheRoot cik (row_accession row)).

Lemma fetch_into_cache_files (σ : fs) (row : FilingRow) (docPath p : string) :
  is_file σ p -> is_file (fst (fetch_into_cache W σ cik row docPath)) p.
Proof.
  intros [c Hp]. unfold fetch_into_cache.
  destruct (runFilingsGet W cik (row_accession row)) as [[fetched|]|e];
    try (exists c; exact Hp).
  destruct (mkdir_recursive σ (dirname docPath)) as [σ1|e] eqn:Hdir;
    [|exists c; exact Hp].
  assert (Hp1 : σ1 !! p = Some (File c)).
  { destruct (mkdir_recursive_lookup _ _ _ p Hdir) as [->|(_ & Hnone & _)];
      [exact Hp | congruence]. }
  destruct (writeFile σ1 docPath _) as [σ2|e] eqn:Hwrite; [|exists c; exact Hp1].
  cbn [fst].
  destruct (writeFile_lookup _ _ _ _ p Hwrite) as [(_ & Hnew & _)|[_ Hsame]].
  - eexists. exact Hnew.
  - exists c. now rewrite Hsame.
Qed.

Lemma fetch_into_cache_written (σ σ' : fs) (row : FilingRow) (docPath : string) :
  fetch_into_cache W σ cik row docPath = (σ', Ok tt) -> is_file σ' docPath.
Proof.
  unfold fetch_into_cache.
  destruct (runFilingsGet W cik (row_accession row)) as [[fetched|]|e]; try discriminate.
  destruct (mkdir_recursive σ (dirname docPath)) as [σ1|e]; [|discriminate].
  destruct (writeFile σ1 docPath _) as [σ2|e] eqn:Hwrite; [|discriminate].
  intros [= <-].
  destruct (writeFile_lookup _ _ _ _ docPath Hwrite) as [(_ & Hnew & _)|[Hne _]];
    [eexists; exact Hnew | contradiction].
Qed.

Lemma fetch_into_cache_free (σ : fs) (row : FilingRow) (docPath p : string) :
  p <> docPath -> no_file σ p -> no_file (fst (fetch_into_cache W σ cik row docPath)) p.
Proof.
  intros Hne Hfree. unfold fetch_into_cache.
  destruct (runFilingsGet W cik (row_accession row)) as [[fetched|]|e]; try exact Hfree.
  destruct (mkdir_recursive σ (dirname docPath)) as [σ1|e] eqn:Hdir; [|exact Hfree].
  assert (Hfree1 : no_file σ1 p).
  { destruct (mkdir_recursive_lookup _ _ _ p Hdir) as [Hsame|(_ & _ & Hnew)].
    - unfold no_file. now rewrite Hsame.
    - now right. }
  destruct (writeFile σ1 docPath _) as [σ2|e] eqn:Hwrite; [|exact Hfree1].
  cbn [fst].
  destruct (writeFile_lookup _ _ _ _ p Hwrite) as [(Heq & _)|[_ Hsame]];
    [contradiction|].
  unfold no_file. now rewrite Hsame.
Qed.

(** A [NOT_FOUND] of the fetch is the failure of [runFilingsGet], before
    anything is written. *)
Lemma fetch_into_cache_not_found (σ σ' : fs) (row : FilingRow) (docPath : string) (e : exn) :
  fetch_into_cache W σ cik row docPath = (σ', Err e) ->
  isCLIErrorWith NOT_FOUND e = true ->
  runFilingsGet W cik (row_accession row) = Err e /\ σ' = σ.
Proof.
  unfold fetch_into_cache.
  destruct (runFilingsGet W cik (row_accession row)) as [[fetched|]|e'].
  - unfold mkdir_recursive, writeFile.
    destruct (σ !! dirname docPath) as [[c| |]|];
      try (intros [= <- <-]; discriminate).
    + destruct (σ !! docPath) as [[c| |]|]; intros [= <- <-]; discriminate.
    + destruct (<[dirname docPath:=Directory]> σ !! docPath) as [[c| |]|];
        intros [= <- <-]; discriminate.
  - intros [= <- <-]. discriminate.
  - intros [= <- <-]. now split.
Qed.

Section Loop.
Variable refresh : bool.

Local Abbreviation loop := (fetch_loop W cacheRoot cik refresh).

Lemma fetch_loop_files (rows : list FilingRow) (st : LoopState) (p : string) :
  is_file (ls_fs st) p -> is_file (ls_fs (fst (loop rows st))) p.
Proof.
  revert st. induction rows as [|row rows IH]; intros st Hp; simpl; [exact Hp|].
  destruct (if refresh then Ok false else fileExists (ls_fs st) _) as [[|]|e];
    simpl; [now apply IH | | exact Hp].
  pose proof (fetch_into_cache_files (ls_fs st) row (docPathOf row) p Hp) as Hnext.
  destruct (fetch_into_cache W (ls_fs st) cik row _) as [σ' [u|e]]; simpl in Hnext.
  - now apply IH.
  - destruct (isCLIErrorWith NOT_FOUND e); [now apply IH | exact Hnext].
Qed.

Lemma fetch_loop_free (rows : list FilingRow) (st : LoopState) (p : string) :
  Forall (fun row => docPathOf row <> p) rows ->
  no_file (ls_fs st) p -> no_file (ls_fs (fst (loop rows st))) p.
Proof.
  intros Hrows. revert st.
  induction Hrows as [|row rows Hrow _ IH]; intros st Hp; simpl; [exact Hp|].
  destruct (if refresh then Ok false else fileExists (ls_fs st) _) as [[|]|e];
    simpl; [now apply IH | | exact Hp].
  pose proof (fetch_into_cache_free (ls_fs st) row (docPathOf row) p
                (fun E => Hrow (eq_sym E)) Hp) as Hnext.
  destruct (fetch_into_cache W (ls_fs st) cik row _) as [σ' [u|e]]; simpl in Hnext.
  - now apply IH.
  - destruct (isCLIErrorWith NOT_FOUND e); [now apply IH | exact Hnext].
Qed.

(** The descriptors that a completed loop has added name files of the
    cache, under the path of their accession. *)
Lemma fetch_loop_docs (rows : list FilingRow) (st st' : LoopState) :
  loop rows st = (st', None) ->
  Forall (fun doc => is_file (ls_fs st) (cd_path doc) /\
                     cd_path doc = filingDocPath cacheRoot cik (cd_accession doc))
         (ls_docs st) ->
  Forall (fun doc => is_file (ls_fs st') (cd_path doc) /\
                     cd_path doc = filingDocPath cacheRoot cik (cd_accession doc))
         (ls_docs st').
Proof.
  revert st. induction rows as [|row rows IH]; intros st; simpl.
  - intros [= <-]. auto.
  - destruct (if refresh then Ok false else fileExists (ls_fs st) _) as [[|]|e] eqn:Hexists;
      simpl; [| |discriminate].
    + intros Hloop Hdocs. apply (IH _ Hloop). cbn [ls_docs ls_fs].
      apply Forall_app. split; [exact Hdocs|].
      constructor; [|constructor]. split; [|reflexivity].
      destruct refresh; [discriminate|]. now apply fileExists_true.
    + destruct (fetch_into_cache W (ls_fs st) cik row _) as [σ' [[]|e]] eqn:Hfetch.
      * intros Hloop Hdocs. apply (IH _ Hloop). cbn [ls_docs ls_fs].
        apply Forall_app. split.
        -- eapply Forall_impl; [exact Hdocs|]. intros doc [Hfile Hpath].
           split; [|exact Hpath].
           pose proof (fetch_into_cache_files (ls_fs st) row (docPathOf row) _ Hfile) as H.
           now rewrite Hfetch in H.
        -- constructor; [|constructor]. split; [|reflexivity].
           exact (fetch_into_cache_written _ _ _ _ Hfetch).
      * destruct (isCLIErrorWith NOT_FOUND e) eqn:Hnf; [|discriminate].
        intros Hloop Hdocs. apply (IH _ Hloop). cbn [ls_docs ls_fs].
        apply fetch_into_cache_not_found in Hfetch as [_ ->]; [exact Hdocs | exact Hnf].
Qed.

End Loop.

End CacheFiles.

Lemma writeCachedManifest_files (σ σ' : fs) (cacheRoot : string) (manifest : CachedManifest)
      (r : result string) (p : string) :
  writeCachedManifest σ cacheRoot manifest = (σ', r) -> is_file σ p -> is_file σ' p.
Proof.
  unfold writeCachedManifest. intros Hwrite [c Hp].
  destruct (mkdir_recursive σ _) as [σ1|e] eqn:Hdir;
    [|injection Hwrite as <- _; exists c; exact Hp].
  assert (Hp1 : σ1 !! p = Some (File c)).
  { destruct (mkdir_recursive_lookup _ _ _ p Hdir) as [->|(_ & Hnone & _)];
      [exact Hp | congruence]. }
  destruct (writeFile σ1 _ _) as [σ2|e] eqn:Hfile;
    injection Hwrite as <- _; [|exists c; exact Hp1].
  destruct (writeFile_lookup _ _ _ _ p Hfile) as [(_ & Hnew & _)|[_ Hsame]].
  - eexists. exact Hnew.
  - exists c. now rewrite Hsame.
Qed.


(** *** A second sync *)

Lemma append_cancel_r (a b x : string) : a +:+ x = b +:+ x -> a = b.
Proof.
  revert b. induction a as [|c a IH]; intros [|c' b] H.
  - reflexivity.
  - apply (f_equal String.length) in H. rewrite !length_app in H.
    simpl in H. lia.
  - apply (f_equal String.length) in H. rewrite !length_app in H.
    simpl in H. lia.
  - rewrite !append_cons in H. injection H as -> H. f_equal. exact (IH _ H).
Qed.

Lemma filingDocPath_inj (cacheRoot cik accession accession' : string) :
  filingDocPath cacheRoot cik accession = filingDocPath cacheRoot cik accession' ->
  accession = accession'.
Proof.
  unfold filingDocPath, path_join. cbn [join]. intros H.
  do 4 apply append_cancel in H. exact (append_cancel_r _ _ _ H).
Qed.

Lemma dirname_profileManifestPath (cacheRoot cik : string) (profile : ResearchProfile) :
  dirname (profileManifestPath cacheRoot cik profile)
  = companyCacheDir cacheRoot cik +:+ "/profiles".
Proof.
  unfold profileManifestPath, path_join. cbn [join].
  set (P := companyCacheDir cacheRoot cik).
  change (P +:+ "/" +:+ "profiles" +:+ "/" +:+ profile_name profile +:+ ".json")
    with (P +:+ String "/" ("profiles" +:+ String "/" (profile_name profile +:+ ".json"))).
  unfold dirname. rewrite dirname_aux_slash, (dirname_aux_slash "profiles").
  replace (dirname_aux (profile_name profile +:+ ".json")) with (@None string)
    by (destruct profile; reflexivity).
  destruct P; reflexivity.
Qed.

Lemma manifest_path_not_its_dir (cacheRoot cik : string) (profile : ResearchProfile) :
  dirname (profileManifestPath cacheRoot cik profile)
  <> profileManifestPath cacheRoot cik profile.
Proof.
  rewrite dirname_profileManifestPath.
  unfold profileManifestPath, path_join. cbn [join].
  intros H. apply append_cancel in H. destruct profile; discriminate H.
Qed.

Lemma writeCachedManifest_free (σ σ' : fs) (cacheRoot : string) (manifest : CachedManifest)
      (r : result string) (p : string) :
  writeCachedManifest σ cacheRoot manifest = (σ', r) ->
  p <> profileManifestPath cacheRoot (m_cik manifest) (m_profile manifest) ->
  no_file σ p -> no_file σ' p.
Proof.
  unfold writeCachedManifest. intros Hwrite Hne Hfree.
  destruct (mkdir_recursive σ _) as [σ1|e] eqn:Hdir;
    [|injection Hwrite as <- _; exact Hfree].
  assert (Hfree1 : no_file σ1 p).
  { destruct (mkdir_recursive_lookup _ _ _ p Hdir) as [Hsame|(_ & _ & Hnew)].
    - unfold no_file. now rewrite Hsame.
    - now right. }
  destruct (writeFile σ1 _ _) as [σ2|e] eqn:Hfile;
    injection Hwrite as <- _; [|exact Hfree1].
  destruct (writeFile_lookup _ _ _ _ p Hfile) as [(Heq & _)|[_ Hsame]];
    [contradiction|].
  unfold no_file. now rewrite Hsame.
Qed.

(** Writing a manifest where one has been written succeeds. *)
Lemma writeCachedManifest_again (σ σ' : fs) (cacheRoot : string)
      (manifest manifest' : CachedManifest) (manifestPath : string) :
  writeCachedManifest σ cacheRoot manifest = (σ', Ok manifestPath) ->
  m_cik manifest' = m_cik manifest -> m_profile manifest' = m_profile manifest ->
  exists σ'', writeCachedManifest σ' cacheRoot manifest' = (σ'', Ok manifestPath).
Proof.
  unfold writeCachedManifest. intros Hwrite -> ->.
  destruct (mkdir_recursive σ _) as [σ1|e] eqn:Hdir; [|discriminate].
  destruct (writeFile σ1 _ _) as [σ2|e] eqn:Hfile; [|discriminate].
  injection Hwrite as <- <-.
  pose proof (mkdir_recursive_done _ _ _ Hdir) as Hd.
  destruct (writeFile_lookup _ _ _ _
              (dirname (profileManifestPath cacheRoot (m_cik manifest) (m_profile manifest)))
              Hfile) as [(Heq & _)|[_ Hsame]];
    [now apply manifest_path_not_its_dir in Heq|].
  destruct (writeFile_lookup _ _ _ _
              (profileManifestPath cacheRoot (m_cik manifest) (m_profile manifest))
              Hfile) as [(_ & Hnew & _)|[Hne _]]; [|contradiction].
  unfold mkdir_recursive. rewrite Hsame, Hd.
  unfold writeFile. rewrite Hnew. eauto.
Qed.

Section Again.
Variable W : Collaborators.
Variables cacheRoot cik : string.

Local Abbreviation docPathOf row := (filingDocPath cacheRoot cik (row_accession row)).

(** A loop that has completed without [--refresh] runs again, over a file
    system that has the files of its end and nothing at the paths of the
    filings it has skipped, with the same descriptors, all reused, and the
    same skipped filings; it writes nothing. *)
Lemma fetch_loop_again (rows : list FilingRow) (st st' : LoopState) :
  NoDup (map row_accession rows) ->
  fetch_loop W cacheRoot cik false rows st = (st', None) ->
  exists newDocs newSkipped,
    ls_docs st' = ls_docs st ++ newDocs /\
    ls_skipped st' = ls_skipped st ++ newSkipped /\
    forall σ2,
      (forall p, is_file (ls_fs st') p -> is_file σ2 p) ->
      (forall accession,
          no_file (ls_fs st') (filingDocPath cacheRoot cik accession) ->
          no_file σ2 (filingDocPath cacheRoot cik accession)) ->
      forall docs skipped fetched reused,
        fetch_loop W cacheRoot cik false rows
          {| ls_fs := σ2; ls_docs := docs; ls_skipped := skipped;
             ls_fetchedCount := fetched; ls_reusedCount := reused |}
        = ({| ls_fs := σ2; ls_docs := docs ++ newDocs;
              ls_skipped := skipped ++ newSkipped;
              ls_fetchedCount := fetched;
              ls_reusedCount := reused + length newDocs |}, None).
Proof.
  revert st. induction rows as [|row rows IH]; intros st Hnd Hloop.
  - injection Hloop as <-. exists [], []. rewrite !app_nil_r.
    repeat split. intros σ2 _ _ docs skipped fetched reused.
    cbn [fetch_loop length]. now rewrite !app_nil_r, Nat.add_0_r.
  - cbn [map] in Hnd. apply NoDup_cons in Hnd as [Hfresh Hnd].
    assert (Hothers : Forall (fun row' => docPathOf row' <> docPathOf row) rows).
    { apply Forall_forall. intros row' Hin Heq. apply Hfresh.
      apply filingDocPath_inj in Heq. rewrite <- Heq.
      apply list_elem_of_In, in_map, list_elem_of_In, Hin. }
    cbn [fetch_loop] in Hloop.
    destruct (fileExists (ls_fs st) (docPathOf row)) as [[|]|e] eqn:Hexists;
      cbn [negb] in Hloop; [| |discriminate].
    + (* reused *)
      destruct (IH _ Hnd Hloop) as (D & S & HD & HS & Hagain).
      cbn [ls_docs ls_skipped] in HD, HS.
      exists (cached_doc row (docPathOf row) :: D), S.
      split; [now rewrite HD, <- app_assoc|]. split; [exact HS|].
      intros σ2 Hfiles Hfree docs skipped fetched reused.
      assert (Hfile : fileExists σ2 (docPathOf row) = Ok true).
      { apply fileExists_true, Hfiles. apply fileExists_true in Hexists.
        match type of Hloop with
        | fetch_loop _ _ _ _ _ ?next = _ =>
            pose proof (fetch_loop_files W cacheRoot cik false rows next _ Hexists) as Hkept
        end.
        now rewrite Hloop in Hkept. }
      cbn [fetch_loop ls_fs]. rewrite Hfile. cbn [negb ls_docs ls_skipped
        ls_fetchedCount ls_reusedCount].
      rewrite (Hagain σ2 Hfiles Hfree), <- app_assoc.
      replace (reused + 1 + length D)
        with (reused + length (cached_doc row (docPathOf row) :: D)) by (simpl; lia).
      reflexivity.
    + destruct (fetch_into_cache W (ls_fs st) cik row (docPathOf row))
        as [σ1 [[]|e]] eqn:Hfetch.
      * (* fetched *)
        destruct (IH _ Hnd Hloop) as (D & S & HD & HS & Hagain).
        cbn [ls_docs ls_skipped] in HD, HS.
        exists (cached_doc row (docPathOf row) :: D), S.
        split; [now rewrite HD, <- app_assoc|]. split; [exact HS|].
        intros σ2 Hfiles Hfree docs skipped fetched reused.
        assert (Hfile : fileExists σ2 (docPathOf row) = Ok true).
        { apply fileExists_true, Hfiles.
          pose proof (fetch_into_cache_written W cik _ _ _ _ Hfetch) as Hwritten.
          pose proof (fetch_loop_files W cacheRoot cik false rows
                        {| ls_fs := σ1;
                           ls_docs := ls_docs st ++ [cached_doc row (docPathOf row)];
                           ls_skipped := ls_skipped st;
                           ls_fetchedCount := ls_fetchedCount st + 1;
                           ls_reusedCount := ls_reusedCount st |} _ Hwritten) as Hkept.
          now rewrite Hloop in Hkept. }
        cbn [fetch_loop ls_fs]. rewrite Hfile. cbn [negb ls_docs ls_skipped
          ls_fetchedCount ls_reusedCount].
        rewrite (Hagain σ2 Hfiles Hfree), <- app_assoc.
        replace (reused + 1 + length D)
          with (reused + length (cached_doc row (docPathOf row) :: D)) by (simpl; lia).
        reflexivity.
      * (* skipped *)
        destruct (isCLIErrorWith NOT_FOUND e) eqn:Hnf; [|discriminate].
        destruct (fetch_into_cache_not_found W cik _ _ _ _ _ Hfetch Hnf) as [Hget ->].
        destruct (IH _ Hnd Hloop) as (D & S & HD & HS & Hagain).
        cbn [ls_docs ls_skipped] in HD, HS.
        exists D, ({| sk_accession := row_accession row; sk_reason := exn_message e |} :: S).
        split; [exact HD|]. split; [now rewrite HS, <- app_assoc|].
        intros σ2 Hfiles Hfree docs skipped fetched reused.
        assert (Hnone : fileExists σ2 (docPathOf row) = Ok false).
        { apply fileExists_false, Hfree. apply fileExists_false in Hexists.
          pose proof (fetch_loop_free W cacheRoot cik false rows
                        {| ls_fs := ls_fs st;
                           ls_docs := ls_docs st;
                           ls_skipped := ls_skipped st
                                         ++ [{| sk_accession := row_accession row;
                                                sk_reason := exn_message e |}];
                           ls_fetchedCount := ls_fetchedCount st;
                           ls_reusedCount := ls_reusedCount st |} _ Hothers Hexists)
            as Hkept.
          now rewrite Hloop in Hkept. }
        cbn [fetch_loop ls_fs]. rewrite Hnone. cbn [negb].
        unfold fetch_into_cache at 1. rewrite Hget, Hnf.
        cbn [ls_docs ls_skipped ls_fetchedCount ls_reusedCount].
        now rewrite (Hagain σ2 Hfiles Hfree), <- app_assoc.
Qed.

End Again.

(** X18.  A sync without [--refresh] that has completed can be run again
    at once: the second run completes, fetches nothing, reuses every
    document of the first report, and reports the same documents and the
    same skipped filings. *)
Theorem sync_twice
        (W : Collaborators) (σ σ' : fs) (params : SyncParams) (data : SyncData) :
  sy_refresh params = false ->
  runResearchSync W σ params = (σ', Ok data) ->
  exists σ'' data',
    runResearchSync W σ' params = (σ'', Ok data') /\
    out_fetched_count data' = 0 /\
    out_reused_count data' = out_docs_count data /\
    out_docs data' = out_docs data /\
    out_skipped data' = out_skipped data.
Proof.
  intros Hrefresh (entity & rows & st & Hent & Hrows & Hloop & Hwrite & ->)%runResearchSync_inv.
  rewrite Hrefresh in Hloop.
  destruct (fetch_loop_again W _ _ rows _ _ (selectedRows_NoDup _ _ _ _ Hrows) Hloop)
    as (D & S & HD & HS & Hagain).
  cbn [initial_state ls_docs ls_skipped app] in HD, HS.
  specialize (Hagain σ').
  assert (Hfiles : forall p, is_file (ls_fs st) p -> is_file σ' p).
  { intros p. exact (writeCachedManifest_files _ _ _ _ _ p Hwrite). }
  assert (Hfree : forall accession,
             no_file (ls_fs st)
                  (filingDocPath (resolveCacheRoot W (sy_cacheDir params)) (e_cik entity)
                                 accession) ->
             no_file σ' (filingDocPath (resolveCacheRoot W (sy_cacheDir params)) (e_cik entity)
                                    accession)).
  { intros accession. apply (writeCachedManifest_free _ _ _ _ _ _ Hwrite).
    intros E. symmetry in E. revert E. apply manifest_path_not_doc. }
  specialize (Hagain Hfiles Hfree [] [] 0 0).
  destruct (writeCachedManifest_again _ _ _ _
              (sync_manifest W params entity D) _ Hwrite eq_refl eq_refl)
    as [σ'' Hwrite'].
  unfold runResearchSync. rewrite Hent, Hrows, Hrefresh.
  unfold initial_state. rewrite Hagain. cbn [ls_fs ls_docs app].
  rewrite Hwrite'.
  eexists _, _. split; [reflexivity|].
  cbn [out_fetched_count out_reused_count out_docs_count out_docs out_skipped
       ls_docs ls_skipped ls_fetchedCount ls_reusedCount app].
  rewrite HD, HS. repeat split.
Qed.

Lemma sync_twice_witness :
  exists σ' data σ'' data',
    runResearchSync not_found_world ∅ sample_sync = (σ', Ok data) /\
    runResearchSync not_found_world σ' sample_sync = (σ'', Ok data') /\
    out_fetched_count data' = 0 /\
    out_reused_count data' = out_docs_count data.
Proof.
  destruct (runResearchSync not_found_world ∅ sample_sync) as [σ' [data|e]] eqn:Hrun.
  - destruct (sync_twice not_found_world ∅ σ' sample_sync data eq_refl Hrun)
      as (σ'' & data' & Hagain & Hfetched & Hreused & _).
    exists σ', data, σ'', data'. repeat split; assumption.
  - exfalso.
    assert (Hok : is_ok (snd (runResearchSync not_found_world ∅ sample_sync)) = true)
      by (vm_compute; reflexivity).
    rewrite Hrun in Hok. discriminate Hok.
Defined.

(** *** What the cache holds after a sync *)

(** The text that the sync writes for a filing. *)
Definition terminated (fetched : string) : string :=
  if endsWith_newline fetched then fetched else fetched +:+ NL.

Section Contents.
Variable W : Collaborators.
Variables cacheRoot cik : string.
Variable refresh : bool.

Local Abbreviation docPathOf row := (filingDocPath cacheRoot cik (row_accession row)).

Lemma fetch_into_cache_kept (σ : fs) (row : FilingRow) (docPath p content : string) :
  p <> docPath ->
  fst (fetch_into_cache W σ cik row docPath) !! p = Some (File content)
  <-> σ !! p = Some (File content).
Proof.
  intros Hne. unfold fetch_into_cache.
  destruct (runFilingsGet W cik (row_accession row)) as [[fetched|]|e]; try reflexivity.
  destruct (mkdir_recursive σ (dirname docPath)) as [σ1|e] eqn:Hdir; [|reflexivity].
  assert (Hdir' : σ1 !! p = Some (File content) <-> σ !! p = Some (File content)).
  { destruct (mkdir_recursive_lookup _ _ _ p Hdir) as [->|(_ & Hnone & Hnew)];
      [reflexivity|].
    rewrite Hnone, Hnew. split; discriminate. }
  destruct (writeFile σ1 docPath _) as [σ2|e] eqn:Hwrite; [|exact Hdir'].
  cbn [fst].
  destruct (writeFile_lookup _ _ _ _ p Hwrite) as [(Heq & _)|[_ ->]];
    [contradiction | exact Hdir'].
Qed.

Lemma fetch_into_cache_content (σ σ' : fs) (row : FilingRow) (docPath : string) :
  fetch_into_cache W σ cik row docPath = (σ', Ok tt) ->
  exists fetched,
    runFilingsGet W cik (row_accession row) = Ok (Some fetched) /\
    σ' !! docPath = Some (File (terminated fetched)).
Proof.
  unfold fetch_into_cache.
  destruct (runFilingsGet W cik (row_accession row)) as [[fetched|]|e]; try discriminate.
  destruct (mkdir_recursive σ (dirname docPath)) as [σ1|e]; [|discriminate].
  destruct (writeFile σ1 docPath _) as [σ2|e] eqn:Hwrite; [|discriminate].
  intros [= <-]. exists fetched. split; [reflexivity|].
  destruct (writeFile_lookup _ _ _ _ docPath Hwrite) as [(_ & Hnew & _)|[Hne _]];
    [exact Hnew | contradiction].
Qed.

Local Abbreviation loop := (fetch_loop W cacheRoot cik refresh).

Lemma fetch_loop_kept (rows : list FilingRow) (st : LoopState) (p content : string) :
  Forall (fun row => docPathOf row <> p) rows ->
  ls_fs (fst (loop rows st)) !! p = Some (File content)
  <-> ls_fs st !! p = Some (File content).
Proof.
  intros Hrows. revert st.
  induction Hrows as [|row rows Hrow _ IH]; intros st; simpl; [reflexivity|].
  destruct (if refresh then Ok false else fileExists (ls_fs st) _) as [[|]|e];
    simpl; [now rewrite IH | | reflexivity].
  pose proof (fetch_into_cache_kept (ls_fs st) row (docPathOf row) p content
                (fun E => Hrow (eq_sym E))) as Hstep.
  destruct (fetch_into_cache W (ls_fs st) cik row _) as [σ' [u|e]]; simpl in Hstep.
  - now rewrite IH.
  - destruct (isCLIErrorWith NOT_FOUND e); [now rewrite IH | exact Hstep].
Qed.

(** What a descriptor of the report says of the cache: the file was there
    before and is as it was, or it holds what has been fetched. *)
Definition cached (σ σ' : fs) (doc : CachedDoc) : Prop :=
  cd_path doc = filingDocPath cacheRoot cik (cd_accession doc) /\
  ((refresh = false /\
    exists content, σ !! cd_path doc = Some (File content) /\
                    σ' !! cd_path doc = Some (File content))
   \/ (exists fetched,
          runFilingsGet W cik (cd_accession doc) = Ok (Some fetched) /\
          σ' !! cd_path doc = Some (File (terminated fetched)))).

Lemma fetch_loop_contents (rows : list FilingRow) (st st' : LoopState) :
  NoDup (map row_accession rows) ->
  loop rows st = (st', None) ->
  exists newDocs,
    ls_docs st' = ls_docs st ++ newDocs /\
    Forall (fun doc => cd_accession doc ∈ map row_accession rows /\
                       cached (ls_fs st) (ls_fs st') doc) newDocs.
Proof.
  revert st. induction rows as [|row rows IH]; intros st Hnd Hloop.
  - injection Hloop as <-. exists []. now rewrite app_nil_r.
  - cbn [map] in Hnd. apply NoDup_cons in Hnd as [Hfresh Hnd].
    assert (Hothers : Forall (fun row' => docPathOf row' <> docPathOf row) rows).
    { apply Forall_forall. intros row' Hin Heq. apply Hfresh.
      apply filingDocPath_inj in Heq. rewrite <- Heq.
      apply list_elem_of_In, in_map, list_elem_of_In, Hin. }
    assert (Hlater : forall σ1 doc,
               fst (fetch_into_cache W (ls_fs st) cik row (docPathOf row)) = σ1
               \/ ls_fs st = σ1 ->
               cd_accession doc ∈ map row_accession rows /\ cached σ1 (ls_fs st') doc ->
               cd_accession doc ∈ row_accession row :: map row_accession rows /\
               cached (ls_fs st) (ls_fs st') doc).
    { intros σ1 doc Hσ1 [Hin (Hpath & Hdoc)].
      split; [now apply list_elem_of_further|]. split; [exact Hpath|].
      destruct Hdoc as [(Hr & content & Hbefore & Hafter)|Hfetched]; [left | now right].
      split; [exact Hr|]. exists content. split; [|exact Hafter].
      destruct Hσ1 as [<-|<-]; [|exact Hbefore].
      apply (fetch_into_cache_kept (ls_fs st) row (docPathOf row)); [|exact Hbefore].
      rewrite Hpath. intros Heq. apply Hfresh. apply filingDocPath_inj in Heq.
      now rewrite <- Heq. }
    cbn [fetch_loop] in Hloop.
    destruct (if refresh then Ok false else fileExists (ls_fs st) (docPathOf row))
      as [[|]|e] eqn:Hexists; cbn [negb] in Hloop; [| |discriminate].
    + (* reused *)
      assert (Hrefresh : refresh = false).
      { destruct (Bool.bool_dec refresh true) as [Heq|Hneq];
          [rewrite Heq in Hexists; discriminate | now apply not_true_is_false]. }
      rewrite Hrefresh in Hexists.
      apply fileExists_true in Hexists as [content Hcontent].
      destruct (IH _ Hnd Hloop) as (D & HD & Hall). cbn [ls_docs ls_fs] in HD, Hall.
      exists (cached_doc row (docPathOf row) :: D).
      split; [now rewrite HD, <- app_assoc|].
      constructor.
      * split; [apply list_elem_of_here|]. split; [reflexivity|]. left.
        split; [exact Hrefresh|]. exists content. split; [exact Hcontent|].
        cbn [cd_path cached_doc].
        match type of Hloop with
        | fetch_loop _ _ _ _ _ ?next = _ =>
            pose proof (proj2 (fetch_loop_kept rows next _ content Hothers) Hcontent) as Hkept
        end.
        now rewrite Hloop in Hkept.
      * eapply Forall_impl; [exact Hall|]. intros doc. apply Hlater. now right.
    + destruct (fetch_into_cache W (ls_fs st) cik row (docPathOf row))
        as [σ1 [[]|e]] eqn:Hfetch.
      * (* fetched *)
        destruct (fetch_into_cache_content _ _ _ _ Hfetch) as (fetched & Hget & Hfile).
        destruct (IH _ Hnd Hloop) as (D & HD & Hall). cbn [ls_docs ls_fs] in HD, Hall.
        exists (cached_doc row (docPathOf row) :: D).
        split; [now rewrite HD, <- app_assoc|].
        constructor.
        -- split; [apply list_elem_of_here|]. split; [reflexivity|]. right.
           exists fetched. split; [exact Hget|]. cbn [cd_path cached_doc].
           match type of Hloop with
           | fetch_loop _ _ _ _ _ ?next = _ =>
               pose proof (proj2 (fetch_loop_kept rows next _ _ Hothers) Hfile) as Hkept
           end.
           now rewrite Hloop in Hkept.
        -- eapply Forall_impl; [exact Hall|]. intros doc. apply Hlater. now left.
      * (* skipped *)
        destruct (isCLIErrorWith NOT_FOUND e) eqn:Hnf; [|discriminate].
        destruct (fetch_into_cache_not_found W cik _ _ _ _ _ Hfetch Hnf) as [_ ->].
        destruct (IH _ Hnd Hloop) as (D & HD & Hall). cbn [ls_docs ls_fs] in HD, Hall.
        exists D. split; [exact HD|].
        eapply Forall_impl; [exact Hall|]. intros doc. apply Hlater. now right.
Qed.

End Contents.

Lemma writeCachedManifest_kept (σ σ' : fs) (cacheRoot : string) (manifest : CachedManifest)
      (r : result string) (p content : string) :
  writeCachedManifest σ cacheRoot manifest = (σ', r) ->
  p <> profileManifestPath cacheRoot (m_cik manifest) (m_profile manifest) ->
  σ !! p = Some (File content) -> σ' !! p = Some (File content).
Proof.
  unfold writeCachedManifest. intros Hwrite Hne Hp.
  destruct (mkdir_recursive σ _) as [σ1|e] eqn:Hdir;
    [|injection Hwrite as <- _; exact Hp].
  assert (Hp1 : σ1 !! p = Some (File content)).
  { destruct (mkdir_recursive_lookup _ _ _ p Hdir) as [->|(_ & Hnone & _)];
      [exact Hp | congruence]. }
  destruct (writeFile σ1 _ _) as [σ2|e] eqn:Hfile;
    injection Hwrite as <- _; [|exact Hp1].
  destruct (writeFile_lookup _ _ _ _ p Hfile) as [(Heq & _)|[_ ->]];
    [contradiction | exact Hp1].
Qed.

(** An accession number that is one segment of a path: it holds no [/], so
    that [path.join] adds [<accession>.md] to the directory of the filings
    as it is, and two accession numbers name two files. *)
Definition one_segment (accession : string) : bool := negb (includes "/" accession).

(** X19.  When the accession numbers of the catalog hold no [/]: after a
    completed sync every descriptor of the report names a regular file of
    the cache, at the path that belongs to its accession: a file that was
    there before the sync and is as it was, when the sync runs without
    [--refresh], or else a file that holds what the content provider has
    returned for the accession, ended by a line feed.  And the sync leaves
    every file that was there a file.  (An accession number with a [/] can
    name the file of another one, [./x] that of [x]; then the second of
    them is counted as reused although nothing was fetched for it.) *)
Theorem sync_cache_contents
        (W : Collaborators) (σ σ' : fs) (params : SyncParams) (data : SyncData) :
  (forall cik form from queryLimit rows,
      runFilingsList W cik form from queryLimit = Ok rows ->
      Forall (fun row => one_segment (row_accession row) = true) rows) ->
  runResearchSync W σ params = (σ', Ok data) ->
  Forall (fun doc =>
            cd_path doc
            = filingDocPath (out_cache_root data) (out_cik data) (cd_accession doc) /\
            ((sy_refresh params = false /\
              exists content, σ !! cd_path doc = Some (File content) /\
                              σ' !! cd_path doc = Some (File content))
             \/ (exists fetched,
                    runFilingsGet W (out_cik data) (cd_accession doc) = Ok (Some fetched) /\
                    σ' !! cd_path doc
                    = Some (File (if endsWith_newline fetched then fetched
                                  else fetched +:+ NL)))))
         (out_docs data) /\
  (forall p content,
      σ !! p = Some (File content) -> exists content', σ' !! p = Some (File content')).
Proof.
  intros _ (entity & rows & st & Hent & Hrows & Hloop & Hwrite & ->)%runResearchSync_inv.
  cbn [out_docs out_cache_root out_cik]. split.
  - destruct (fetch_loop_contents W _ _ _ rows _ _ (selectedRows_NoDup _ _ _ _ Hrows) Hloop)
      as (D & HD & Hall).
    cbn [initial_state ls_docs ls_fs app] in HD, Hall. rewrite HD.
    eapply Forall_impl; [exact Hall|].
    intros doc (_ & Hpath & Hdoc). split; [exact Hpath|].
    assert (Hkept : forall content,
               ls_fs st !! cd_path doc = Some (File content) ->
               σ' !! cd_path doc = Some (File content)).
    { intros content. apply (writeCachedManifest_kept _ _ _ _ _ _ _ Hwrite).
      rewrite Hpath. intros E. symmetry in E. revert E. apply manifest_path_not_doc. }
    destruct Hdoc as [(Hr & content & Hbefore & Hafter)|(fetched & Hget & Hfile)].
    + left. split; [exact Hr|]. exists content. split; [exact Hbefore | now apply Hkept].
    + right. exists fetched. split; [exact Hget | now apply Hkept].
  - intros p content Hp.
    apply (writeCachedManifest_files _ _ _ _ _ p Hwrite).
    pose proof (fetch_loop_files W (resolveCacheRoot W (sy_cacheDir params)) (e_cik entity)
                  (sy_refresh params) rows (initial_state σ) p) as Hkept.
    rewrite Hloop in Hkept. apply Hkept. exists content. exact Hp.
Qed.

Lemma sync_cache_contents_witness :
  exists σ' data,
    runResearchSync not_found_world ∅ sample_sync = (σ', Ok data) /\
    Forall (fun doc => exists content, σ' !! cd_path doc = Some (File content))
           (out_docs data).
Proof.
  destruct (runResearchSync not_found_world ∅ sample_sync) as [σ' [data|e]] eqn:Hrun.
  - exists σ', data. split; [reflexivity|].
    assert (Hcatalog : forall cik form from queryLimit rows,
               runFilingsList not_found_world cik form from queryLimit = Ok rows ->
               Forall (fun row => one_segment (row_accession row) = true) rows).
    { intros cik form from queryLimit rows Hrows. cbn in Hrows.
      destruct (String.eqb form "10-K"); [|destruct (String.eqb form "10-Q")];
        injection Hrows as <-;
        (eapply Forall_impl; [apply Forall_take|]);
        [ | intros row H; exact H | | intros row H; exact H | | intros row H; exact H ];
        repeat constructor. }
    destruct (sync_cache_contents not_found_world ∅ σ' sample_sync data Hcatalog Hrun)
      as [Hdocs _].
    eapply Forall_impl; [exact Hdocs|].
    intros doc [_ [(_ & content & _ & Hfile)|(fetched & _ & Hfile)]]; eauto.
  - exfalso.
    assert (Hok : is_ok (snd (runResearchSync not_found_world ∅ sample_sync)) = true)
      by (vm_compute; reflexivity).
    rewrite Hrun in Hok. discriminate Hok.
Defined.

(** *** How many filings a sync selects *)

Lemma select_rows_length (rows : list FilingRow) (selected : list (string * FilingRow)) :
  length (select_rows selected rows) <= length selected + length rows.
Proof.
  unfold select_rows. revert selected.
  induction rows as [|row rows IH]; intros selected; simpl; [lia|].
  destruct (has selected (row_accession row)).
  - specialize (IH selected). lia.
  - specialize (IH (selected ++ [(row_accession row, row)])).
    rewrite List.length_app in IH. simpl in IH. lia.
Qed.

(** The sum of the limits of the rules of a profile: 16 for [core], 24 for
    [events], 8 for [financials]. *)
Definition profile_limit (profile : ResearchProfile) : nat :=
  list_sum (map rule_queryLimit (PROFILE_RULES profile)).

Lemma selectedRows_length (W : Collaborators) (cik : string) (profile : ResearchProfile)
      (rows : list FilingRow) :
  (forall form from queryLimit found,
      runFilingsList W cik form from queryLimit = Ok found -> length found <= queryLimit) ->
  selectedRows W cik profile = Ok rows ->
  length rows <= profile_limit profile.
Proof.
  intros Hlimit. unfold selectedRows, profile_limit.
  destruct (select_rules W cik (PROFILE_RULES profile) []) as [selected|e] eqn:Hsel;
    cbn [mbind result_bind mret result_ret]; [|discriminate].
  intros [= <-].
  rewrite (Permutation_length (sort_perm by_filing_date_desc (map snd selected))), length_map.
  apply select_rules_concat in Hsel as (lists & Hlists & ->).
  etransitivity; [apply select_rows_length|]. simpl.
  induction Hlists as [|rule found rules lists Hfound _ IH]; simpl; [lia|].
  rewrite List.length_app. apply Hlimit in Hfound. lia.
Qed.

(** X20.  When the filing catalog honours the limit it is given, a sync
    handles no more filings than the limits of the rules of its profile add
    up to: the documents and the skipped filings of its report are at most
    16 for [core], 24 for [events] and 8 for [financials]. *)
Theorem sync_selection_bounded
        (W : Collaborators) (σ σ' : fs) (params : SyncParams) (data : SyncData) :
  (forall cik form from queryLimit found,
      runFilingsList W cik form from queryLimit = Ok found -> length found <= queryLimit) ->
  runResearchSync W σ params = (σ', Ok data) ->
  out_docs_count data + out_skipped_count data
  <= match sy_profile params with
     | core => 16
     | events => 24
     | financials => 8
     end.
Proof.
  intros Hlimit (entity & rows & st & Hent & Hrows & Hloop & Hwrite & ->)%runResearchSync_inv.
  cbn [out_docs_count out_skipped_count].
  destruct (fetch_loop_completed W _ _ _ rows _ _ Hloop)
    as (nd & ns & f & r & Hd & Hs & _ & _ & _ & Hp).
  cbn [initial_state ls_docs ls_skipped app] in Hd, Hs. rewrite Hd, Hs.
  apply Permutation_length in Hp. rewrite List.length_app, !length_map in Hp. rewrite Hp.
  pose proof (selectedRows_length W _ _ _ (Hlimit (e_cik entity)) Hrows) as Hbound.
  destruct (sy_profile params); exact Hbound.
Qed.

Lemma sample_world_limit (failing : string) (failure : exn)
      (cik form : string) (from : option string) (queryLimit : nat)
      (found : list FilingRow) :
  runFilingsList (sample_world failing failure) cik form from queryLimit = Ok found ->
  length found <= queryLimit.
Proof.
  cbn [runFilingsList sample_world].
  repeat case_match; intros [= <-]; rewrite length_take; lia.
Qed.

Lemma sync_selection_bounded_witness :
  exists σ' data,
    runResearchSync not_found_world ∅ sample_sync = (σ', Ok data) /\
    out_docs_count data + out_skipped_count data <= 16.
Proof.
  destruct (runResearchSync not_found_world ∅ sample_sync) as [σ' [data|e]] eqn:Hrun.
  - exists σ', data. split; [reflexivity|].
    apply (sync_selection_bounded not_found_world ∅ σ' sample_sync data);
      [apply sample_world_limit | exact Hrun].
  - exfalso.
    assert (Hok : is_ok (snd (runResearchSync not_found_world ∅ sample_sync)) = true)
      by (vm_compute; reflexivity).
    rewrite Hrun in Hok. discriminate Hok.
Defined.

(** *** Central index keys *)

Lemma digit_solid (c : ascii) : is_digit c = true -> negb (is_space c) = true.
Proof. destruct c as [[] [] [] [] [] [] [] []]; (discriminate || reflexivity). Qed.

Lemma zeros_length (n : nat) : String.length (zeros n) = n.
Proof. induction n as [|n IH]; simpl; [reflexivity | now rewrite IH]. Qed.

Lemma zeros_digits (n : nat) : all_chars is_digit (zeros n) = true.
Proof. induction n as [|n IH]; simpl; [reflexivity | exact IH]. Qed.

Lemma normalizeCik_digits (value cik : string) :
  normalizeCik value = Ok cik ->
  String.length cik = 10 /\ all_chars is_digit cik = true.
Proof.
  unfold normalizeCik. cbv zeta.
  destruct (1 <=? String.length (trim value)) eqn:Hmin; [|discriminate].
  destruct (String.length (trim value) <=? 10) eqn:Hmax; [|discriminate].
  destruct (all_chars is_digit (trim value)) eqn:Hdigits; [|discriminate].
  cbn [andb]. intros [= <-].
  apply Nat.leb_le in Hmin, Hmax. unfold padStart.
  rewrite length_app, zeros_length, all_chars_app, zeros_digits, Hdigits.
  split; [lia | reflexivity].
Qed.

Lemma normalizeCik_fixed (cik : string) :
  all_chars is_digit cik = true -> String.length cik = 10 ->
  isLikelyCik cik = true /\ normalizeCik cik = Ok cik.
Proof.
  intros Hdigits Hlen. unfold isLikelyCik, normalizeCik, padStart. cbv zeta.
  rewrite (trim_solid _ (all_chars_impl _ _ _ digit_solid Hdigits)), Hlen, Hdigits.
  split; reflexivity.
Qed.

(** X21.  A normalised CIK has ten characters, all digits, ends with the
    digits given, and is left as it is by the normaliser; what the
    normaliser accepts, [isLikelyCik] takes for a CIK. *)
Theorem normalizeCik_normal (value cik : string) :
  normalizeCik value = Ok cik ->
  String.length cik = 10 /\
  all_chars is_digit cik = true /\
  (exists padding, cik = padding +:+ trim value) /\
  normalizeCik cik = Ok cik /\
  isLikelyCik value = true.
Proof.
  intros Hcik.
  destruct (normalizeCik_digits _ _ Hcik) as [Hlen Hall].
  destruct (normalizeCik_fixed _ Hall Hlen) as [_ Hfixed].
  split; [exact Hlen|]. split; [exact Hall|].
  revert Hcik. unfold normalizeCik, isLikelyCik, padStart. cbv zeta.
  destruct (1 <=? String.length (trim value)); [|discriminate].
  destruct (String.length (trim value) <=? 10); [|discriminate].
  destruct (all_chars is_digit (trim value)); [|discriminate].
  cbn [andb]. intros [= <-].
  split; [eauto|]. split; [exact Hfixed | reflexivity].
Qed.

Lemma normalizeCik_normal_witness :
  String.length "0000320193" = 10 /\
  all_chars is_digit "0000320193" = true /\
  (exists padding, "0000320193" = padding +:+ trim " 320193 ") /\
  normalizeCik "0000320193" = Ok "0000320193" /\
  isLikelyCik " 320193 " = true.
Proof. apply (normalizeCik_normal " 320193 " "0000320193"). reflexivity. Defined.

(** *** The filing catalog *)

Lemma ltb_leb (a b : string) : String.ltb a b = negb (String.leb b a).
Proof.
  unfold String.ltb, String.leb. rewrite (String.compare_antisym b a).
  destruct (String.compare a b); reflexivity.
Qed.

Lemma slice_sublist {A} (start stop : nat) (l : list A) : slice start stop l `sublist_of` l.
Proof.
  unfold slice. etransitivity; [apply sublist_take | apply sublist_drop].
Qed.

Lemma slice_length {A} (start stop : nat) (l : list A) :
  length (slice start stop l) <= stop - start.
Proof. unfold slice. rewrite length_take. lia. Qed.

(** What [dateInRange] answers for a date that is given. *)
Lemma dateInRange_spec (value : string) (from to : option string) :
  dateInRange value from to = true <->
  (forall bound, from = Some bound -> bound <> EmptyString -> String.leb bound value = true) /\
  (forall bound, to = Some bound -> bound <> EmptyString -> String.leb value bound = true).
Proof.
  unfold dateInRange.
  destruct from as [[|cf f]|]; destruct to as [[|ct t]|];
    cbn [given String.length Nat.eqb negb andb default from_option]; cbv [Datatypes.id];
    rewrite ?ltb_leb;
    repeat match goal with
           | |- context [String.leb ?a ?b] => destruct (String.leb a b) eqn:?
           end;
    cbn [negb andb]; (split; [intros H | intros [H1 H2]]);
    try discriminate; try reflexivity;
    try (split; intros b [= <-] Hb; congruence);
    try (specialize (H1 _ eq_refl ltac:(discriminate)); congruence);
    try (specialize (H2 _ eq_refl ltac:(discriminate)); congruence).
Qed.

Section CatalogList.
Variable toUpperCase : string -> string.
Variable resolveEntity : string -> result Entity.
Variable fetchSecJson : string -> result (option Filings.RecentFilings).

Local Abbreviation list_ := (Filings.runFilingsList toUpperCase resolveEntity fetchSecJson).
Local Abbreviation rows_ := (Filings.recentRows resolveEntity fetchSecJson).

(** What a row that passes the filter of [runFilingsList] is. *)
Definition listed (params : Filings.ListParams) (row : Filings.ListedRow) : Prop :=
  (forall form, Filings.l_form params = Some form -> toUpperCase form <> EmptyString ->
                toUpperCase (default EmptyString (Filings.lr_form row)) = toUpperCase form) /\
  (forall bound, Filings.l_from params = Some bound -> bound <> EmptyString ->
                 exists date, Filings.lr_filingDate row = Some date /\
                              String.leb bound date = true) /\
  (forall bound, Filings.l_to params = Some bound -> bound <> EmptyString ->
                 exists date, Filings.lr_filingDate row = Some date /\
                              String.leb date bound = true).

Lemma selects_listed (params : Filings.ListParams) (row : Filings.ListedRow) :
  Filings.selects toUpperCase params row = true -> listed params row.
Proof.
  unfold Filings.selects, listed. cbv zeta.
  assert (Hgiven : forall s, s <> EmptyString -> given (Some s) = true).
  { intros [|c s] Hs; [contradiction | reflexivity]. }
  destruct (given (toUpperCase <$> Filings.l_form params)
            && negb (String.eqb (toUpperCase (default EmptyString (Filings.lr_form row)))
                                (default EmptyString (toUpperCase <$> Filings.l_form params))))
    eqn:Hform; [discriminate|].
  intros Hdate. split.
  - intros form Hf Hne. rewrite Hf in Hform. cbn [fmap option_fmap option_map default] in Hform.
    rewrite (Hgiven _ Hne) in Hform. cbn [andb] in Hform.
    apply negb_false_iff, String.eqb_eq in Hform. exact Hform.
  - destruct (given (Filings.lr_filingDate row)) eqn:Hrow; cbn [negb] in Hdate.
    + destruct (Filings.lr_filingDate row) as [date|]; [|discriminate].
      cbn [default] in Hdate. apply dateInRange_spec in Hdate as [Hfrom Hto].
      split; intros bound Hb Hne; exists date; (split; [reflexivity|]); eauto.
    + apply andb_true_iff in Hdate as [Hfrom Hto].
      apply negb_true_iff in Hfrom, Hto.
      split; intros bound Hb Hne; rewrite Hb, (Hgiven _ Hne) in *; discriminate.
Qed.

(** X22.  [runFilingsList] returns rows of the catalog, in catalog order,
    that all pass the filter: the form asked for, compared in upper case,
    and a filing date inside the bounds given; it returns no more rows than
    [queryLimit], and its counts are those of the page. *)
Theorem runFilingsList_page (id : string) (params : Filings.ListParams)
        (rows : list Filings.ListedRow) (meta : Filings.ListMeta) :
  list_ id params = Ok (rows, meta) ->
  exists catalog,
    rows_ id = Ok catalog /\
    rows `sublist_of` catalog /\
    Forall (listed params) rows /\
    (forall queryLimit, Filings.l_queryLimit params = Some queryLimit ->
                        length rows <= queryLimit) /\
    Filings.query_returned_count meta = length rows /\
    Filings.query_total_count meta
    = length (filter (fun row => Filings.selects toUpperCase params row = true) catalog) /\
    (Filings.query_truncated meta = true
     <-> Filings.query_offset meta + length rows < Filings.query_total_count meta).
Proof.
  unfold Filings.runFilingsList.
  destruct (rows_ id) as [catalog|e]; cbn [mbind result_bind mret result_ret];
    [|discriminate].
  cbv zeta. intros [= <- <-]. exists catalog.
  set (matching := filter (fun row => Filings.selects toUpperCase params row = true) catalog).
  split; [reflexivity|]. split.
  { etransitivity; [apply slice_sublist | apply sublist_filter]. }
  split.
  { apply Forall_forall. intros row Hrow. apply selects_listed.
    pose proof (elem_of_sublist _ _ _ Hrow (slice_sublist _ _ matching)) as Hin.
    apply list_elem_of_filter in Hin. tauto. }
  split.
  { intros queryLimit ->.
    change (default (length matching) (Some queryLimit)) with queryLimit.
    etransitivity; [apply slice_length|]. lia. }
  cbn [Filings.query_returned_count Filings.query_total_count Filings.query_truncated
       Filings.query_offset].
  split; [reflexivity|]. split; [reflexivity|]. apply Nat.ltb_lt.
Qed.

End CatalogList.

Lemma zipRecentFilings_row (cik : string) (recent : option Filings.RecentFilings)
      (rows : list Filings.ListedRow) (row : Filings.ListedRow) :
  Filings.zipRecentFilings cik recent = Ok rows -> row ∈ rows ->
  Filings.lr_accession row <> EmptyString /\
  match Filings.lr_filingUrl row with
  | Some location =>
      exists document,
        Filings.lr_primaryDocument row = Some document /\ document <> EmptyString /\
        filingDocumentUrl cik (Filings.lr_accession row) document = Ok location
  | None => given (Filings.lr_primaryDocument row) = false
  end.
Proof.
  unfold Filings.zipRecentFilings. destruct recent as [recent|];
    [|intros [= <-] Hin; now apply elem_of_nil in Hin].
  intros Hzip%mapM_result_Forall2 Hrow.
  assert (Hsolid : Forall (fun entry => snd entry <> EmptyString)
                          (Filings.numbered (default [] (Filings.rf_accessionNumber recent)))).
  { apply Forall_forall. intros entry [Hlen _]%list_elem_of_filter.
    intros E. rewrite E in Hlen. simpl in Hlen. lia. }
  induction Hzip as [|entry r entries rs Hr _ IH].
  - now apply elem_of_nil in Hrow.
  - apply Forall_cons_1 in Hsolid as [Hentry Hsolid].
    apply elem_of_cons in Hrow as [->|Hrow]; [|exact (IH Hrow Hsolid)].
    unfold Filings.zip_row in Hr. cbv zeta in Hr.
    destruct (given (Filings.at_index (Filings.rf_primaryDocument recent) (fst entry)))
      eqn:Hdoc.
    + destruct (filingDocumentUrl cik (snd entry) _) as [location|e] eqn:Hurl;
        cbn [mbind result_bind mret result_ret] in Hr; [|discriminate].
      injection Hr as <-. cbn [Filings.lr_accession Filings.lr_filingUrl
                                Filings.lr_primaryDocument].
      split; [exact Hentry|].
      destruct (Filings.at_index (Filings.rf_primaryDocument recent) (fst entry))
        as [[|c document]|]; try discriminate.
      exists (String c document). repeat split; [discriminate | exact Hurl].
    + cbn [mbind result_bind mret result_ret] in Hr. injection Hr as <-.
      cbn [Filings.lr_accession Filings.lr_filingUrl Filings.lr_primaryDocument].
      split; [exact Hentry | exact Hdoc].
Qed.

Section CatalogGet.
Variable resolveEntity : string -> result Entity.
Variable fetchSecJson : string -> result (option Filings.RecentFilings).
Variable fetchSecText : string -> result string.
Variable extractMarkdownFromHtml : string -> string.

Local Abbreviation get_ :=
  (Filings.runFilingsGet resolveEntity fetchSecJson fetchSecText extractMarkdownFromHtml).
Local Abbreviation rows_ := (Filings.recentRows resolveEntity fetchSecJson).

(** X23.  [runFilingsGet] refuses an accession number that is not
    well-formed before it resolves the entity; when it succeeds, it has
    found the normalised accession number among the rows of the entity, with
    a primary document, and it gives the archive URL of that document, and
    for the formats with content what the server returns at that URL (as
    Markdown unless HTML is asked for). *)
Theorem runFilingsGet_outcome (id accession : string) (format : Filings.Format) :
  (forall e, normalizeAccession accession = Err e -> get_ id accession format = Err e) /\
  (forall data,
      get_ id accession format = Ok data ->
      exists entity catalog found document location,
        normalizeAccession accession = Ok (Filings.lr_accession found) /\
        resolveEntity id = Ok entity /\
        rows_ id = Ok catalog /\
        found ∈ catalog /\
        Filings.lr_primaryDocument found = Some document /\
        document <> EmptyString /\
        filingDocumentUrl (e_cik entity) (Filings.lr_accession found) document = Ok location /\
        match format with
        | Filings.format_url =>
            data = Filings.Located (Filings.lr_accession found) (Filings.lr_form found)
                     (Filings.lr_filingDate found) (Filings.lr_reportDate found)
                     document location
        | Filings.format_html =>
            exists raw, fetchSecText location = Ok raw /\
                        data = Filings.Fetched (Filings.lr_accession found) location raw
        | _ =>
            exists raw, fetchSecText location = Ok raw /\
                        data = Filings.Fetched (Filings.lr_accession found) location
                                 (extractMarkdownFromHtml raw)
        end).
Proof.
  unfold Filings.runFilingsGet. split.
  - intros e ->. reflexivity.
  - intros data.
    destruct (normalizeAccession accession) as [normalized|e];
      cbn [mbind result_bind mret result_ret]; [|discriminate].
    destruct (rows_ id) as [catalog|e] eqn:Hrows;
      cbn [mbind result_bind mret result_ret]; [|discriminate].
    destruct (List.find _ catalog) as [found|] eqn:Hfind; [|discriminate].
    apply find_some in Hfind as [Hin%list_elem_of_In Hacc%String.eqb_eq].
    destruct (negb (given (Filings.lr_primaryDocument found))
              || negb (given (Filings.lr_filingUrl found))) eqn:Hdoc; [discriminate|].
    apply orb_false_iff in Hdoc as [_ Hurl%negb_false_iff].
    pose proof Hrows as Hcatalog. unfold Filings.recentRows in Hrows.
    destruct (resolveEntity id) as [entity|e] eqn:Hent;
      cbn [mbind result_bind mret result_ret] in Hrows; [|discriminate].
    destruct (Filings.submissionsUrl (e_cik entity)) as [address|e];
      cbn [mbind result_bind mret result_ret] in Hrows; [|discriminate].
    destruct (fetchSecJson address) as [recent|e];
      cbn [mbind result_bind mret result_ret] in Hrows; [|discriminate].
    destruct (zipRecentFilings_row _ _ _ _ Hrows Hin) as [_ Hfound].
    destruct (Filings.lr_filingUrl found) as [location|]; [|discriminate].
    destruct Hfound as (document & Hdocument & Hne & Hlocation).
    intros Hdata. exists entity, catalog, found, document, location.
    rewrite Hdocument in Hdata.
    change (default EmptyString (Some document)) with document in Hdata.
    change (default EmptyString (Some location)) with location in Hdata.
    split; [now rewrite Hacc|]. split; [reflexivity|]. split; [reflexivity|].
    split; [exact Hin|]. split; [exact Hdocument|]. split; [exact Hne|].
    split; [exact Hlocation|].
    destruct format.
    + now injection Hdata as <-.
    + destruct (fetchSecText location) as [raw|e];
        cbn [mbind result_bind mret result_ret] in Hdata; [|discriminate].
      injection Hdata as <-. eauto.
    + destruct (fetchSecText location) as [raw|e];
        cbn [mbind result_bind mret result_ret] in Hdata; [|discriminate].
      injection Hdata as <-. eauto.
    + destruct (fetchSecText location) as [raw|e];
        cbn [mbind result_bind mret result_ret] in Hdata; [|discriminate].
      injection Hdata as <-. eauto.
Qed.

End CatalogGet.

Definition sample_recent : Filings.RecentFilings :=
  {| Filings.rf_accessionNumber :=
       Some ["0000320193-26-000011"; "0000320193-26-000006"; "";
             "0000320193-25-000079"; "0000320193-25-000073"];
     Filings.rf_form := Some ["8-K"; "10-Q"; "4"; "10-K"; "10-q"];
     Filings.rf_filingDate :=
       Some ["2026-02-02"; "2026-01-30"; "2026-01-15"; "2025-10-31"; "2025-08-01"];
     Filings.rf_reportDate := Some ["2026-02-02"; "2025-12-27"; ""; "2025-09-27"];
     Filings.rf_primaryDocument :=
       Some ["a8-k.htm"; "a10-q1.htm"; "form4.xml"; "a10-k.htm"; "a10-q2.htm"] |}.

Definition sample_list : Filings.ListParams :=
  {| Filings.l_form := Some "10-q";
     Filings.l_from := Some "2025-06-01";
     Filings.l_to := None;
     Filings.l_queryLimit := Some 1;
     Filings.l_offset := None |}.

Definition sample_catalog (id : string) (params : Filings.ListParams)
  : result (list Filings.ListedRow * Filings.ListMeta) :=
  Filings.runFilingsList toUpperCase (fun _ => Ok sample_entity)
                         (fun _ => Ok (Some sample_recent)) id params.

Lemma runFilingsList_page_witness :
  exists rows meta,
    sample_catalog "0000320193" sample_list = Ok (rows, meta) /\
    length rows <= 1 /\
    (Filings.query_truncated meta = true
     <-> Filings.query_offset meta + length rows < Filings.query_total_count meta).
Proof.
  destruct (sample_catalog "0000320193" sample_list) as [[rows meta]|e] eqn:Hrun.
  - exists rows, meta. split; [reflexivity|].
    destruct (runFilingsList_page toUpperCase (fun _ => Ok sample_entity)
                (fun _ => Ok (Some sample_recent)) "0000320193" sample_list rows meta Hrun)
      as (catalog & _ & _ & _ & Hlimit & _ & _ & Htruncated).
    split; [exact (Hlimit 1 eq_refl) | exact Htruncated].
  - exfalso.
    assert (Hok : is_ok (sample_catalog "0000320193" sample_list) = true)
      by (vm_compute; reflexivity).
    rewrite Hrun in Hok. discriminate Hok.
Defined.

(** *** Resolving an identifier twice *)

Lemma string_of_uint_digit_chars (d : Decimal.uint) :
  all_chars is_digit (NilEmpty.string_of_uint d) = true.
Proof. induction d; simpl; auto. Qed.

Lemma numberToString_digits (n : N) :
  all_chars is_digit (TickerMap.numberToString (TickerMap.Natural n)) = true.
Proof.
  unfold TickerMap.numberToString, NilZero.string_of_uint.
  destruct (N.to_uint n); try reflexivity; apply string_of_uint_digit_chars.
Qed.

Lemma padStart_length (s : string) : 10 <= String.length (padStart 10 s).
Proof. unfold padStart. rewrite length_app, zeros_length. lia. Qed.

Lemma padStart_digits (s : string) :
  all_chars is_digit s = true ->
  all_chars is_digit (padStart 10 s) = true /\ 10 <= String.length (padStart 10 s).
Proof.
  intros Hs. unfold padStart. rewrite all_chars_app, zeros_digits, Hs, length_app, zeros_length.
  split; [reflexivity | lia].
Qed.

(** X24.  The CIK of a resolved entity has ten characters at least; it is
    ten digits when the identifier was a CIK, and it is made of digits when
    the number of the ticker map is a natural number below [10^21] (of any
    other number, a fraction for one, [String] prints more than digits).
    Resolved again, without strict matching, a CIK of ten digits gives an
    entity of the same CIK, whatever the ticker map holds. *)
Theorem resolveEntity_again (toUpperCase : string -> string)
        (records : list TickerMap.TickerRecord) (strictMapMatch : bool) (id : string)
        (entity : TickerMap.ResolvedEntity) :
  TickerMap.resolveEntity toUpperCase records strictMapMatch id = Ok entity ->
  10 <= String.length (TickerMap.re_cik entity) /\
  (isLikelyCik id = true ->
   String.length (TickerMap.re_cik entity) = 10 /\
   all_chars is_digit (TickerMap.re_cik entity) = true) /\
  (forall n,
      TickerMap.re_cik_numeric entity = TickerMap.Natural n -> (n < 10 ^ 21)%N ->
      all_chars is_digit (TickerMap.re_cik entity) = true) /\
  (all_chars is_digit (TickerMap.re_cik entity) = true ->
   String.length (TickerMap.re_cik entity) = 10 ->
   forall records',
   exists entity',
     TickerMap.resolveEntity toUpperCase records' false (TickerMap.re_cik entity) = Ok entity' /\
     TickerMap.re_cik entity' = TickerMap.re_cik entity).
Proof.
  intros Hresolve.
  assert (Hcik : 10 <= String.length (TickerMap.re_cik entity) /\
                 (isLikelyCik id = true ->
                  String.length (TickerMap.re_cik entity) = 10 /\
                  all_chars is_digit (TickerMap.re_cik entity) = true) /\
                 (forall n,
                     TickerMap.re_cik_numeric entity = TickerMap.Natural n ->
                     all_chars is_digit (TickerMap.re_cik entity) = true)).
  { unfold TickerMap.resolveEntity in Hresolve.
    destruct (isLikelyCik id).
    - destruct (normalizeCik id) as [cik|e] eqn:Hcik;
        cbn [mbind result_bind] in Hresolve; [|discriminate].
      destruct (normalizeCik_digits _ _ Hcik) as [Hlen Hall].
      destruct (negb _ && strictMapMatch); [discriminate|].
      injection Hresolve as <-. cbn [TickerMap.re_cik]. rewrite Hlen. auto.
    - destruct (normalizeTicker id) as [symbol|e];
        cbn [mbind result_bind] in Hresolve; [|discriminate].
      destruct (TickerMap.findByTicker toUpperCase records symbol) as [found|];
        [|discriminate].
      injection Hresolve as <-. cbn [TickerMap.re_cik TickerMap.re_cik_numeric].
      split; [apply padStart_length|]. split; [discriminate|].
      intros n ->.
      apply (padStart_digits _ (numberToString_digits n)). }
  destruct Hcik as (Hmin & Hlikely & Hnatural).
  split; [exact Hmin|]. split; [exact Hlikely|]. split; [intros n Hn _; eauto|].
  intros Hall Hlen records'.
  destruct (normalizeCik_fixed _ Hall Hlen) as [Hfixed Hnormal].
  unfold TickerMap.resolveEntity. rewrite Hfixed, Hnormal. cbn [mbind result_bind].
  rewrite andb_false_r. eexists. split; reflexivity.
Qed.

(** A ticker map in which one record holds a fraction for a number. *)
Definition sample_records : list TickerMap.TickerRecord :=
  [ {| TickerMap.cik_str := TickerMap.Natural 789019; TickerMap.ticker := "MSFT";
       TickerMap.title := "MICROSOFT CORP" |};
    {| TickerMap.cik_str := TickerMap.Other "1.5"; TickerMap.ticker := "HALF";
       TickerMap.title := "Half Corp" |};
    {| TickerMap.cik_str := TickerMap.Natural 320193; TickerMap.ticker := "AAPL";
       TickerMap.title := "Apple Inc." |} ].

Lemma resolveEntity_again_witness :
  (exists entity',
      TickerMap.resolveEntity toUpperCase [] false "0000320193" = Ok entity' /\
      TickerMap.re_cik entity' = "0000320193") /\
  (exists entity,
      TickerMap.resolveEntity toUpperCase sample_records false "half" = Ok entity /\
      TickerMap.re_cik entity = "00000001.5" /\
      10 <= String.length (TickerMap.re_cik entity)).
Proof.
  split.
  - destruct (resolveEntity_again toUpperCase sample_records false "aapl"
                {| TickerMap.re_input := "aapl";
                   TickerMap.re_cik := "0000320193";
                   TickerMap.re_cik_numeric := TickerMap.Natural 320193;
                   TickerMap.re_ticker := Some "AAPL";
                   TickerMap.re_title := Some "Apple Inc." |})
      as (_ & _ & _ & Hagain).
    + vm_compute. reflexivity.
    + exact (Hagain eq_refl eq_refl []).
  - eexists. split; [vm_compute; reflexivity|]. split; [reflexivity|].
    cbn [TickerMap.re_cik]. vm_compute. lia.
Defined.

(** *** Excerpts *)

Lemma trimEnd_length (s : string) : String.length (trimEnd s) <= String.length s.
Proof.
  induction s as [|c s IH]; simpl; [lia|].
  destruct (trimEnd s); [destruct (is_space c)|]; simpl in *; lia.
Qed.

Lemma trimEnd_prefix (s : string) : String.prefix (trimEnd s) s = true.
Proof.
  induction s as [|c s IH]; simpl; [reflexivity|].
  destruct (trimEnd s) as [|c' t] eqn:E.
  - destruct (is_space c); simpl; [reflexivity|].
    destruct (ascii_dec c c); [now destruct s | contradiction].
  - simpl. destruct (ascii_dec c c); [exact IH | contradiction].
Qed.

Lemma substring_length (n : nat) (s : string) :
  String.length (String.substring 0 n s) <= n.
Proof.
  revert s. induction n as [|n IH]; intros [|c s]; simpl; try lia.
  specialize (IH s). lia.
Qed.

Lemma substring_prefix (n : nat) (s : string) :
  String.prefix (String.substring 0 n s) s = true.
Proof.
  revert s. induction n as [|n IH]; intros [|c s]; simpl; try reflexivity.
  destruct (ascii_dec c c); [apply IH | contradiction].
Qed.

Lemma prefix_trans (a b c : string) :
  String.prefix a b = true -> String.prefix b c = true -> String.prefix a c = true.
Proof.
  revert b c. induction a as [|x a IH]; intros [|y b] [|z c]; simpl; try congruence.
  destruct (ascii_dec x y) as [->|]; [|discriminate].
  destruct (ascii_dec y z) as [->|]; [|discriminate].
  apply IH.
Qed.

(** X25.  An excerpt cut to at least three characters is no longer than
    asked for; a text that fits is returned as it is, and a longer one is
    cut to a beginning of the text, without white space at its end,
    followed by three dots. *)
Theorem trimExcerpt_cut (value : string) (maxChars : nat) :
  3 <= maxChars ->
  String.length (trimExcerpt value maxChars) <= maxChars /\
  (String.length value <= maxChars -> trimExcerpt value maxChars = value) /\
  (maxChars < String.length value ->
   exists beginning,
     trimExcerpt value maxChars = beginning +:+ "..." /\
     String.prefix beginning value = true /\
     trimEnd beginning = beginning).
Proof.
  intros Hmax. unfold trimExcerpt.
  destruct (String.length value <=? maxChars) eqn:Hfits.
  - apply Nat.leb_le in Hfits. repeat split; [exact Hfits | lia].
  - apply Nat.leb_gt in Hfits. split; [|split; [lia|]].
    + rewrite length_app.
      pose proof (trimEnd_length (String.substring 0 (maxChars - 3) value)).
      pose proof (substring_length (maxChars - 3) value).
      simpl. lia.
    + intros _. exists (trimEnd (String.substring 0 (maxChars - 3) value)).
      split; [reflexivity|]. split.
      * eapply prefix_trans; [apply trimEnd_prefix | apply substring_prefix].
      * generalize (String.substring 0 (maxChars - 3) value). intros s.
        induction s as [|c s IH]; simpl; [reflexivity|].
        destruct (trimEnd s) as [|c' t] eqn:E.
        -- destruct (is_space c) eqn:Hc; simpl; [reflexivity | now rewrite Hc].
        -- simpl in IH. cbn [trimEnd]. fold trimEnd. rewrite IH. reflexivity.
Qed.

Lemma trimExcerpt_cut_witness :
  String.length (trimExcerpt "Item 5.02 Departure of Directors" 12) <= 12 /\
  (String.length "Item 5.02 Departure of Directors" <= 12 ->
   trimExcerpt "Item 5.02 Departure of Directors" 12 = "Item 5.02 Departure of Directors") /\
  (12 < String.length "Item 5.02 Departure of Directors" ->
   exists beginning,
     trimExcerpt "Item 5.02 Departure of Directors" 12 = beginning +:+ "..." /\
     String.prefix beginning "Item 5.02 Departure of Directors" = true /\
     trimEnd beginning = beginning).
Proof. apply (trimExcerpt_cut "Item 5.02 Departure of Directors" 12). lia. Defined.

(** *** Compact white space *)

(** The first character of a string, if any. *)
Definition first_char (s : string) : option ascii :=
  match s with
  | EmptyString => None
  | String c _ => Some c
  end.

(** No tab, and no blank next to a blank. *)
Fixpoint blanks_collapsed (s : string) : bool :=
  match s with
  | EmptyString => true
  | String c s' =>
      (if is_blank c
       then (code c =? 32)
            && match first_char s' with
               | Some c' => negb (is_blank c')
               | None => true
               end
       else true)
      && blanks_collapsed s'
  end.

(** No three line feeds in a row. *)
Fixpoint newlines_collapsed (s : string) : bool :=
  match s with
  | EmptyString => true
  | String c s' =>
      match s' with
      | String c1 (String c2 _) => negb (is_lf c && is_lf c1 && is_lf c2)
      | _ => true
      end
      && newlines_collapsed s'
  end.

Lemma blank_is_32 (c : ascii) : is_blank c = true -> (code c =? 32) = true -> c = " "%char.
Proof. destruct c as [[] [] [] [] [] [] [] []]; (discriminate || reflexivity). Qed.

Lemma blank_is_space (c : ascii) : is_blank c = true -> is_space c = true.
Proof. destruct c as [[] [] [] [] [] [] [] []]; (discriminate || reflexivity). Qed.

Lemma lf_is_space (c : ascii) : is_lf c = true -> is_space c = true.
Proof. destruct c as [[] [] [] [] [] [] [] []]; (discriminate || reflexivity). Qed.

Lemma lf_not_blank (c : ascii) : is_lf c = true -> is_blank c = false.
Proof. destruct c as [[] [] [] [] [] [] [] []]; (discriminate || reflexivity). Qed.

Lemma collapse_blanks_first (s : string) :
  match first_char (collapse_blanks s), first_char s with
  | Some c', Some c => is_blank c' = is_blank c
  | None, None => True
  | _, _ => False
  end.
Proof.
  induction s as [|c s IH]; [exact I|].
  cbn [collapse_blanks first_char].
  destruct (is_blank c) eqn:Hc.
  - destruct s as [|c1 s]; [reflexivity|].
    destruct (is_blank c1) eqn:Hc1; [|reflexivity].
    cbn [first_char] in IH.
    destruct (first_char (collapse_blanks (String c1 s))); [congruence | contradiction].
  - cbn [first_char]. exact Hc.
Qed.

Lemma collapse_blanks_collapsed (s : string) :
  blanks_collapsed (collapse_blanks s) = true.
Proof.
  induction s as [|c s IH]; [reflexivity|].
  cbn [collapse_blanks].
  destruct (is_blank c) eqn:Hc.
  - destruct s as [|c1 s]; [reflexivity|].
    destruct (is_blank c1) eqn:Hc1; [exact IH|].
    cbn [blanks_collapsed]. rewrite IH.
    pose proof (collapse_blanks_first (String c1 s)) as Hfirst.
    cbn [first_char] in Hfirst.
    destruct (first_char (collapse_blanks (String c1 s))) as [c'|]; [|contradiction].
    rewrite Hfirst, Hc1. reflexivity.
  - cbn [blanks_collapsed]. rewrite Hc, IH. reflexivity.
Qed.

Lemma collapse_blanks_fixed (s : string) :
  blanks_collapsed s = true -> collapse_blanks s = s.
Proof.
  induction s as [|c s IH]; [reflexivity|].
  cbn [blanks_collapsed collapse_blanks].
  intros [Hc Hs]%andb_true_iff. rewrite (IH Hs).
  destruct (is_blank c) eqn:Hblank; [|reflexivity].
  apply andb_true_iff in Hc as [H32 Hnext].
  rewrite (blank_is_32 c Hblank H32).
  destruct s as [|c1 s]; [reflexivity|].
  cbn [first_char] in Hnext. apply negb_true_iff in Hnext. now rewrite Hnext.
Qed.

Lemma collapse_newlines_run (c c1 c2 : ascii) (s : string) :
  collapse_newlines (String c (String c1 (String c2 s)))
  = if is_lf c && is_lf c1 && is_lf c2
    then collapse_newlines (String c1 (String c2 s))
    else String c (collapse_newlines (String c1 (String c2 s))).
Proof. reflexivity. Qed.

Lemma lf_eq (c c1 : ascii) : is_lf c = true -> is_lf c1 = true -> c1 = c.
Proof.
  unfold is_lf, code. intros Hc%Nat.eqb_eq Hc1%Nat.eqb_eq.
  rewrite <- (ascii_nat_embedding c), <- (ascii_nat_embedding c1). congruence.
Qed.

Lemma collapse_newlines_first (s : string) :
  first_char (collapse_newlines s) = first_char s.
Proof.
  induction s as [|c s IH]; [reflexivity|].
  destruct s as [|c1 [|c2 s]]; try reflexivity.
  rewrite collapse_newlines_run.
  destruct (is_lf c && is_lf c1 && is_lf c2) eqn:Hrun; [|reflexivity].
  rewrite IH. cbn [first_char].
  apply andb_true_iff in Hrun as [[Hc Hc1]%andb_true_iff _].
  f_equal. exact (lf_eq _ _ Hc Hc1).
Qed.

Lemma collapse_newlines_keep (c1 c2 : ascii) (s : string) :
  is_lf c2 = false ->
  exists t, collapse_newlines (String c1 (String c2 s)) = String c1 (String c2 t).
Proof.
  intros Hc2. destruct s as [|c3 s]; [eexists; reflexivity|].
  rewrite collapse_newlines_run, Hc2, andb_false_r. cbv iota.
  pose proof (collapse_newlines_first (String c2 (String c3 s))) as Hfirst.
  destruct (collapse_newlines (String c2 (String c3 s))) as [|d t]; [discriminate|].
  cbn [first_char] in Hfirst. injection Hfirst as ->. eauto.
Qed.

Lemma newlines_collapsed_cons (c : ascii) (s : string) :
  newlines_collapsed (String c s)
  = match s with
    | String c1 (String c2 _) => negb (is_lf c && is_lf c1 && is_lf c2)
    | _ => true
    end && newlines_collapsed s.
Proof. reflexivity. Qed.

Lemma collapse_newlines_collapsed (s : string) :
  newlines_collapsed (collapse_newlines s) = true.
Proof.
  induction s as [|c s IH]; [reflexivity|].
  destruct s as [|c1 [|c2 s]]; try reflexivity.
  rewrite collapse_newlines_run.
  destruct (is_lf c && is_lf c1 && is_lf c2) eqn:Hrun; [exact IH|].
  rewrite newlines_collapsed_cons, IH, andb_true_r.
  destruct (is_lf c2) eqn:Hc2.
  - rewrite andb_true_r in Hrun.
    pose proof (collapse_newlines_first (String c1 (String c2 s))) as Hfirst.
    destruct (collapse_newlines (String c1 (String c2 s))) as [|d1 [|d2 t]];
      try reflexivity.
    cbn [first_char] in Hfirst. injection Hfirst as ->. now rewrite Hrun.
  - destruct (collapse_newlines_keep c1 c2 s Hc2) as [t ->].
    now rewrite Hc2, andb_false_r.
Qed.

Lemma collapse_newlines_fixed (s : string) :
  newlines_collapsed s = true -> collapse_newlines s = s.
Proof.
  induction s as [|c s IH]; [reflexivity|].
  rewrite newlines_collapsed_cons. intros [Hc Hs]%andb_true_iff.
  destruct s as [|c1 [|c2 s]]; try reflexivity.
  rewrite collapse_newlines_run, (IH Hs).
  apply negb_true_iff in Hc. now rewrite Hc.
Qed.

(** Dropping line feeds that are followed by a line feed lets no blank
    meet a blank. *)
Lemma collapse_newlines_blanks (s : string) :
  blanks_collapsed s = true -> blanks_collapsed (collapse_newlines s) = true.
Proof.
  induction s as [|c s IH]; [reflexivity|].
  intros Hs. pose proof Hs as Hs'. cbn [blanks_collapsed] in Hs'.
  apply andb_true_iff in Hs' as [Hc Hrest]. specialize (IH Hrest).
  assert (Hkeep : blanks_collapsed (String c (collapse_newlines s)) = true).
  { cbn [blanks_collapsed]. rewrite IH, andb_true_r, collapse_newlines_first. exact Hc. }
  destruct s as [|c1 [|c2 s]]; try exact Hs.
  rewrite collapse_newlines_run.
  destruct (is_lf c && is_lf c1 && is_lf c2); [exact IH | exact Hkeep].
Qed.

Lemma blanks_collapsed_tail (c : ascii) (s : string) :
  blanks_collapsed (String c s) = true -> blanks_collapsed s = true.
Proof. cbn [blanks_collapsed]. now intros [_ H]%andb_true_iff. Qed.

Lemma newlines_collapsed_tail (c : ascii) (s : string) :
  newlines_collapsed (String c s) = true -> newlines_collapsed s = true.
Proof. cbn [newlines_collapsed]. now intros [_ H]%andb_true_iff. Qed.

Lemma trimStart_collapsed (s : string) :
  (blanks_collapsed s = true -> blanks_collapsed (trimStart s) = true) /\
  (newlines_collapsed s = true -> newlines_collapsed (trimStart s) = true).
Proof.
  induction s as [|c s [IHb IHn]]; [now split|].
  cbn [trimStart]. destruct (is_space c); [|now split].
  split; intros H.
  - apply IHb. exact (blanks_collapsed_tail _ _ H).
  - apply IHn. exact (newlines_collapsed_tail _ _ H).
Qed.

Lemma trimEnd_first (s : string) :
  trimEnd s = EmptyString \/ first_char (trimEnd s) = first_char s.
Proof.
  destruct s as [|c s]; [now left|]. cbn [trimEnd].
  destruct (trimEnd s); [destruct (is_space c)|]; auto.
Qed.

Lemma trimEnd_blanks (s : string) :
  blanks_collapsed s = true -> blanks_collapsed (trimEnd s) = true.
Proof.
  induction s as [|c s IH]; [reflexivity|].
  intros Hs. pose proof Hs as Hs'. cbn [blanks_collapsed] in Hs'.
  apply andb_true_iff in Hs' as [Hc Hrest]. specialize (IH Hrest).
  cbn [trimEnd]. destruct (trimEnd s) as [|c' t] eqn:E.
  - destruct (is_space c) eqn:Hspace; [reflexivity|].
    cbn [blanks_collapsed first_char].
    destruct (is_blank c) eqn:Hblank; [|reflexivity].
    apply blank_is_space in Hblank. congruence.
  - cbn [blanks_collapsed] in *. rewrite IH, andb_true_r.
    destruct (is_blank c); [|reflexivity].
    apply andb_true_iff in Hc as [H32 Hnext]. rewrite H32. cbn [andb].
    destruct (trimEnd_first s) as [Hnil|Hfirst]; [congruence|].
    rewrite E in Hfirst. cbn [first_char] in Hfirst. rewrite <- Hfirst in Hnext.
    exact Hnext.
Qed.

Lemma trimEnd_second (c : ascii) (s : string) (c1 c2 : ascii) (t : string) :
  trimEnd (String c s) = String c1 (String c2 t) ->
  exists s', s = String c2 s' /\ c1 = c.
Proof.
  cbn [trimEnd]. destruct (trimEnd s) as [|d u] eqn:E.
  - destruct (is_space c); discriminate.
  - intros [= <- <- <-].
    destruct (trimEnd_first s) as [Hnil|Hfirst]; [congruence|].
    rewrite E in Hfirst. destruct s as [|d' s']; [discriminate|].
    cbn [first_char] in Hfirst. injection Hfirst as ->. eauto.
Qed.

Lemma trimEnd_newlines (s : string) :
  newlines_collapsed s = true -> newlines_collapsed (trimEnd s) = true.
Proof.
  induction s as [|c s IH]; [reflexivity|].
  rewrite newlines_collapsed_cons. intros [Hc Hrest]%andb_true_iff.
  specialize (IH Hrest).
  destruct (trimEnd (String c s)) as [|d0 [|d1 [|d2 t]]] eqn:E; try reflexivity.
  pose proof E as E'. cbn [trimEnd] in E'.
  destruct (trimEnd s) as [|e0 u] eqn:Es; [destruct (is_space c); discriminate|].
  injection E' as Hd0 Hd1 Hu. subst d0 e0 u.
  rewrite newlines_collapsed_cons, IH, andb_true_r.
  destruct (trimEnd_second c s _ _ _ E) as (s1 & -> & _).
  destruct (trimEnd_second d1 s1 _ _ _ Es) as (s2 & -> & _).
  exact Hc.
Qed.

Lemma trimEnd_idem (s : string) : trimEnd (trimEnd s) = trimEnd s.
Proof.
  induction s as [|c s IH]; [reflexivity|].
  cbn [trimEnd]. destruct (trimEnd s) as [|c' t] eqn:E.
  - destruct (is_space c) eqn:Hc; [reflexivity|]. cbn [trimEnd]. now rewrite Hc.
  - cbn [trimEnd]. cbn [trimEnd] in IH. rewrite IH. reflexivity.
Qed.

Lemma trimStart_solid (s : string) :
  match first_char s with
  | Some c => is_space c = false
  | None => True
  end -> trimStart s = s.
Proof. destruct s as [|c s]; [reflexivity|]. simpl. now intros ->. Qed.

Lemma trimStart_first (s : string) :
  match first_char (trimStart s) with
  | Some c => is_space c = false
  | None => True
  end.
Proof.
  induction s as [|c s IH]; [exact I|].
  cbn [trimStart]. destruct (is_space c) eqn:Hc; [exact IH | exact Hc].
Qed.

Lemma trim_idem (s : string) : trim (trim s) = trim s.
Proof.
  unfold trim.
  assert (Hstart : trimStart (trimEnd (trimStart s)) = trimEnd (trimStart s)).
  { apply trimStart_solid.
    destruct (trimEnd_first (trimStart s)) as [-> | ->]; [exact I | apply trimStart_first]. }
  rewrite Hstart. apply trimEnd_idem.
Qed.

(** X26.  Compacting white space leaves a text without tab, without two
    blanks or three line feeds in a row and without white space at its
    ends; compacting it again changes nothing. *)
Theorem compactWhitespace_normal (value : string) :
  let compact := compactWhitespace value in
  blanks_collapsed compact = true /\
  newlines_collapsed compact = true /\
  trim compact = compact /\
  compactWhitespace compact = compact.
Proof.
  cbv zeta. unfold compactWhitespace.
  set (inner := collapse_newlines (collapse_blanks value)).
  assert (Hb : blanks_collapsed (trim inner) = true).
  { unfold trim. apply trimEnd_blanks, trimStart_collapsed.
    apply collapse_newlines_blanks, collapse_blanks_collapsed. }
  assert (Hn : newlines_collapsed (trim inner) = true).
  { unfold trim. apply trimEnd_newlines, trimStart_collapsed.
    apply collapse_newlines_collapsed. }
  split; [exact Hb|]. split; [exact Hn|]. split; [apply trim_idem|].
  rewrite (collapse_blanks_fixed _ Hb), (collapse_newlines_fixed _ Hn).
  apply trim_idem.
Qed.

